(** * release-it-yarn-workspaces: a shallow embedding of [src/index.js]

    The plugin bumps and publishes the workspaces of a yarn monorepo.  This
    development embeds the functions of [src/index.js] as Rocq functions and
    proves the properties its specification states about them.

    Conventions.
    - A JavaScript string is a [string]; its characters are the code units
      U+0000 to U+00FF.
    - A JavaScript function that may throw returns an [outcome].
    - Code that reads or writes the process state (working directory, log,
      files, the answers of the user, the results of external commands)
      threads a [state] through a small state-and-exception monad.
    - The libraries the source calls ([semver] 7.3, [detect-newline] 3.1,
      [detect-indent] 6.1, the built-in [JSON] object and
      [String.prototype.replace]) are embedded from their definitions, each in
      a module of its own. *)

From Stdlib Require Import String Ascii List Bool Arith NArith ZArith Lia.
From Stdlib Require Import DecimalString.
From Stdlib Require DecimalN.
Import ListNotations.
Local Open Scope list_scope.
Local Open Scope string_scope.

(** ** Outcomes of JavaScript calls *)

Inductive js_error : Type :=
| TypeError (msg : string)
| Error (msg : string)
| ExecError (text : string).  (* what a failed external command rejects with *)

Inductive outcome (A : Type) : Type :=
| Ok (a : A)
| Throw (e : js_error).
Arguments Ok {A} a.
Arguments Throw {A} e.

(** ** JavaScript strings *)

Module JsString.

Definition code (c : ascii) : N := N_of_ascii c.

Definition in_range (lo hi : N) (c : ascii) : bool :=
  (lo <=? code c)%N && (code c <=? hi)%N.

(** [\d] *)
Definition isDigit (c : ascii) : bool := in_range 48 57 c.

(** [[a-zA-Z]] *)
Definition isLetter (c : ascii) : bool := in_range 65 90 c || in_range 97 122 c.

(** [\s], and the white space [trim] removes: TAB, LF, VT, FF, CR, SP and
    NBSP are the ones below U+0100. *)
Definition isSpace (c : ascii) : bool :=
  in_range 9 13 c || (code c =? 32)%N || (code c =? 160)%N.

Definition isEmpty (s : string) : bool :=
  match s with EmptyString => true | String _ _ => false end.

Fixpoint all (p : ascii -> bool) (s : string) : bool :=
  match s with
  | EmptyString => true
  | String c s' => p c && all p s'
  end.

(** The longest prefix of [s] whose characters satisfy [p], and the rest. *)
Fixpoint span (p : ascii -> bool) (s : string) : string * string :=
  match s with
  | EmptyString => (EmptyString, EmptyString)
  | String c s' =>
      if p c then let (a, b) := span p s' in (String c a, b)
      else (EmptyString, s)
  end.

Fixpoint drop (n : nat) (s : string) : string :=
  match n, s with
  | O, _ => s
  | S n', String _ s' => drop n' s'
  | S _, EmptyString => EmptyString
  end.

(** [p] is the beginning of [s]. *)
Fixpoint isPrefix (p s : string) : bool :=
  match p with
  | EmptyString => true
  | String a p' =>
      match s with
      | String b s' => (a =? b)%char && isPrefix p' s'
      | EmptyString => false
      end
  end.

(** [s.startsWith(p)] *)
Definition startsWith (s p : string) : bool := isPrefix p s.

(** The first occurrence of [pat] in [s]: the text before it and the text
    after it ([s.indexOf(pat)], as [replace] and a literal [RegExp.test] use
    it). *)
Fixpoint split_first (pat s : string) {struct s} : option (string * string) :=
  if isPrefix pat s then Some (EmptyString, drop (String.length pat) s)
  else match s with
       | EmptyString => None
       | String c s' =>
           match split_first pat s' with
           | Some (before, after) => Some (String c before, after)
           | None => None
           end
       end.

(** [s.includes(pat)], which is also [/pat/.test(s)] for a pattern without
    metacharacters. *)
Definition includes (s pat : string) : bool :=
  match split_first pat s with Some _ => true | None => false end.

(** GetSubstitution of ECMA-262 for a match without capture groups: in the
    replacement text [$$] stands for a dollar, [$&] for the match, [$`] for
    the text before it and [$'] for the text after it; any other dollar is
    literal. *)
Fixpoint GetSubstitution (matched before after repl : string) : string :=
  match repl with
  | EmptyString => EmptyString
  | String c tl =>
      if (c =? "$")%char then
        match tl with
        | String d rest =>
            if (d =? "$")%char then String "$" (GetSubstitution matched before after rest)
            else if (d =? "&")%char then matched ++ GetSubstitution matched before after rest
            else if (d =? "`")%char then before ++ GetSubstitution matched before after rest
            else if (d =? "'")%char then after ++ GetSubstitution matched before after rest
            else String c (GetSubstitution matched before after tl)
        | EmptyString => String c EmptyString
        end
      else String c (GetSubstitution matched before after tl)
  end.

(** [s.replace(pat, repl)] for a string pattern: the first occurrence only. *)
Definition replace (s pat repl : string) : string :=
  match split_first pat s with
  | None => s
  | Some (before, after) => before ++ GetSubstitution pat before after repl ++ after
  end.

(** [s.split(sep)] for a separator of one character. *)
Fixpoint split (sep : ascii) (s : string) : list string :=
  match s with
  | EmptyString => [EmptyString]
  | String c s' =>
      if (c =? sep)%char then EmptyString :: split sep s'
      else match split sep s' with
           | h :: t => String c h :: t
           | [] => [String c EmptyString]
           end
  end.

(** [parts.join(sep)] *)
Fixpoint join (sep : string) (parts : list string) : string :=
  match parts with
  | [] => EmptyString
  | [p] => p
  | p :: rest => p ++ sep ++ join sep rest
  end.

Fixpoint dropWhile (p : ascii -> bool) (s : string) : string :=
  match s with
  | EmptyString => EmptyString
  | String c s' => if p c then dropWhile p s' else s
  end.

(** The text without its trailing run of [p] characters, and that run. *)
Fixpoint span_end (p : ascii -> bool) (s : string) : string * string :=
  match s with
  | EmptyString => (EmptyString, EmptyString)
  | String c s' =>
      let (body, tail) := span_end p s' in
      if isEmpty body && p c then (EmptyString, String c tail)
      else (String c body, tail)
  end.

(** [s.trim()] *)
Definition trim (s : string) : string := fst (span_end isSpace (dropWhile isSpace s)).

(** [+s] for a string of decimal digits, and [String(n)] for a natural
    number below 2^53. *)
Definition N_of_digits (s : string) : N :=
  match NilEmpty.uint_of_string s with
  | Some u => N.of_uint u
  | None => 0%N
  end.

Definition N_to_string (n : N) : string := NilEmpty.string_of_uint (N.to_uint n).

(** The grammar StringNumericLiteral of ECMA-262: the strings [Number(s)]
    does not turn into NaN. *)
Definition digits1 (s : string) : bool := negb (isEmpty s) && all isDigit s.

Definition ExponentPart_opt (s : string) : bool :=
  match s with
  | EmptyString => true
  | String c r =>
      ((c =? "e")%char || (c =? "E")%char) &&
      match r with
      | String sign r' =>
          if (sign =? "+")%char || (sign =? "-")%char then digits1 r' else digits1 r
      | EmptyString => false
      end
  end.

Definition StrUnsignedDecimalLiteral (s : string) : bool :=
  if (s =? "Infinity")%string then true
  else
    let (d1, r1) := span isDigit s in
    match r1 with
    | String "."%char r2 =>
        let (d2, r3) := span isDigit r2 in
        (negb (isEmpty d1) || negb (isEmpty d2)) && ExponentPart_opt r3
    | _ => negb (isEmpty d1) && ExponentPart_opt r1
    end.

Definition StrDecimalLiteral (s : string) : bool :=
  match s with
  | String c r =>
      if (c =? "+")%char || (c =? "-")%char then StrUnsignedDecimalLiteral r
      else StrUnsignedDecimalLiteral s
  | EmptyString => false
  end.

Definition isHexDigit (c : ascii) : bool :=
  isDigit c || in_range 65 70 c || in_range 97 102 c.

Definition NonDecimalIntegerLiteral (s : string) : bool :=
  match s with
  | String "0"%char (String p r) =>
      if (p =? "x")%char || (p =? "X")%char then negb (isEmpty r) && all isHexDigit r
      else if (p =? "o")%char || (p =? "O")%char then negb (isEmpty r) && all (in_range 48 55) r
      else if (p =? "b")%char || (p =? "B")%char then negb (isEmpty r) && all (in_range 48 49) r
      else false
  | _ => false
  end.

Definition StringNumericLiteral (s : string) : bool :=
  let t := trim s in
  isEmpty t || StrDecimalLiteral t || NonDecimalIntegerLiteral t.

(** [isNaN(s)] for a string [s] *)
Definition isNaN (s : string) : bool := negb (StringNumericLiteral s).

End JsString.

(** ** The [semver] package (7.3): [parse], [valid], [coerce] *)

Module Semver.
Import JsString.

Definition MAX_LENGTH : nat := 256.
Definition MAX_SAFE_INTEGER : N := 9007199254740991%N.
Definition MAX_SAFE_COMPONENT_LENGTH : nat := 16.

(** A pre-release identifier of a [SemVer] object: a number or a string. *)
Inductive identifier : Type :=
| IdNum (n : N)
| IdStr (s : string).

Record SemVer : Type := mkSemVer {
  raw : string;
  major : N;
  minor : N;
  patch : N;
  prerelease : list identifier;
  build : list string
}.

Definition identifier_to_string (i : identifier) : string :=
  match i with
  | IdNum n => N_to_string n
  | IdStr s => s
  end.

(** [SemVer.prototype.format], the [version] field; [toString] returns it. *)
Definition format (v : SemVer) : string :=
  N_to_string (major v) ++ "." ++ N_to_string (minor v) ++ "." ++ N_to_string (patch v) ++
  match prerelease v with
  | [] => EmptyString
  | ids => "-" ++ join "." (map identifier_to_string ids)
  end.

Definition toString (v : SemVer) : string := format v.

(** NUMERICIDENTIFIER, [0|[1-9]\d*], at the head of [s]: whatever follows it
    in the patterns below is not a digit, so it is the whole run of digits. *)
Definition numeric_identifier (s : string) : option (string * string) :=
  let (d, rest) := span isDigit s in
  match d with
  | EmptyString => None
  | String "0"%char (String _ _) => None
  | _ => Some (d, rest)
  end.

Definition expect (c : ascii) (s : string) : option string :=
  match s with
  | String c' r => if (c =? c')%char then Some r else None
  | EmptyString => None
  end.

(** [[0-9A-Za-z-]] *)
Definition isIdChar (c : ascii) : bool := isDigit c || isLetter c || (c =? "-")%char.

(** PRERELEASEIDENTIFIER, [0|[1-9]\d*|\d*[a-zA-Z-][a-zA-Z0-9-]*], against a
    whole dot-separated part. *)
Definition prerelease_identifier (p : string) : bool :=
  negb (isEmpty p) && all isIdChar p &&
  (if all isDigit p
   then match p with String "0"%char (String _ _) => false | _ => true end
   else true).

(** BUILDIDENTIFIER, [[0-9A-Za-z-]+], against a whole dot-separated part. *)
Definition build_identifier (p : string) : bool := negb (isEmpty p) && all isIdChar p.

Definition isIdCharOrDot (c : ascii) : bool := isIdChar c || (c =? ".")%char.

(** An optional group of PRERELEASE or BUILD at the head of [s]: the
    character [lead], then identifiers separated by dots.  What follows the
    group in FULL is no identifier character and no dot, so the group takes
    the whole run of them or nothing. *)
Definition optional_identifiers (lead : ascii) (identifier_ok : string -> bool) (s : string)
  : option string * string :=
  match s with
  | String c r =>
      if (c =? lead)%char then
        let (ids, rest) := span isIdCharOrDot r in
        if forallb identifier_ok (split "." ids) then (Some ids, rest) else (None, s)
      else (None, s)
  | EmptyString => (None, s)
  end.

(** The captures of FULL: an optional [v], three numeric identifiers
    separated by dots, an optional [-] with dot-separated pre-release
    identifiers, an optional [+] with dot-separated build identifiers, then
    the end of the text.  The captures are the three numbers, the pre-release
    text and the build text. *)
Definition match_FULL (s : string)
  : option (string * string * string * option string * option string) :=
  let s1 := match s with String "v"%char r => r | _ => s end in
  match numeric_identifier s1 with
  | None => None
  | Some (m1, r1) =>
  match expect "." r1 with
  | None => None
  | Some r1' =>
  match numeric_identifier r1' with
  | None => None
  | Some (m2, r2) =>
  match expect "." r2 with
  | None => None
  | Some r2' =>
  match numeric_identifier r2' with
  | None => None
  | Some (m3, r3) =>
      let (m4, r4) := optional_identifiers "-" prerelease_identifier r3 in
      let (m5, r5) := optional_identifiers "+" build_identifier r4 in
      if isEmpty r5 then Some (m1, m2, m3, m4, m5) else None
  end end end end end.

(** The constructor of [SemVer] on a string that matches FULL: it throws on a
    component above [MAX_SAFE_INTEGER]; a pre-release identifier made of
    digits becomes a number when it is below [MAX_SAFE_INTEGER]. *)
Definition prerelease_id (id : string) : identifier :=
  if all isDigit id && (N_of_digits id <? MAX_SAFE_INTEGER)%N
  then IdNum (N_of_digits id) else IdStr id.

(** [semver.parse(version)] for a string: [None] is [null]. *)
Definition parse (version : string) : option SemVer :=
  if (MAX_LENGTH <? String.length version)%nat then None
  else
    match match_FULL version with
    | None => None
    | Some (m1, m2, m3, m4, m5) =>
        let ma := N_of_digits m1 in
        let mi := N_of_digits m2 in
        let pa := N_of_digits m3 in
        if (MAX_SAFE_INTEGER <? ma)%N || (MAX_SAFE_INTEGER <? mi)%N || (MAX_SAFE_INTEGER <? pa)%N
        then None
        else Some {| raw := version; major := ma; minor := mi; patch := pa;
                     prerelease := match m4 with
                                   | Some pre => map prerelease_id (split "." pre)
                                   | None => []
                                   end;
                     build := match m5 with
                              | Some b => split "." b
                              | None => []
                              end |}
    end.

(** [semver.valid(version)]: the [version] field of the parsed object. *)
Definition valid (version : string) : option string := option_map format (parse version).

(** One optional group [(?:\.(\d{1,16}))?] of COERCE. *)
Definition coerce_component (s : string) : option string * string :=
  match s with
  | String "."%char r =>
      let (d, rest) := span isDigit r in
      if negb (isEmpty d) && (String.length d <=? MAX_SAFE_COMPONENT_LENGTH)%nat
      then (Some d, rest) else (None, s)
  | _ => (None, s)
  end.

(** COERCE, [(^|[^\d])(\d{1,16})(?:\.(\d{1,16}))?(?:\.(\d{1,16}))?(?:$|[^\d])],
    with the digits of group 2 at the head of [s].  The final [(?:$|[^\d])]
    forces every group to take a whole run of digits, so a run of more than
    sixteen digits does not match. *)
Definition coerce_at (s : string) : option (string * option string * option string) :=
  let (d2, r2) := span isDigit s in
  if negb (isEmpty d2) && (String.length d2 <=? MAX_SAFE_COMPONENT_LENGTH)%nat then
    let (m3, r3) := coerce_component r2 in
    match m3 with
    | Some _ => Some (d2, m3, fst (coerce_component r3))
    | None => Some (d2, None, None)
    end
  else None.

(** The leftmost match of COERCE: group 2 starts at the beginning of the text
    or after a character that is not a digit. *)
Fixpoint match_COERCE (after_digit : bool) (s : string)
  : option (string * option string * option string) :=
  match (if after_digit then None else coerce_at s) with
  | Some m => Some m
  | None =>
      match s with
      | EmptyString => None
      | String c s' => match_COERCE (isDigit c) s'
      end
  end.

Definition or_zero (o : option string) : string :=
  match o with Some d => d | None => "0" end.

(** [semver.coerce(version)] for a string: [None] is [null]. *)
Definition coerce (version : string) : option SemVer :=
  match match_COERCE false version with
  | None => None
  | Some (m2, m3, m4) => parse (m2 ++ "." ++ or_zero m3 ++ "." ++ or_zero m4)
  end.

End Semver.

(** ** JSON values *)

(** A number is an integer within the safe range (so [-0] and [0] are one
    value: the program never tells them apart).  An object lists its
    properties in property order. *)
Unset Elimination Schemes.
Inductive json : Type :=
| JNull
| JBool (b : bool)
| JNumber (z : Z)
| JString (s : string)
| JArray (items : list json)
| JObject (members : list (string * json)).
Set Elimination Schemes.

(** A JavaScript value that may be [undefined]. *)
Definition value : Type := option json.
Definition undefined : value := None.

Fixpoint lookup (k : string) (members : list (string * json)) : value :=
  match members with
  | [] => None
  | (k', v) :: rest => if (k =? k')%string then Some v else lookup k rest
  end.

(** ** The functions of [src/index.js] *)

Definition DEFAULT_TAG : string := "latest".

Definition workspaces_error : js_error :=
  Error "This package doesn't use yarn workspaces. (package.json doesn't contain a `workspaces` property)".

(** [resolveWorkspaces(workspaces)], lines 21-31. *)
Definition resolveWorkspaces (workspaces : value) : outcome value :=
  match workspaces with
  | Some (JArray items) => Ok (Some (JArray items))
  | Some (JObject members) => Ok (lookup "packages" members)
  | _ => Throw workspaces_error
  end.

(** The [version] field [parseVersion] returns: the raw string when it is
    valid, else the coerced [SemVer] object (or [null]). *)
Inductive version_field : Type :=
| VersionRaw (s : string)
| VersionCoerced (v : Semver.SemVer).

Record ParsedVersion : Type := mkParsedVersion {
  version : option version_field;
  isPreRelease : bool;
  preReleaseId : option string
}.

(** [isPreRelease && isNaN(parsed.prerelease[0]) ? parsed.prerelease[0] : null] *)
Definition first_non_numeric (ids : list Semver.identifier) : option string :=
  match ids with
  | Semver.IdStr s :: _ => if JsString.isNaN s then Some s else None
  | _ => None
  end.

(** [parseVersion(raw)], lines 33-47.  [parsed.prerelease] throws a TypeError
    when [parsed] is [null]. *)
Definition parseVersion (raw : string) : outcome ParsedVersion :=
  if JsString.isEmpty raw
  then Ok {| version := None; isPreRelease := false; preReleaseId := None |}
  else
    let version :=
      match Semver.valid raw with
      | Some _ => Some (VersionRaw raw)
      | None => option_map VersionCoerced (Semver.coerce raw)
      end in
    let parsed :=
      match version with
      | Some (VersionRaw s) => Semver.parse s
      | Some (VersionCoerced v) => Some v
      | None => None
      end in
    match parsed with
    | None => Throw (TypeError "Cannot read property 'prerelease' of null")
    | Some p =>
        Ok {| version := version;
              isPreRelease := negb (Nat.eqb (List.length (Semver.prerelease p)) 0);
              preReleaseId := first_non_numeric (Semver.prerelease p) |}
    end.

(** [buildReplacementDepencencyVersion(existingVersion, newVersion)], lines
    49-63, for a string [existingVersion]. *)
Definition buildReplacementDepencencyVersion (existingVersion newVersion : string) : string :=
  match Semver.parse existingVersion with
  | Some _ => newVersion
  | None =>
      match Semver.coerce existingVersion with
      | Some existingVersionCoerced =>
          JsString.replace existingVersion (Semver.toString existingVersionCoerced) newVersion
      | None => newVersion
      end
  end.

(** A string option of the plugin is set when it is a non-empty string. *)
Definition truthy (o : option string) : bool :=
  match o with
  | Some s => negb (JsString.isEmpty s)
  | None => false
  end.

(** The distribution tag [bump(version)] puts in the context, lines 148-154:
    [None] is [null]. *)
Definition bump_distTag (options_distTag : option string) (version : string)
  : outcome (option string) :=
  if truthy options_distTag then Ok options_distTag
  else
    match parseVersion version with
    | Throw e => Throw e
    | Ok p =>
        Ok (if truthy options_distTag || isPreRelease p
            then preReleaseId p else Some DEFAULT_TAG)
    end.


(** ** The built-in [JSON] object *)

Module Json.
Import JsString.

Definition dquote : ascii := "034"%char.
Definition backslash : ascii := "092"%char.

(** *** Property order of an object *)

(** An array index: the canonical text of an integer below 2^32 - 1. *)
Definition isArrayIndex (k : string) : bool :=
  digits1 k &&
  match k with String "0"%char (String _ _) => false | _ => true end &&
  (String.length k <=? 10)%nat && (N_of_digits k <? 4294967295)%N.

(** Whether a new key [k] comes before the existing key [k'] in property
    order: array indices come first, in ascending order; the other keys follow
    in the order of their creation. *)
Definition key_before (k k' : string) : bool :=
  isArrayIndex k && (negb (isArrayIndex k') || (N_of_digits k <? N_of_digits k')%N).

Fixpoint insert_member (k : string) (v : json) (members : list (string * json))
  : list (string * json) :=
  match members with
  | [] => [(k, v)]
  | (k', v') :: rest =>
      if key_before k k' then (k, v) :: members
      else (k', v') :: insert_member k v rest
  end.

Fixpoint replace_member (k : string) (v : json) (members : list (string * json))
  : list (string * json) :=
  match members with
  | [] => []
  | (k', v') :: rest =>
      if (k =? k')%string then (k', v) :: rest
      else (k', v') :: replace_member k v rest
  end.

(** [object[k] = v] on an ordinary object. *)
Definition set_member (k : string) (v : json) (members : list (string * json))
  : list (string * json) :=
  match lookup k members with
  | Some _ => replace_member k v members
  | None => insert_member k v members
  end.

(** *** [JSON.stringify(value, null, indent)] *)

Definition hex_digit (n : N) : ascii :=
  if (n <? 10)%N then ascii_of_N (48 + n) else ascii_of_N (87 + n).

(** The escape of one character in QuoteJSONString. *)
Definition quote_char (c : ascii) : string :=
  if (c =? dquote)%char then String backslash (String dquote EmptyString)
  else if (c =? backslash)%char then String backslash (String backslash EmptyString)
  else if (code c =? 8)%N then String backslash "b"
  else if (code c =? 9)%N then String backslash "t"
  else if (code c =? 10)%N then String backslash "n"
  else if (code c =? 12)%N then String backslash "f"
  else if (code c =? 13)%N then String backslash "r"
  else if (code c <? 32)%N then
    String backslash ("u00" ++ String (hex_digit (code c / 16)) (String (hex_digit (code c mod 16)) EmptyString))
  else String c EmptyString.

Fixpoint quote_chars (s : string) : string :=
  match s with
  | EmptyString => EmptyString
  | String c s' => quote_char c ++ quote_chars s'
  end.

Definition QuoteJSONString (s : string) : string :=
  String dquote (quote_chars s ++ String dquote EmptyString).

(** [String(n)] for an integer. *)
Definition Z_to_string (z : Z) : string :=
  match z with
  | Z0 => "0"
  | Zpos p => N_to_string (Npos p)
  | Zneg p => "-" ++ N_to_string (Npos p)
  end.

Fixpoint spaces (n : nat) : string :=
  match n with
  | O => EmptyString
  | S n' => String " " (spaces n')
  end.

(** The gap of a numeric [space] argument: at most ten spaces. *)
Definition gap_of (indent : nat) : string := spaces (Nat.min 10 indent).

Definition wrap (opening closing gap stepback indent : string) (partial : list string) : string :=
  match partial with
  | [] => opening ++ closing
  | _ =>
      if isEmpty gap then opening ++ join "," partial ++ closing
      else
        let newline := String "010" EmptyString in
        opening ++ newline ++ indent ++ join ("," ++ newline ++ indent) partial
        ++ newline ++ stepback ++ closing
  end.

(** SerializeJSONProperty, SerializeJSONObject and SerializeJSONArray;
    [stepback] is the indentation of the enclosing value. *)
Fixpoint serialize (gap stepback : string) (v : json) {struct v} : string :=
  match v with
  | JNull => "null"
  | JBool true => "true"
  | JBool false => "false"
  | JNumber z => Z_to_string z
  | JString s => QuoteJSONString s
  | JArray items =>
      let indent := stepback ++ gap in
      wrap "[" "]" gap stepback indent (map (serialize gap indent) items)
  | JObject members =>
      let indent := stepback ++ gap in
      wrap "{" "}" gap stepback indent
        (map (fun kv : string * json =>
                QuoteJSONString (fst kv) ++ ":" ++ (if isEmpty gap then EmptyString else " ")
                ++ serialize gap indent (snd kv)) members)
  end.

Definition stringify (v : json) (indent : nat) : string :=
  serialize (gap_of indent) EmptyString v.

(** *** [JSON.parse(text)] *)

(** JSONWhiteSpace: TAB, LF, CR, SP. *)
Definition isJsonSpace (c : ascii) : bool :=
  (code c =? 9)%N || (code c =? 10)%N || (code c =? 13)%N || (code c =? 32)%N.

Definition skip_ws (s : string) : string := dropWhile isJsonSpace s.

Definition hex_val (c : ascii) : option N :=
  if isDigit c then Some (code c - 48)%N
  else if in_range 97 102 c then Some (code c - 87)%N
  else if in_range 65 70 c then Some (code c - 55)%N
  else None.

Definition hex4 (a b c d : ascii) : option N :=
  match hex_val a, hex_val b, hex_val c, hex_val d with
  | Some x, Some y, Some z, Some w => Some (((x * 16 + y) * 16 + z) * 16 + w)%N
  | _, _, _, _ => None
  end.

Definition unescape (e : ascii) : option ascii :=
  if (e =? dquote)%char then Some dquote
  else if (e =? backslash)%char then Some backslash
  else if (e =? "/")%char then Some "/"%char
  else if (e =? "b")%char then Some "008"%char
  else if (e =? "f")%char then Some "012"%char
  else if (e =? "n")%char then Some "010"%char
  else if (e =? "r")%char then Some "013"%char
  else if (e =? "t")%char then Some "009"%char
  else None.

(** The characters of a JSONString after its opening quote, up to the closing
    quote.  An escape [\uXXXX] above U+00FF has no character in this model. *)
Fixpoint parse_chars (s : string) : option (string * string) :=
  match s with
  | EmptyString => None
  | String c r =>
      if (c =? dquote)%char then Some (EmptyString, r)
      else if (c =? backslash)%char then
        match r with
        | String "u"%char (String h1 (String h2 (String h3 (String h4 r')))) =>
            match hex4 h1 h2 h3 h4 with
            | Some n =>
                if (n <? 256)%N then
                  match parse_chars r' with
                  | Some (str, rest) => Some (String (ascii_of_N n) str, rest)
                  | None => None
                  end
                else None
            | None => None
            end
        | String e r' =>
            match unescape e with
            | Some x =>
                match parse_chars r' with
                | Some (str, rest) => Some (String x str, rest)
                | None => None
                end
            | None => None
            end
        | EmptyString => None
        end
      else if (code c <? 32)%N then None
      else
        match parse_chars r with
        | Some (str, rest) => Some (String c str, rest)
        | None => None
        end
  end.

(** A JSONNumber: an integer literal within the safe range; a literal with a
    fraction or an exponent has no value in this model. *)
Definition number_continues (rest : string) : bool :=
  match rest with
  | String c _ => (c =? ".")%char || (c =? "e")%char || (c =? "E")%char
  | EmptyString => false
  end.

Definition parse_digits (negative : bool) (s : string) : option (json * string) :=
  let (d, rest) := span isDigit s in
  match d with
  | EmptyString => None
  | String "0"%char (String _ _) => None
  | _ =>
      if number_continues rest then None
      else if (Semver.MAX_SAFE_INTEGER <? N_of_digits d)%N then None
      else Some (JNumber (if negative then Z.opp (Z.of_N (N_of_digits d))
                          else Z.of_N (N_of_digits d)), rest)
  end.

Definition parse_number (s : string) : option (json * string) :=
  match s with
  | String "-"%char r => parse_digits true r
  | _ => parse_digits false s
  end.

(** A JSONValue at the head of the text (after white space), and the rest of
    the text.  The fuel bounds the number of nested calls. *)
Fixpoint parse_value (fuel : nat) (s : string) {struct fuel} : option (json * string) :=
  match fuel with
  | O => None
  | S fuel' =>
      match skip_ws s with
      | EmptyString => None
      | String c r as s0 =>
          if (c =? "{")%char then
            match skip_ws r with
            | String "}"%char r' => Some (JObject [], r')
            | _ => parse_members fuel' r []
            end
          else if (c =? "[")%char then
            match skip_ws r with
            | String "]"%char r' => Some (JArray [], r')
            | _ => parse_items fuel' r []
            end
          else if (c =? dquote)%char then
            match parse_chars r with
            | Some (str, rest) => Some (JString str, rest)
            | None => None
            end
          else if isPrefix "null" s0 then Some (JNull, drop 4 s0)
          else if isPrefix "true" s0 then Some (JBool true, drop 4 s0)
          else if isPrefix "false" s0 then Some (JBool false, drop 5 s0)
          else parse_number s0
      end
  end
with parse_items (fuel : nat) (s : string) (acc : list json) {struct fuel}
  : option (json * string) :=
  match fuel with
  | O => None
  | S fuel' =>
      match parse_value fuel' s with
      | Some (v, r) =>
          match skip_ws r with
          | String c r' =>
              if (c =? ",")%char then parse_items fuel' r' (acc ++ [v])%list
              else if (c =? "]")%char then Some (JArray (acc ++ [v])%list, r')
              else None
          | EmptyString => None
          end
      | None => None
      end
  end
with parse_members (fuel : nat) (s : string) (acc : list (string * json)) {struct fuel}
  : option (json * string) :=
  match fuel with
  | O => None
  | S fuel' =>
      match skip_ws s with
      | String q r =>
          if (q =? dquote)%char then
            match parse_chars r with
            | Some (k, r1) =>
                match skip_ws r1 with
                | String ":"%char r2 =>
                    match parse_value fuel' r2 with
                    | Some (v, r3) =>
                        match skip_ws r3 with
                        | String c r4 =>
                            if (c =? ",")%char then parse_members fuel' r4 (set_member k v acc)
                            else if (c =? "}")%char then Some (JObject (set_member k v acc), r4)
                            else None
                        | EmptyString => None
                        end
                    | None => None
                    end
                | _ => None
                end
            | None => None
            end
          else None
      | EmptyString => None
      end
  end.

(** [JSON.parse(text)]: [None] when it throws a SyntaxError (or when a number
    or an escape of the text is outside the model). *)
Definition parse (text : string) : option json :=
  match parse_value (S (String.length text)) text with
  | Some (v, rest) => if isEmpty (skip_ws rest) then Some v else None
  | None => None
  end.

End Json.

(** ** The [detect-newline] package (3.1) *)

Module DetectNewline.

(** The matches of [/(?:\r?\n)/g]: the number of CRLF and of lone LF. *)
Fixpoint count_newlines (s : string) : nat * nat :=
  match s with
  | EmptyString => (O, O)
  | String "013"%char (String "010"%char r) =>
      let (crlf, lf) := count_newlines r in (S crlf, lf)
  | String c r =>
      let (crlf, lf) := count_newlines r in
      if (c =? "010")%char then (crlf, S lf) else (crlf, lf)
  end.

Definition CRLF : string := String "013" (String "010" EmptyString).
Definition LF : string := String "010" EmptyString.

(** [detectNewline(string)]: [None] is [undefined], for a text without a
    newline. *)
Definition detectNewline (s : string) : option string :=
  let (crlf, lf) := count_newlines s in
  if Nat.eqb (crlf + lf) 0 then None
  else if (lf <? crlf)%nat then Some CRLF else Some LF.

End DetectNewline.

(** ** The [detect-indent] package (6.1) *)

Module DetectIndent.
Import JsString.

Inductive indent_type : Type := SPACE | TAB.

Definition indent_type_eqb (a b : indent_type) : bool :=
  match a, b with
  | SPACE, SPACE | TAB, TAB => true
  | _, _ => false
  end.

(** The key of the map of indents: the type and the size of an indent change
    ([encodeIndentsKey]); [None] is the variable [key] before its first
    assignment. *)
Definition indents_key : Type := option (indent_type * nat).

Definition key_eqb (a b : indents_key) : bool :=
  match a, b with
  | Some (t, n), Some (t', n') => indent_type_eqb t t' && Nat.eqb n n'
  | None, None => true
  | _, _ => false
  end.

(** The map of indents, in insertion order: key, times used, weight. *)
Definition indents_map : Type := list (indents_key * (nat * nat)).

Fixpoint map_get (m : indents_map) (k : indents_key) : option (nat * nat) :=
  match m with
  | [] => None
  | (k', e) :: rest => if key_eqb k k' then Some e else map_get rest k
  end.

Fixpoint map_set (m : indents_map) (k : indents_key) (e : nat * nat) : indents_map :=
  match m with
  | [] => [(k, e)]
  | (k', e') :: rest =>
      if key_eqb k k' then (k', e) :: rest else (k', e') :: map_set rest k e
  end.

(** INDENT_REGEX, [/^(?:( )+|\t+)/]: the leading spaces, else the leading
    tabs, of a line. *)
Definition match_indent (line : string) : option (indent_type * nat) :=
  match line with
  | String " "%char _ =>
      Some (SPACE, String.length (fst (span (fun c => (c =? " ")%char) line)))
  | String "009"%char _ =>
      Some (TAB, String.length (fst (span (fun c => (c =? "009")%char) line)))
  | _ => None
  end.

(** The variables of the loop of [makeIndentsMap]: [previousIndentType] is
    [None] while undefined and [Some None] for the empty string. *)
Record scan : Type := mkScan {
  previousSize : nat;
  previousIndentType : option (option indent_type);
  key : indents_key;
  indents : indents_map
}.

(** The body of the loop for a line that is not empty, given what INDENT_REGEX
    matched on it. *)
Definition scan_indent (ignoreSingleSpaces : bool) (st : scan)
  (matches : option (indent_type * nat)) : scan :=
  match matches with
  | None =>
      {| previousSize := 0; previousIndentType := Some None;
         key := key st; indents := indents st |}
  | Some (indentType, indent) =>
      if ignoreSingleSpaces && indent_type_eqb indentType SPACE && Nat.eqb indent 1
      then st
      else
        let previousSize0 :=
          match previousIndentType st with
          | Some (Some t) => if indent_type_eqb indentType t then previousSize st else 0
          | _ => 0
          end in
        let same := Nat.eqb indent previousSize0 in
        let weight := if same then 1 else 0 in
        let key' :=
          if same then key st
          else Some (indentType,
                     if (previousSize0 <? indent)%nat then indent - previousSize0
                     else previousSize0 - indent) in
        let entry :=
          match map_get (indents st) key' with
          | None => (1, 0)
          | Some (used, w) => (S used, w + weight)
          end in
        {| previousSize := indent; previousIndentType := Some (Some indentType);
           key := key'; indents := map_set (indents st) key' entry |}
  end.

Definition scan_line (ignoreSingleSpaces : bool) (st : scan) (line : string) : scan :=
  if isEmpty line then st
  else scan_indent ignoreSingleSpaces st (match_indent line).

Definition initial_scan : scan :=
  {| previousSize := 0; previousIndentType := None; key := None; indents := [] |}.

Definition makeIndentsMap (s : string) (ignoreSingleSpaces : bool) : indents_map :=
  indents (fold_left (scan_line ignoreSingleSpaces) (split "010" s) initial_scan).

(** [getMostUsedKey]: the first key with the highest use count and, among
    those, the highest weight. *)
Fixpoint most_used (m : indents_map) (result : option indents_key) (maxUsed maxWeight : nat)
  : option indents_key :=
  match m with
  | [] => result
  | (k, (usedCount, weight)) :: rest =>
      if (maxUsed <? usedCount)%nat || (Nat.eqb usedCount maxUsed && (maxWeight <? weight)%nat)
      then most_used rest (Some k) usedCount weight
      else most_used rest result maxUsed maxWeight
  end.

Definition getMostUsedKey (m : indents_map) : option indents_key := most_used m None 0 0.

Record indentation : Type := mkIndentation {
  amount : nat;
  type : option indent_type
}.

(** [detectIndent(string)] *)
Definition detectIndent (s : string) : indentation :=
  let indents1 := makeIndentsMap s true in
  let indents2 := match indents1 with [] => makeIndentsMap s false | _ => indents1 end in
  match getMostUsedKey indents2 with
  | Some (Some (t, n)) => {| amount := n; type := Some t |}
  | _ => {| amount := 0; type := None |}
  end.

End DetectIndent.

(** ** [JSONFile], lines 65-83 *)

(** DETECT_TRAILING_WHITESPACE, [/\s+$/], run on the text: the run of white
    space that ends the text, when there is one. *)
Definition DETECT_TRAILING_WHITESPACE (contents : string) : option string :=
  let tail := snd (JsString.span_end JsString.isSpace contents) in
  if JsString.isEmpty tail then None else Some tail.

Record JSONFile : Type := mkJSONFile {
  filename : string;
  pkg : json;
  lineEndings : option string;
  indent : nat;
  trailingWhitespace : string
}.

(** The body of the constructor after [fs.readFileSync]: [None] when
    [JSON.parse] throws. *)
Definition JSONFile_of_contents (filename contents : string) : option JSONFile :=
  match Json.parse contents with
  | None => None
  | Some pkg =>
      Some {| filename := filename;
              pkg := pkg;
              lineEndings := DetectNewline.detectNewline contents;
              indent := DetectIndent.amount (DetectIndent.detectIndent contents);
              trailingWhitespace :=
                match DETECT_TRAILING_WHITESPACE contents with
                | Some ws => ws
                | None => EmptyString
                end |}
  end.

(** [s.replace(/\n/g, lineEndings)]: an undefined replacement is the text
    [undefined]; no line ending holds a dollar sign. *)
Definition replace_newlines (lineEndings : option string) (s : string) : string :=
  let replacement := match lineEndings with Some le => le | None => "undefined" end in
  JsString.join replacement (JsString.split "010" s).

(** The text [write()] hands to [fs.writeFileSync]. *)
Definition JSONFile_contents (f : JSONFile) : string :=
  replace_newlines (lineEndings f) (Json.stringify (pkg f) (indent f)) ++ trailingWhitespace f.

(** ** The plugin: state and effects *)

Inductive log_entry : Type :=
| Warn (msg : string)       (* this.log.warn *)
| LogExec (msg : string)    (* this.log.exec *)
| LogInfo (msg : string).   (* this.log.log *)

(** What the host answers next: the result of an external command
    ([this.exec]) or the answer of the user to a prompt ([this.step]). *)
Inductive reply : Type :=
| Resolved
| Rejected (err : string)
| OtpAnswer (otp : string)
| ConfirmAnswer (yes : bool).

(** A workspace descriptor of [getWorkspaces], lines 374-381.  These four
    fields are written once; [isReleased] and [pkgInfo], which the plugin
    mutates, are in [workspaceState]. *)
Record workspaceInfo : Type := mkWorkspaceInfo {
  root : string;
  relativeRoot : string;
  name : value;
  isPrivate : bool
}.

Record workspaceState : Type := mkWorkspaceState {
  isReleased : bool;
  pkgInfo : JSONFile
}.

(** The plugin object [this]: its options, the flag [global.isDryRun], the
    context entry [root] and the cached list [_workspaces]. *)
Record plugin : Type := mkPlugin {
  options_distTag : option string;
  options_otp : option string;
  options_publish : bool;          (* [false] when the option is [false] *)
  isDryRun : bool;
  context_root : string;
  workspaces : list workspaceInfo
}.

(** What the plugin reads and writes while it runs.  [otp] is the [value] of
    the object [release] shares between all calls of [publish];
    [context_distTag] is [None] while the context has no [distTag]. *)
Record state : Type := mkState {
  cwd : string;
  logs : list log_entry;
  disk : list (string * string);
  executed : list string;
  replies : list reply;
  otp : option string;
  wstates : list workspaceState;
  context_distTag : option (option string)
}.

(** A call returns, throws, or is stuck: the host has no fitting reply left,
    the fuel of a retry loop is used up, or the value is outside the model. *)
Inductive result (A : Type) : Type :=
| Returns (a : A)
| Throws (e : js_error)
| Stuck.
Arguments Returns {A} a.
Arguments Throws {A} e.
Arguments Stuck {A}.

Definition M (A : Type) : Type := state -> result A * state.

Definition ret {A : Type} (a : A) : M A := fun st => (Returns a, st).
Definition throw {A : Type} (e : js_error) : M A := fun st => (Throws e, st).
Definition stuck {A : Type} : M A := fun st => (Stuck, st).

Definition bind {A B : Type} (m : M A) (k : A -> M B) : M B :=
  fun st =>
    match m st with
    | (Returns a, st') => k a st'
    | (Throws e, st') => (Throws e, st')
    | (Stuck, st') => (Stuck, st')
    end.

Notation "x <- m ;; k" := (bind m (fun x => k))
  (at level 61, m at next level, right associativity).
Notation "m ;;; k" := (bind m (fun _ => k))
  (at level 61, right associativity).

(** [try { body } finally { finalizer }] *)
Definition try_finally {A : Type} (body : M A) (finalizer : M unit) : M A :=
  fun st =>
    match body st with
    | (Stuck, st') => (Stuck, st')
    | (r, st') =>
        match finalizer st' with
        | (Returns _, st'') => (r, st'')
        | (Throws e, st'') => (Throws e, st'')
        | (Stuck, st'') => (Stuck, st'')
        end
    end.

Definition get : M state := fun st => (Returns st, st).
Definition modify (f : state -> state) : M unit := fun st => (Returns tt, f st).

Definition set_cwd (dir : string) (st : state) : state :=
  mkState dir (logs st) (disk st) (executed st) (replies st) (otp st) (wstates st)
          (context_distTag st).
Definition add_log (e : log_entry) (st : state) : state :=
  mkState (cwd st) (logs st ++ [e]) (disk st) (executed st) (replies st) (otp st)
          (wstates st) (context_distTag st).
Definition set_disk (d : list (string * string)) (st : state) : state :=
  mkState (cwd st) (logs st) d (executed st) (replies st) (otp st) (wstates st)
          (context_distTag st).
Definition add_executed (cmd : string) (st : state) : state :=
  mkState (cwd st) (logs st) (disk st) (executed st ++ [cmd]) (replies st) (otp st)
          (wstates st) (context_distTag st).
Definition set_replies (r : list reply) (st : state) : state :=
  mkState (cwd st) (logs st) (disk st) (executed st) r (otp st) (wstates st)
          (context_distTag st).
Definition set_otp (o : option string) (st : state) : state :=
  mkState (cwd st) (logs st) (disk st) (executed st) (replies st) o (wstates st)
          (context_distTag st).
Definition set_wstates (w : list workspaceState) (st : state) : state :=
  mkState (cwd st) (logs st) (disk st) (executed st) (replies st) (otp st) w
          (context_distTag st).
Definition set_context_distTag (t : option string) (st : state) : state :=
  mkState (cwd st) (logs st) (disk st) (executed st) (replies st) (otp st) (wstates st)
          (Some t).

(** [process.chdir(dir)]; the directories the plugin enters were found on
    disk. *)
Definition chdir (dir : string) : M unit := modify (set_cwd dir).

Definition warn (msg : string) : M unit := modify (add_log (Warn msg)).
Definition log_exec (msg : string) : M unit := modify (add_log (LogExec msg)).

(** [fs.writeFileSync(filename, contents)] *)
Fixpoint write_file (filename contents : string) (d : list (string * string))
  : list (string * string) :=
  match d with
  | [] => [(filename, contents)]
  | (f, c) :: rest =>
      if (f =? filename)%string then (f, contents) :: rest
      else (f, c) :: write_file filename contents rest
  end.

Fixpoint read_file (filename : string) (d : list (string * string)) : option string :=
  match d with
  | [] => None
  | (f, c) :: rest => if (f =? filename)%string then Some c else read_file filename rest
  end.

(** [this.exec(command)]: the command is recorded and the next reply of the
    host tells whether it resolves or rejects. *)
Definition exec (command : string) : M unit :=
  fun st =>
    match replies st with
    | Resolved :: rest => (Returns tt, set_replies rest (add_executed command st))
    | Rejected err :: rest => (Throws (ExecError err), set_replies rest (add_executed command st))
    | _ => (Stuck, st)
    end.

(** [this.step({ prompt: 'otp', task })]: the task receives the text the user
    enters. *)
Definition prompt_otp : M string :=
  fun st =>
    match replies st with
    | OtpAnswer o :: rest => (Returns o, set_replies rest st)
    | _ => (Stuck, st)
    end.

(** [this.step({ prompt, task })] for a prompt of type [confirm]: the task
    runs when the user confirms. *)
Definition prompt_confirm : M bool :=
  fun st =>
    match replies st with
    | ConfirmAnswer b :: rest => (Returns b, set_replies rest st)
    | _ => (Stuck, st)
    end.

(** *** JavaScript values of a manifest *)

(** [ToBoolean] *)
Definition truthy_value (v : value) : bool :=
  match v with
  | None | Some JNull => false
  | Some (JBool b) => b
  | Some (JNumber z) => negb (z =? 0)%Z
  | Some (JString s) => negb (JsString.isEmpty s)
  | Some (JArray _) | Some (JObject _) => true
  end.

(** [ToString], as [Array.prototype.join] and a template literal apply it. *)
Fixpoint to_text (v : json) : string :=
  match v with
  | JNull => "null"
  | JBool true => "true"
  | JBool false => "false"
  | JNumber z => Json.Z_to_string z
  | JString s => s
  | JArray items =>
      JsString.join ","
        (map (fun x => match x with JNull => EmptyString | _ => to_text x end) items)
  | JObject _ => "[object Object]"
  end.

(** An element of [packageNames] inside [join]. *)
Definition name_text (v : value) : string :=
  match v with
  | None | Some JNull => EmptyString
  | Some x => to_text x
  end.

(** [workspaces.find((w) => w.name === dependency)] is truthy. *)
Definition is_workspace_name (names : list value) (dependency : string) : bool :=
  existsb (fun n => match n with
                    | Some (JString s) => (s =? dependency)%string
                    | _ => false
                    end) names.

(** [buildReplacementDepencencyVersion] on any value of a manifest:
    [semver.parse] is [null] for what is not a string, [semver.coerce] turns a
    number into its text first, and a number has no method [replace]. *)
Definition replacement_of (existingVersion : json) (newVersion : string) : outcome json :=
  match existingVersion with
  | JString s => Ok (JString (buildReplacementDepencencyVersion s newVersion))
  | JNumber z =>
      match Semver.coerce (Json.Z_to_string z) with
      | Some _ => Throw (TypeError "existingVersion.replace is not a function")
      | None => Ok (JString newVersion)
      end
  | _ => Ok (JString newVersion)
  end.

(** The loop of [_updateDependencies] over the properties of an object: the
    updated properties, and the exception that stopped the loop. *)
Fixpoint update_members (names : list value) (newVersion : string)
  (members : list (string * json)) : list (string * json) * option js_error :=
  match members with
  | [] => ([], None)
  | (dependency, existingVersion) :: rest =>
      if is_workspace_name names dependency then
        match replacement_of existingVersion newVersion with
        | Throw e => (members, Some e)
        | Ok replacement =>
            let (rest', err) := update_members names newVersion rest in
            ((dependency, replacement) :: rest', err)
        end
      else
        let (rest', err) := update_members names newVersion rest in
        ((dependency, existingVersion) :: rest', err)
  end.

(** The same loop over the indices of an array. *)
Fixpoint update_items (names : list value) (newVersion : string) (index : N)
  (items : list json) : list json * option js_error :=
  match items with
  | [] => ([], None)
  | existingVersion :: rest =>
      if is_workspace_name names (JsString.N_to_string index) then
        match replacement_of existingVersion newVersion with
        | Throw e => (items, Some e)
        | Ok replacement =>
            let (rest', err) := update_items names newVersion (index + 1) rest in
            (replacement :: rest', err)
        end
      else
        let (rest', err) := update_items names newVersion (index + 1) rest in
        (existingVersion :: rest', err)
  end.

(** Over the indices of a string the first assignment throws: the method is
    strict code and a string is read-only. *)
Fixpoint string_index_named (names : list value) (index : N) (s : string) : bool :=
  match s with
  | EmptyString => false
  | String _ r =>
      is_workspace_name names (JsString.N_to_string index) || string_index_named names (index + 1) r
  end.

(** [_updateDependencies(dependencies, newVersion)], lines 222-234: the value
    [dependencies] refers to afterwards. *)
Definition updateDependencies (names : list value) (dependencies : value) (newVersion : string)
  : value * option js_error :=
  if truthy_value dependencies then
    match dependencies with
    | Some (JObject members) =>
        let (members', err) := update_members names newVersion members in
        (Some (JObject members'), err)
    | Some (JArray items) =>
        let (items', err) := update_items names newVersion 0 items in
        (Some (JArray items'), err)
    | Some (JString s) =>
        (dependencies,
         if string_index_named names 0 s
         then Some (TypeError "Cannot assign to read only property of string")
         else None)
    | _ => (dependencies, None)
    end
  else (dependencies, None).

Definition DEPENDENCY_FIELDS : list string :=
  ["dependencies"; "devDependencies"; "optionalDependencies"; "peerDependencies"].

(** The four calls of [_updateDependencies], lines 180-183, on the
    properties of [pkg]. *)
Fixpoint update_fields (names : list value) (newVersion : string) (fields : list string)
  (members : list (string * json)) : list (string * json) * option js_error :=
  match fields with
  | [] => (members, None)
  | field :: rest =>
      match updateDependencies names (lookup field members) newVersion with
      | (Some deps', Some e) => (Json.replace_member field deps' members, Some e)
      | (None, Some e) => (members, Some e)
      | (Some deps', None) =>
          update_fields names newVersion rest (Json.replace_member field deps' members)
      | (None, None) => update_fields names newVersion rest members
      end
  end.

Section Plugin.

(** [this] *)
Variable self : plugin.

Definition workspace_names : list value := map name (workspaces self).

(** [packageNames.join(', ')] *)
Definition packageNames_text : string :=
  JsString.join ", " (map name_text workspace_names).

Definition set_wstate (i : nat) (w : workspaceState) (st : state) : state :=
  set_wstates (firstn i (wstates st) ++ w :: skipn (S i) (wstates st))%list st.

(** [pkgInfo.write()], lines 78-82. *)
Definition write (f : JSONFile) : M unit :=
  modify (fun st => set_disk (write_file (filename f) (JSONFile_contents f) (disk st)) st).

(** The body of the loop of [bump], lines 170-186, for the workspace at
    index [i]. *)
Definition bump_workspace (version : string) (i : nat) : M unit :=
  st <- get ;;
  match nth_error (wstates st) i with
  | None => stuck
  | Some ws =>
      let file := pkgInfo ws in
      let with_pkg (p : json) : workspaceState :=
        mkWorkspaceState (isReleased ws)
          (mkJSONFile (filename file) p (lineEndings file) (indent file)
                      (trailingWhitespace file)) in
      match pkg file with
      | JObject members =>
          (match lookup "version" members with
           | Some (JString originalVersion) =>
               if (originalVersion =? version)%string
               then warn ("Did not update version in package.json, etc. (already at "
                          ++ version ++ ").")
               else ret tt
           | _ => ret tt
           end) ;;;
          let versioned := Json.set_member "version" (JString version) members in
          match update_fields workspace_names version DEPENDENCY_FIELDS versioned with
          | (members', Some e) =>
              modify (set_wstate i (with_pkg (JObject members'))) ;;; throw e
          | (members', None) =>
              modify (set_wstate i (with_pkg (JObject members'))) ;;;
              write (pkgInfo (with_pkg (JObject members')))
          end
      | JNull => throw (TypeError "Cannot read property 'version' of null")
      | JArray _ => stuck
      | _ => throw (TypeError "Cannot create property 'version'")
      end
  end.

(** [workspaces.forEach(...)] over the indices of the cached list. *)
Fixpoint forEach_index (body : nat -> M unit) (i count : nat) : M unit :=
  match count with
  | O => ret tt
  | S count' => body i ;;; forEach_index body (S i) count'
  end.

(** [bump(version)], lines 148-190. *)
Definition bump (version : string) : M unit :=
  match bump_distTag (options_distTag self) version with
  | Throw e => throw e
  | Ok distTag =>
      modify (set_context_distTag distTag) ;;;
      if isDryRun self
      then log_exec ("Bumping versions in " ++ packageNames_text)
      else forEach_index (bump_workspace version) 0 (List.length (workspaces self))
  end.

(** The text of a tag inside a template literal. *)
Definition tag_text (tag : option (option string)) : string :=
  match tag with
  | None => "undefined"
  | Some None => "null"
  | Some (Some t) => t
  end.

(** [value ? ` --flag ${value}` : ''] *)
Definition option_arg (flag : string) (o : option string) : string :=
  match o with
  | Some text => if JsString.isEmpty text then EmptyString else flag ++ text
  | None => EmptyString
  end.

Definition mark_released (i : nat) : M unit :=
  st <- get ;;
  match nth_error (wstates st) i with
  | None => stuck
  | Some ws => modify (set_wstate i (mkWorkspaceState true (pkgInfo ws)))
  end.

(** [publish({ tag, workspaceInfo, otp, access })], lines 291-341.  The fuel
    bounds the number of attempts. *)
Fixpoint publish (fuel : nat) (tag : option (option string)) (i : nat)
  (workspaceInfo : workspaceInfo) (access : option string) {struct fuel} : M unit :=
  match fuel with
  | O => stuck
  | S fuel' =>
      match name workspaceInfo with
      | Some (JString workspace_name) =>
          let isScoped := JsString.startsWith workspace_name "@" in
          st0 <- get ;;
          let otpArg := option_arg " --otp " (otp st0) in
          let accessArg := option_arg " --access " access in
          let dryRunArg := if isDryRun self then " --dry-run" else EmptyString in
          if isPrivate workspaceInfo
          then warn (workspace_name ++ ": Skip publish (package is private)")
          else
            fun st =>
              match exec ("npm publish . --tag " ++ tag_text tag ++ accessArg ++ otpArg ++ dryRunArg) st with
              | (Returns _, st') => mark_released i st'
              | (Stuck, st') => (Stuck, st')
              | (Throws (ExecError err as e), st') =>
                  if JsString.includes err "one-time pass" then
                    ((match otp st' with
                      | Some _ => warn "The provided OTP is incorrect or has expired."
                      | None => ret tt
                      end) ;;;
                     newOtp <- prompt_otp ;;
                     modify (set_otp (Some newOtp)) ;;;
                     publish fuel' tag i workspaceInfo access) st'
                  else if isScoped && JsString.includes err "private packages" then
                    (publishAsPublic <- prompt_confirm ;;
                     if publishAsPublic
                     then publish fuel' tag i workspaceInfo (Some "public")
                     else warn (workspace_name ++ " was not published.") ;;; throw e) st'
                  else (Throws e, st')
              | (Throws e, st') => (Throws e, st')
              end
      | _ => throw (TypeError "workspaceInfo.name.startsWith is not a function")
      end
  end.

(** [eachWorkspace(action)], lines 343-354; [i] is the index of the first
    workspace of [todo] in the cached list. *)
Fixpoint eachWorkspace_from (action : nat -> workspaceInfo -> M unit) (i : nat)
  (todo : list workspaceInfo) : M unit :=
  match todo with
  | [] => ret tt
  | workspaceInfo :: rest =>
      try_finally (chdir (root workspaceInfo) ;;; action i workspaceInfo)
                  (chdir (context_root self)) ;;;
      eachWorkspace_from action (S i) rest
  end.

Definition eachWorkspace (action : nat -> workspaceInfo -> M unit) : M unit :=
  eachWorkspace_from action 0 (workspaces self).

(** [release()], lines 192-210: the step runs its task when the user
    confirms the prompt [publish]. *)
Definition release (fuel : nat) : M unit :=
  if negb (options_publish self) then ret tt
  else
    modify (set_otp (options_otp self)) ;;;
    st <- get ;;
    let tag := context_distTag st in
    confirmed <- prompt_confirm ;;
    if confirmed
    then eachWorkspace (fun i workspaceInfo => publish fuel tag i workspaceInfo None)
    else ret tt.

End Plugin.

(** *** Discovery of the workspaces *)

(** [pkgInfo.pkg.name]: a property of [null] cannot be read. *)
Definition property (obj : json) (key : string) : outcome value :=
  match obj with
  | JNull => Throw (TypeError "Cannot read property of null")
  | JObject members => Ok (lookup key members)
  | _ => Ok undefined
  end.

Section Discovery.

(** [path.join] and [path.dirname] of Node. *)
Variable path_join : string -> string -> string.
Variable path_dirname : string -> string.

(** The callback of [packageJSONFiles.map], lines 368-382, on one path that
    [walkSync] returned; [None] when reading or parsing the file throws, or
    when the manifest is [null]. *)
Definition discover_one (root_dir : string) (disk : list (string * string)) (file : string)
  : option (workspaceInfo * workspaceState) :=
  let absolutePath := path_join root_dir file in
  match read_file absolutePath disk with
  | None => None
  | Some contents =>
      match JSONFile_of_contents absolutePath contents with
      | None => None
      | Some pkgInfo =>
          let relativeRoot := path_dirname file in
          match property (pkg pkgInfo) "name", property (pkg pkgInfo) "private" with
          | Ok name, Ok private =>
              Some ({| root := path_join root_dir relativeRoot;
                       relativeRoot := relativeRoot;
                       name := name;
                       isPrivate := truthy_value private |},
                    {| isReleased := false; pkgInfo := pkgInfo |})
          | _, _ => None
          end
      end
  end.

(** [getWorkspaces()] on its first call, lines 361-384, given the paths
    [walkSync] returned. *)
Fixpoint discover (root_dir : string) (disk : list (string * string)) (files : list string)
  : option (list (workspaceInfo * workspaceState)) :=
  match files with
  | [] => Some []
  | file :: rest =>
      match discover_one root_dir disk file, discover root_dir disk rest with
      | Some w, Some ws => Some (w :: ws)
      | _, _ => None
      end
  end.

End Discovery.

(** ** The checks of the registry, lines 246-289 *)











(** ** The configured globs *)



(** ** Predicates the statements use *)

(** The text holds no dollar sign. *)
Definition dollar_free (s : string) : bool :=
  JsString.all (fun c => negb (c =? "$")%char) s.

(** JSON text is written below with an apostrophe for each double quote. *)
Fixpoint qq (s : string) : string :=
  match s with
  | EmptyString => EmptyString
  | String c s' => String (if (c =? "'")%char then Json.dquote else c) (qq s')
  end.

Definition nl : string := DetectNewline.LF.

(** An action that checks, when it is called, that the working directory is
    the root of its workspace, and is stuck otherwise. *)
Definition at_root (action : nat -> workspaceInfo -> M unit) : nat -> workspaceInfo -> M unit :=
  fun i workspaceInfo st =>
    if (cwd st =? root workspaceInfo)%string then action i workspaceInfo st else (Stuck, st).

Definition is_stuck {A : Type} (r : result A) : bool :=
  match r with Stuck => true | _ => false end.

(** The manifest a workspace holds in memory. *)
Definition manifest_of (ws : workspaceState) : json := pkg (pkgInfo ws).

(** The warning of [bump] for a workspace that is at the target version. *)
Definition already_at (version : string) : log_entry :=
  Warn ("Did not update version in package.json, etc. (already at " ++ version ++ ").").

(** The file names of the manifests of the workspaces. *)
Definition manifest_files (st : state) : list string :=
  map (fun ws => filename (pkgInfo ws)) (wstates st).

(** The manifest file [f] with another value tree. *)
Definition with_pkg (f : JSONFile) (p : json) : JSONFile :=
  mkJSONFile (filename f) p (lineEndings f) (indent f) (trailingWhitespace f).

(** The manifest is at the version [version]. *)
Definition version_is (version : string) (members : list (string * json)) : bool :=
  match lookup "version" members with
  | Some (JString originalVersion) => (originalVersion =? version)%string
  | _ => false
  end.

(** A dependency map of a manifest: missing, or an object whose values are
    strings. *)
Definition string_valued (deps : value) : bool :=
  match deps with
  | None => true
  | Some (JObject members) =>
      forallb (fun kv : string * json =>
                 match snd kv with JString _ => true | _ => false end) members
  | Some _ => false
  end.

(** A manifest as npm and yarn accept it: an object whose four dependency
    maps are missing or map names to strings. *)
Definition plain_manifest (p : json) : bool :=
  match p with
  | JObject members => forallb (fun field => string_valued (lookup field members)) DEPENDENCY_FIELDS
  | _ => false
  end.

(** [k] copies of the text [s]. *)
Fixpoint copies (k : nat) (s : string) : string :=
  match k with
  | O => EmptyString
  | S k' => s ++ copies k' s
  end.

(** The text of a manifest in the layout of [JSON.stringify] with an indent of
    [n] spaces, the line ending [le], and [k] line endings after it. *)
Definition canonical (v : json) (n : nat) (le : string) (k : nat) : string :=
  replace_newlines (Some le) (Json.stringify v n) ++ copies k le.

(** [write()] after the constructor, as a function of the text of the file:
    the text written, when the constructor does not throw. *)
Definition load_and_write (contents : string) : option string :=
  option_map JSONFile_contents (JSONFile_of_contents "package.json" contents).

(** *** The layout of [JSON.stringify] with any line ending *)

(** [Json.wrap] and [Json.serialize] with the text [newline] where they put a
    line feed. *)
Definition wrap_with (newline opening closing gap stepback indent : string)
  (partial : list string) : string :=
  match partial with
  | [] => opening ++ closing
  | _ =>
      if JsString.isEmpty gap then opening ++ JsString.join "," partial ++ closing
      else
        opening ++ newline ++ indent ++ JsString.join ("," ++ newline ++ indent) partial
        ++ newline ++ stepback ++ closing
  end.

Fixpoint layout (newline gap stepback : string) (v : json) {struct v} : string :=
  match v with
  | JNull => "null"
  | JBool true => "true"
  | JBool false => "false"
  | JNumber z => Json.Z_to_string z
  | JString s => Json.QuoteJSONString s
  | JArray items =>
      let indent := stepback ++ gap in
      wrap_with newline "[" "]" gap stepback indent (map (layout newline gap indent) items)
  | JObject members =>
      let indent := stepback ++ gap in
      wrap_with newline "{" "}" gap stepback indent
        (map (fun kv : string * json =>
                Json.QuoteJSONString (fst kv) ++ ":"
                ++ (if JsString.isEmpty gap then EmptyString else " ")
                ++ layout newline gap indent (snd kv)) members)
  end.

(** A value a JavaScript program can hold: a number is a safe integer, and
    an object lists each key once, in property order (no key is ordered
    before an earlier key). *)
Fixpoint keys_in_order (seen : list string) (keys : list string) : bool :=
  match keys with
  | [] => true
  | k :: rest =>
      negb (existsb (String.eqb k) seen)
      && forallb (fun k' => negb (Json.key_before k k')) seen
      && keys_in_order (seen ++ [k]) rest
  end.

Fixpoint well_formed (v : json) : bool :=
  match v with
  | JNumber z => (Z.abs z <=? Z.of_N Semver.MAX_SAFE_INTEGER)%Z
  | JArray items => forallb well_formed items
  | JObject members =>
      keys_in_order [] (map fst members)
      && forallb (fun kv : string * json => well_formed (snd kv)) members
  | _ => true
  end.

(** The text [replace_newlines] puts for a line feed. *)
Definition replacement_text (le : option string) : string :=
  match le with Some t => t | None => "undefined" end.

(** The text holds no line feed. *)
Definition no_newline (s : string) : bool :=
  JsString.all (fun c => negb (c =? "010")%char) s.

(** The text holds JSON white space only. *)
Definition blank (s : string) : bool := JsString.all Json.isJsonSpace s.

(** What may follow a number: not a digit, a dot or an exponent mark. *)
Definition delimited (rest : string) : bool :=
  match rest with
  | EmptyString => true
  | String c _ =>
      negb (JsString.isDigit c || (c =? ".")%char || (c =? "e")%char || (c =? "E")%char)
  end.

(** The characters a JSON value starts with. *)
Definition value_start (c : ascii) : bool :=
  (c =? "{")%char || (c =? "[")%char || (c =? Json.dquote)%char || (c =? "-")%char
  || JsString.isDigit c || (c =? "n")%char || (c =? "t")%char || (c =? "f")%char.

Definition starts_with_value (s : string) : bool :=
  match s with
  | String c _ => value_start c
  | EmptyString => false
  end.

(** The fuel [Json.parse_value] needs for the text of a value. *)
Fixpoint need (v : json) : nat :=
  match v with
  | JArray items => S (fold_right (fun x acc => S (Nat.max (need x) acc)) 0 items)
  | JObject members =>
      S (fold_right (fun (kv : string * json) acc => S (Nat.max (need (snd kv)) acc)) 0 members)
  | _ => 1
  end.

(** [Json.parse_value] reads the value [v] back from its layout, whatever
    blank text comes before it and whatever delimited text follows it. *)
Definition parses (newline gap : string) (v : json) : Prop :=
  forall fuel stepback lead rest,
    need v <= fuel ->
    blank stepback = true -> blank lead = true -> delimited rest = true ->
    Json.parse_value fuel (lead ++ layout newline gap stepback v ++ rest) = Some (v, rest).

(** *** [detect-indent], one character at a time *)

(** Where the scan is in the current line: at its start, inside its leading
    run of [k] spaces or tabs, or after the first other character. *)
Inductive position : Type :=
| LineStart
| InIndent (t : DetectIndent.indent_type) (k : nat)
| InLine.

Definition indent_char (t : DetectIndent.indent_type) : ascii :=
  match t with
  | DetectIndent.SPACE => " "%char
  | DetectIndent.TAB => "009"%char
  end.

(** The variables of the loop once the indentation of the current line is
    known. *)
Definition enter (ignore : bool) (st : DetectIndent.scan) (pos : position) : DetectIndent.scan :=
  match pos with
  | LineStart => DetectIndent.scan_indent ignore st None
  | InIndent t k => DetectIndent.scan_indent ignore st (Some (t, k))
  | InLine => st
  end.

(** The variables of the loop at the end of the current line. *)
Definition leave (ignore : bool) (st : DetectIndent.scan) (pos : position) : DetectIndent.scan :=
  match pos with
  | InIndent t k => DetectIndent.scan_indent ignore st (Some (t, k))
  | _ => st
  end.

Definition feed (ignore : bool) (c : ascii) (x : DetectIndent.scan * position)
  : DetectIndent.scan * position :=
  let (st, pos) := x in
  if (c =? "010")%char then (leave ignore st pos, LineStart)
  else
    match pos with
    | LineStart =>
        if (c =? " ")%char then (st, InIndent DetectIndent.SPACE 1)
        else if (c =? "009")%char then (st, InIndent DetectIndent.TAB 1)
        else (DetectIndent.scan_indent ignore st None, InLine)
    | InIndent t k =>
        if (c =? indent_char t)%char then (st, InIndent t (S k))
        else (DetectIndent.scan_indent ignore st (Some (t, k)), InLine)
    | InLine => (st, InLine)
    end.

Fixpoint stream (ignore : bool) (s : string) (x : DetectIndent.scan * position)
  : DetectIndent.scan * position :=
  match s with
  | EmptyString => x
  | String c s' => stream ignore s' (feed ignore c x)
  end.

(** The first line of a list of lines, after the text [pre]. *)
Definition glue (pre : string) (lines : list string) : list string :=
  match lines with
  | [] => [pre]
  | h :: t => (pre ++ h) :: t
  end.

(** The map of indents is empty or counts the indent of [n] spaces only. *)
Definition indents_ok (n : nat) (m : DetectIndent.indents_map) : Prop :=
  m = [] \/ exists used weight, m = [(Some (DetectIndent.SPACE, n), (S used, weight))].

(** The variables of the loop after a line indented by [a] spaces ([a] is 0
    for a line without indentation) of a text indented in steps of [n]. *)
Definition scanned (n a : nat) (st : DetectIndent.scan) : Prop :=
  indents_ok n (DetectIndent.indents st)
  /\ DetectIndent.previousSize st = a
  /\ (a <> 0 ->
      DetectIndent.previousIndentType st = Some (Some DetectIndent.SPACE)
      /\ DetectIndent.key st = Some (DetectIndent.SPACE, n)
      /\ DetectIndent.indents st <> []).

(** The scan walks through the text [p], which starts and ends inside a line
    indented by [a] spaces. *)
Definition walks (ignore : bool) (n a : nat) (p : string) : Prop :=
  forall st, scanned n a st ->
    exists st', stream ignore p (st, InLine) = (st', InLine) /\ scanned n a st'.

(** The first character of the text is not white space. *)
Definition solid (p : string) : bool :=
  match p with
  | String c _ => negb ((c =? " ")%char || (c =? "009")%char || (c =? "010")%char)
  | EmptyString => false
  end.

(** An array or an object with an element. *)
Definition has_elements (v : json) : bool :=
  match v with
  | JArray (_ :: _) | JObject (_ :: _) => true
  | _ => false
  end.

(** The number of line feeds of a text; a text without carriage return; a
    text that ends with a character that is no white space. *)
Fixpoint count_lf (s : string) : nat :=
  match s with
  | EmptyString => 0
  | String c r => (if (c =? "010")%char then 1 else 0) + count_lf r
  end.

Definition no_cr (s : string) : bool := JsString.all (fun c => negb (c =? "013")%char) s.

Definition ends_solid (s : string) : Prop :=
  exists a c, s = a ++ String c EmptyString /\ JsString.isSpace c = false.

(** The characters [JSON.stringify] writes: line feeds, and characters from
    the space on. *)
Definition printable (c : ascii) : bool := (c =? "010")%char || (32 <=? JsString.code c)%N.


(** *** What the statements about [publish] and [release] use *)

(** The command [publish] runs for a tag, an access and the one-time
    password of the moment. *)
Definition publish_command (self : plugin) (tag : option (option string))
  (access otp_value : option string) : string :=
  "npm publish . --tag " ++ tag_text tag ++ option_arg " --access " access
  ++ option_arg " --otp " otp_value
  ++ (if isDryRun self then " --dry-run" else EmptyString).

(** The name of the workspace is a string. *)
Definition named (w : workspaceInfo) : bool :=
  match name w with Some (JString _) => true | _ => false end.

(** The warning of [publish] for a private workspace. *)
Definition skip_warning (w : workspaceInfo) : log_entry :=
  Warn (name_text (name w) ++ ": Skip publish (package is private)").

Definition public_workspaces (todo : list workspaceInfo) : list workspaceInfo :=
  filter (fun w => negb (isPrivate w)) todo.

Definition private_workspaces (todo : list workspaceInfo) : list workspaceInfo :=
  filter isPrivate todo.

(** The state of a workspace after [publish] has succeeded or skipped it. *)
Definition released_after (w : workspaceInfo) (ws : workspaceState) : workspaceState :=
  mkWorkspaceState (if isPrivate w then isReleased ws else true) (pkgInfo ws).

(** The error of a failed command asks for a one-time password. *)
Definition asks_otp (err : string) : bool := JsString.includes err "one-time pass".

(** The replies of the host to [rounds] attempts that each fail for the
    one-time password: the error, then the password the user enters. *)
Definition otp_rounds (rounds : list (string * string)) : list reply :=
  flat_map (fun r : string * string => [Rejected (fst r); OtpAnswer (snd r)]) rounds.

(** The one-time password in force at each attempt, the first one included. *)
Definition otp_values (first : option string) (rounds : list (string * string))
  : list (option string) :=
  first :: map (fun r : string * string => Some (snd r)) rounds.

Definition expired_warning : log_entry :=
  Warn "The provided OTP is incorrect or has expired.".

(** One warning for each failed attempt that was made with a password. *)
Definition expired_warnings (first : option string) (rounds : list (string * string))
  : list log_entry :=
  map (fun _ => expired_warning)
      (filter (fun o : option string => match o with Some _ => true | None => false end)
              (removelast (otp_values first rounds))).

(** *** What the statements about [JSONFile] use *)

(** [write()] keeps the lines of the layout apart: the line ending of the
    file is known, or the layout has one line only. *)
Definition keeps_lines (f : JSONFile) : bool :=
  match lineEndings f with
  | Some le => blank le
  | None => Nat.eqb (indent f) 0 || negb (has_elements (pkg f))
  end.

(** *** What the statements about versions use *)

(** The text of the release version [a.b.c]. *)
Definition release_text (a b c : N) : string :=
  JsString.N_to_string a ++ "." ++ JsString.N_to_string b ++ "." ++ JsString.N_to_string c.

(** The text holds no digit; the text does not start with a digit. *)
Definition no_digit (s : string) : bool :=
  JsString.all (fun c => negb (JsString.isDigit c)) s.

Definition no_digit_ahead (s : string) : bool :=
  match s with
  | String c _ => negb (JsString.isDigit c)
  | EmptyString => true
  end.

(** An optional capture of COERCE holds digits only. *)
Definition digits_opt (o : option string) : bool :=
  match o with
  | Some d => JsString.all JsString.isDigit d
  | None => true
  end.

(** *** What the statements about [bump] use *)

(** The manifest of the workspace is at the version [version] already. *)
Definition at_version (version : string) (ws : workspaceState) : bool :=
  match manifest_of ws with
  | JObject members => version_is version members
  | _ => false
  end.

Definition at_version_count (version : string) (l : list workspaceState) : nat :=
  List.length (filter (at_version version) l).

(** The line ending of the file is known, or the file is written without
    indentation. *)
Definition line_ending_known (f : JSONFile) : bool :=
  match lineEndings f with
  | Some le => blank le
  | None => Nat.eqb (indent f) 0
  end.

(** A manifest file whose value a JavaScript program can hold, whose line
    ending is known and whose trailing white space is white space of JSON. *)
Definition sound_file (f : JSONFile) : bool :=
  well_formed (pkg f) && line_ending_known f && blank (trailingWhitespace f).

(** ** Example repositories *)

Module Example.

Definition path_join (a b : string) : string := a ++ "/" ++ b.

(** The path without its last segment. *)
Definition path_dirname (p : string) : string :=
  JsString.join "/" (removelast (JsString.split "/" p)).

Definition manifest_a : string :=
  qq "{" ++ nl ++
  qq "  'name': 'a'," ++ nl ++
  qq "  'version': '1.0.0'" ++ nl ++
  qq "}" ++ nl.

Definition manifest_b : string :=
  qq "{" ++ nl ++
  qq "  'name': 'b'," ++ nl ++
  qq "  'version': '1.0.0'," ++ nl ++
  qq "  'dependencies': {" ++ nl ++
  qq "    'a': '^1.0.0'" ++ nl ++
  qq "  }" ++ nl ++
  qq "}" ++ nl.

Definition repo_disk : list (string * string) :=
  [("/repo/packages/a/package.json", manifest_a);
   ("/repo/packages/b/package.json", manifest_b)].

(** What [walkSync] finds for the globs [packages/*]. *)
Definition found : list string := ["packages/a/package.json"; "packages/b/package.json"].

Definition discovered : list (workspaceInfo * workspaceState) :=
  match discover path_join path_dirname "/repo" repo_disk found with
  | Some ws => ws
  | None => []
  end.

Definition self : plugin :=
  {| options_distTag := None; options_otp := None; options_publish := true;
     isDryRun := false; context_root := "/repo";
     workspaces := map fst discovered |}.

Definition start : state :=
  {| cwd := "/repo"; logs := []; disk := repo_disk; executed := []; replies := [];
     otp := None; wstates := map snd discovered; context_distTag := None |}.

(** A repository with a scoped package and a plain one. *)
Definition scoped : workspaceInfo :=
  {| root := "/repo/packages/a"; relativeRoot := "packages/a";
     name := Some (JString "@scope/a"); isPrivate := false |}.

Definition plain : workspaceInfo :=
  {| root := "/repo/packages/b"; relativeRoot := "packages/b";
     name := Some (JString "b"); isPrivate := false |}.

Definition scoped_self : plugin :=
  {| options_distTag := None; options_otp := None; options_publish := true;
     isDryRun := false; context_root := "/repo";
     workspaces := [scoped; plain] |}.

Definition payment_required : string :=
  "npm ERR! code E402 npm ERR! 402 Payment Required - You must sign up for private packages".

(** The host: the user confirms the release, the registry rejects the scoped
    package, the user declines to publish it as public; the next command
    would succeed. *)
Definition scoped_start : state :=
  {| cwd := "/repo"; logs := []; disk := []; executed := [];
     replies := [ConfirmAnswer true; Rejected payment_required; ConfirmAnswer false; Resolved];
     otp := None;
     wstates := map snd discovered;
     context_distTag := Some (Some "latest") |}.

(** An action that records the working directory it is called in and throws
    on the second workspace. *)
Definition recording_action (i : nat) (w : workspaceInfo) : M unit :=
  fun st =>
    (if Nat.eqb i 1 then Throws (Error "failed") else Returns tt,
     add_log (LogInfo (cwd st)) st).

(** The manifest of [b] as a value. *)
Definition package_b : json :=
  JObject [("name", JString "b"); ("version", JString "1.0.0");
           ("dependencies", JObject [("a", JString "^1.0.0")])].

(** A manifest indented by two spaces whose array is written on one line,
    and what [write()] makes of it. *)
Definition inline_manifest : string :=
  qq "{" ++ nl ++
  qq "  'name': 'a'," ++ nl ++
  qq "  'files': ['dist']" ++ nl ++
  qq "}" ++ nl.

Definition inline_manifest_written : string :=
  qq "{" ++ nl ++
  qq "  'name': 'a'," ++ nl ++
  qq "  'files': [" ++ nl ++
  qq "    'dist'" ++ nl ++
  qq "  ]" ++ nl ++
  qq "}" ++ nl.

(** A manifest indented by one tab, and what [write()] makes of it. *)
Definition tab_manifest : string :=
  qq "{" ++ nl ++
  String "009" (qq "'name': 'a'") ++ nl ++
  qq "}" ++ nl.

Definition tab_manifest_written : string :=
  qq "{" ++ nl ++
  qq " 'name': 'a'" ++ nl ++
  qq "}" ++ nl.

End Example.

(** ** Further scenarios *)

Module Scenario.

Definition otp_required : string :=
  "npm ERR! code EOTP npm ERR! This operation requires a one-time password from your authenticator.".

(** The registry asks twice for a one-time password, then accepts. *)
Definition otp_start : state :=
  set_replies [Rejected otp_required; OtpAnswer "123456";
               Rejected otp_required; OtpAnswer "654321"; Resolved]
    Example.scoped_start.

(** The registry rejects the scoped package, the user publishes it as
    public. *)
Definition public_start : state :=
  set_replies [Rejected Example.payment_required; ConfirmAnswer true; Resolved]
    Example.scoped_start.

(** A repository with a scoped workspace, a private one and a plain one,
    about to be released with the tag [beta]. *)
Definition internal : workspaceInfo :=
  {| root := "/repo/packages/internal"; relativeRoot := "packages/internal";
     name := Some (JString "internal"); isPrivate := true |}.


Definition manifest_state (workspace_name : string) (private : bool) : workspaceState :=
  {| isReleased := false;
     pkgInfo := mkJSONFile ("/repo/packages/" ++ workspace_name ++ "/package.json")
                  (JObject [("name", JString workspace_name); ("version", JString "1.0.0");
                            ("private", JBool private)])
                  (Some nl) 2 nl |}.

Definition mixed_start : state :=
  {| cwd := "/repo"; logs := []; disk := []; executed := [];
     replies := [ConfirmAnswer true; Resolved; Resolved];
     otp := None;
     wstates := [manifest_state "@scope/a" false; manifest_state "internal" true;
                 manifest_state "b" false];
     context_distTag := Some (Some "beta") |}.

(** The same repository, released in dry-run mode. *)
Definition dry_self : plugin :=
  {| options_distTag := None; options_otp := None; options_publish := true;
     isDryRun := true; context_root := "/repo";
     workspaces := [Example.scoped; internal; Example.plain] |}.



(** A manifest on one line, indented by two spaces, without a line feed. *)
Definition one_line_manifest : string := qq "  {'name': 'a'}".

(** The manifest of [b] after a bump to [2.0.0]. *)
Definition bumped_b : JSONFile :=
  mkJSONFile "/repo/packages/b/package.json"
    (JObject [("name", JString "b"); ("version", JString "2.0.0");
              ("dependencies", JObject [("a", JString "^2.0.0")])])
    (Some DetectNewline.CRLF) 4 (DetectNewline.CRLF ++ DetectNewline.CRLF).


(** The manifest of [b] names its dependency on [a] with a number. *)
Definition numbered_start : state :=
  set_wstates
    [mkWorkspaceState false
       (mkJSONFile "/repo/packages/a/package.json"
          (JObject [("name", JString "a"); ("version", JString "1.0.0")]) (Some nl) 2 nl);
     mkWorkspaceState false
       (mkJSONFile "/repo/packages/b/package.json"
          (JObject [("name", JString "b"); ("version", JString "1.0.0");
                    ("dependencies", JObject [("a", JNumber 1)])]) (Some nl) 2 nl)]
    Example.start.



End Scenario.

(** * Properties *)

(** ** Sanity checks of the embedded libraries *)

Example parse_examples :
  option_map Semver.format (Semver.parse "1.2.3-beta.1+build.5") = Some "1.2.3-beta.1"
  /\ Semver.parse "^1.2.3" = None
  /\ Semver.parse "01.2.3" = None
  /\ option_map Semver.format (Semver.coerce "^1.2") = Some "1.2.0"
  /\ option_map Semver.format (Semver.coerce "v2") = Some "2.0.0"
  /\ option_map Semver.format (Semver.coerce "1.2.3.4") = Some "1.2.3"
  /\ Semver.coerce "workspace:*" = None
  /\ Semver.coerce "12345678901234567" = None.
Proof. vm_compute. repeat split. Qed.

(** ** String replacement *)

Lemma append_empty_r (s : string) : s ++ EmptyString = s.
Proof. induction s as [|c s IH]; simpl; [reflexivity | now rewrite IH]. Qed.

Lemma append_assoc (a b c : string) : (a ++ b) ++ c = a ++ b ++ c.
Proof. induction a as [|x a IH]; simpl; [reflexivity | now rewrite IH]. Qed.

Lemma GetSubstitution_dollar_free (matched before after repl : string) :
  dollar_free repl = true ->
  JsString.GetSubstitution matched before after repl = repl.
Proof.
  induction repl as [|c tl IH]; intros Hfree; [reflexivity|].
  simpl in Hfree. apply andb_true_iff in Hfree as [Hc Htl].
  apply negb_true_iff in Hc. simpl. rewrite Hc. now rewrite IH.
Qed.

Lemma replace_absent (s pat repl : string) :
  JsString.includes s pat = false -> JsString.replace s pat repl = s.
Proof.
  unfold JsString.includes, JsString.replace.
  destruct (JsString.split_first pat s); [discriminate | reflexivity].
Qed.

Lemma all_append (p : ascii -> bool) (a b : string) :
  JsString.all p (a ++ b) = JsString.all p a && JsString.all p b.
Proof. induction a as [|c a IH]; simpl; [reflexivity | now rewrite IH, andb_assoc]. Qed.

Lemma all_impl (p q : ascii -> bool) (s : string) :
  (forall c, p c = true -> q c = true) ->
  JsString.all p s = true -> JsString.all q s = true.
Proof.
  intros Hpq. induction s as [|c s IH]; simpl; [reflexivity|].
  intros H. apply andb_true_iff in H as [Hc Hs].
  now rewrite (Hpq c Hc), IH.
Qed.

Lemma span_parts (p : ascii -> bool) (s a b : string) :
  JsString.span p s = (a, b) -> s = a ++ b /\ JsString.all p a = true.
Proof.
  revert a b. induction s as [|c s IH]; simpl; intros a b H.
  - injection H as <- <-. now split.
  - destruct (p c) eqn:Hc.
    + destruct (JsString.span p s) as [a' b'] eqn:E. injection H as <- <-.
      destruct (IH _ _ eq_refl) as [-> Ha]. split; [reflexivity|]. simpl. now rewrite Hc.
    + injection H as <- <-. now split.
Qed.

(** ** The characters of a version *)

Lemma dollar_free_app (a b : string) :
  dollar_free (a ++ b) = dollar_free a && dollar_free b.
Proof. apply all_append. Qed.

Lemma identifiers_dollar_free (s : string) :
  JsString.all Semver.isIdCharOrDot s = true -> dollar_free s = true.
Proof.
  apply all_impl. intros c.
  destruct c as [[] [] [] [] [] [] [] []]; vm_compute; intros H;
    first [reflexivity | discriminate H].
Qed.

Lemma digits_dollar_free (s : string) :
  JsString.all JsString.isDigit s = true -> dollar_free s = true.
Proof.
  apply all_impl. intros c.
  destruct c as [[] [] [] [] [] [] [] []]; vm_compute; intros H;
    first [reflexivity | discriminate H].
Qed.

Lemma numeric_identifier_rest (s d rest : string) :
  Semver.numeric_identifier s = Some (d, rest) ->
  dollar_free rest = true -> dollar_free s = true.
Proof.
  unfold Semver.numeric_identifier.
  destruct (JsString.span JsString.isDigit s) as [d' r'] eqn:E.
  apply span_parts in E as [-> Hd]. intros H Hrest.
  assert (Hr : r' = rest).
  { destruct d' as [|c d'']; [discriminate H|].
    destruct c as [[] [] [] [] [] [] [] []]; destruct d'';
      first [discriminate H | now injection H]. }
  subst r'. now rewrite dollar_free_app, (digits_dollar_free _ Hd).
Qed.

Lemma expect_rest (c : ascii) (s r : string) :
  Semver.expect c s = Some r -> s = String c r.
Proof.
  destruct s as [|c' s]; simpl; [discriminate|].
  destruct (Ascii.eqb_spec c c') as [<- | _]; [|discriminate].
  now intros [= <-].
Qed.

Lemma optional_identifiers_rest (lead : ascii) (ok : string -> bool) (s : string) :
  (lead =? "$")%char = false ->
  dollar_free (snd (Semver.optional_identifiers lead ok s)) = true ->
  dollar_free s = true.
Proof.
  intros Hlead. unfold Semver.optional_identifiers.
  destruct s as [|c r]; [trivial|].
  destruct (Ascii.eqb_spec c lead) as [-> | _]; [|trivial].
  destruct (JsString.span Semver.isIdCharOrDot r) as [ids rest] eqn:E.
  apply span_parts in E as [-> Hids].
  destruct (forallb ok (JsString.split "." ids)); [|trivial].
  cbn [snd]. intros Hrest.
  change (dollar_free (String lead (ids ++ rest)))
    with (negb (lead =? "$")%char && dollar_free (ids ++ rest)).
  now rewrite Hlead, dollar_free_app, Hrest, (identifiers_dollar_free _ Hids).
Qed.

Lemma match_FULL_dollar_free (s : string) :
  Semver.match_FULL s <> None -> dollar_free s = true.
Proof.
  unfold Semver.match_FULL.
  set (s1 := match s with String "v"%char r => r | _ => s end).
  assert (Hs1 : dollar_free s1 = true -> dollar_free s = true).
  { subst s1. destruct s as [|c r]; [trivial|].
    destruct c as [[] [] [] [] [] [] [] []]; intros H; exact H. }
  destruct (Semver.numeric_identifier s1) as [[m1 r1]|] eqn:E1; [|congruence].
  destruct (Semver.expect "." r1) as [r1'|] eqn:D1; [|congruence].
  destruct (Semver.numeric_identifier r1') as [[m2 r2]|] eqn:E2; [|congruence].
  destruct (Semver.expect "." r2) as [r2'|] eqn:D2; [|congruence].
  destruct (Semver.numeric_identifier r2') as [[m3 r3]|] eqn:E3; [|congruence].
  destruct (Semver.optional_identifiers "-" Semver.prerelease_identifier r3)
    as [m4 r4] eqn:E4.
  destruct (Semver.optional_identifiers "+" Semver.build_identifier r4)
    as [m5 r5] eqn:E5.
  destruct r5 as [|c r5]; [|simpl; congruence]. intros _.
  apply Hs1, (numeric_identifier_rest _ _ _ E1).
  rewrite (expect_rest _ _ _ D1). apply (numeric_identifier_rest _ _ _ E2).
  rewrite (expect_rest _ _ _ D2). apply (numeric_identifier_rest _ _ _ E3).
  apply (optional_identifiers_rest "-" Semver.prerelease_identifier); [reflexivity|].
  rewrite E4. cbn [snd].
  apply (optional_identifiers_rest "+" Semver.build_identifier); [reflexivity|].
  now rewrite E5.
Qed.

(** A version [semver] accepts holds no dollar sign. *)
Lemma valid_dollar_free (v : string) :
  Semver.valid v <> None -> dollar_free v = true.
Proof.
  unfold Semver.valid, Semver.parse.
  destruct (Semver.MAX_LENGTH <? String.length v)%nat; [simpl; congruence|].
  intros H. apply match_FULL_dollar_free.
  destruct (Semver.match_FULL v); [discriminate | now simpl in H].
Qed.

(** ** C6: version parsing *)

(** C6.  [parseVersion] of the empty string has no version, is no
    pre-release and has no pre-release identifier; [2.0.0-beta.1] is a
    pre-release with identifier [beta]; [2.0.0-2] is a pre-release whose first
    component is the number 2, so its identifier is [null]. *)
Theorem parseVersion_examples :
  parseVersion EmptyString
    = Ok {| version := None; isPreRelease := false; preReleaseId := None |}
  /\ parseVersion "2.0.0-beta.1"
    = Ok {| version := Some (VersionRaw "2.0.0-beta.1");
            isPreRelease := true; preReleaseId := Some "beta" |}
  /\ parseVersion "2.0.0-2"
    = Ok {| version := Some (VersionRaw "2.0.0-2");
            isPreRelease := true; preReleaseId := None |}
  /\ option_map Semver.prerelease (Semver.parse "2.0.0-2") = Some [Semver.IdNum 2].
Proof. vm_compute. repeat split. Qed.

(** ** C5 and C10: rewriting a dependency specifier *)

Lemma rewrite_exact (s v : string) :
  Semver.parse s <> None -> buildReplacementDepencencyVersion s v = v.
Proof.
  unfold buildReplacementDepencencyVersion.
  destruct (Semver.parse s); [reflexivity | congruence].
Qed.

Lemma rewrite_not_coercible (s v : string) :
  Semver.parse s = None -> Semver.coerce s = None ->
  buildReplacementDepencencyVersion s v = v.
Proof.
  unfold buildReplacementDepencencyVersion. now intros -> ->.
Qed.

Lemma rewrite_coercible (s v : string) (c : Semver.SemVer) :
  Semver.parse s = None -> Semver.coerce s = Some c ->
  buildReplacementDepencencyVersion s v = JsString.replace s (Semver.toString c) v.
Proof.
  unfold buildReplacementDepencencyVersion. now intros -> ->.
Qed.

Lemma rewrite_around (s v pre post : string) (c : Semver.SemVer) :
  Semver.parse s = None -> Semver.coerce s = Some c ->
  JsString.split_first (Semver.toString c) s = Some (pre, post) ->
  dollar_free v = true ->
  buildReplacementDepencencyVersion s v = pre ++ v ++ post.
Proof.
  intros Hparse Hcoerce Hsplit Hv.
  rewrite (rewrite_coercible s v c Hparse Hcoerce).
  unfold JsString.replace. rewrite Hsplit.
  now rewrite GetSubstitution_dollar_free.
Qed.

(** C5.  For every new version [v]: an exact valid specifier is replaced by
    [v]; a specifier that cannot be coerced is replaced by [v]; when the
    coerced version of the specifier occurs in it, what stands before and
    after its first occurrence is kept around [v] (for a [v] without dollar
    sign, which [String.prototype.replace] would interpret; a valid version
    holds none), so the range prefix of [^1.2.3] and [~1.2.3] is kept in
    front of a valid [v].  The function is a pure function of its two
    arguments. *)
Theorem rewrite_specifier (v : string) :
  (forall s, Semver.parse s <> None -> buildReplacementDepencencyVersion s v = v)
  /\ (forall s, Semver.parse s = None -> Semver.coerce s = None ->
        buildReplacementDepencencyVersion s v = v)
  /\ buildReplacementDepencencyVersion "1.2.3" v = v
  /\ buildReplacementDepencencyVersion "workspace:*" v = v
  /\ (forall s c pre post,
        Semver.parse s = None -> Semver.coerce s = Some c ->
        JsString.split_first (Semver.toString c) s = Some (pre, post) ->
        dollar_free v = true ->
        buildReplacementDepencencyVersion s v = pre ++ v ++ post)
  /\ (Semver.valid v <> None ->
        buildReplacementDepencencyVersion "^1.2.3" v = "^" ++ v
        /\ buildReplacementDepencencyVersion "~1.2.3" v = "~" ++ v).
Proof.
  split; [intros s; apply rewrite_exact|].
  split; [intros s; apply rewrite_not_coercible|].
  split; [apply rewrite_exact; vm_compute; discriminate|].
  split; [apply rewrite_not_coercible; vm_compute; reflexivity|].
  split; [intros s c pre post; apply rewrite_around|].
  intros Hv. apply valid_dollar_free in Hv.
  assert (Hc : forall p : ascii,
             Semver.coerce (String p "1.2.3") = Semver.parse "1.2.3" ->
             Semver.parse (String p "1.2.3") = None ->
             JsString.isPrefix "1.2.3" (String p "1.2.3") = false ->
             buildReplacementDepencencyVersion (String p "1.2.3") v = String p v).
  { intros p Hcoerce Hparse Hprefix.
    rewrite (rewrite_around (String p "1.2.3") v (String p EmptyString) EmptyString
               (Semver.mkSemVer "1.2.3" 1 2 3 [] [])); trivial.
    - cbn [append]. now rewrite append_empty_r.
    - change (Semver.toString (Semver.mkSemVer "1.2.3" 1 2 3 [] [])) with "1.2.3".
      cbn [JsString.split_first]. rewrite Hprefix. reflexivity. }
  split; apply Hc; reflexivity.
Qed.

(** The examples of the specification, from [rewrite_specifier] at the
    version [2.0.0]. *)
Lemma rewrite_specifier_witness :
  buildReplacementDepencencyVersion "1.2.3" "2.0.0" = "2.0.0"
  /\ buildReplacementDepencencyVersion "^1.2.3" "2.0.0" = "^2.0.0"
  /\ buildReplacementDepencencyVersion "workspace:*" "2.0.0" = "2.0.0"
  /\ buildReplacementDepencencyVersion ">=1.2.3 <2" "2.0.0" = ">=2.0.0 <2".
Proof.
  destruct (rewrite_specifier "2.0.0") as (_ & _ & Hexact & Hworkspace & Haround & Hrange).
  split; [exact Hexact|].
  split; [apply Hrange; vm_compute; discriminate|].
  split; [exact Hworkspace|].
  exact (Haround ">=1.2.3 <2" (Semver.mkSemVer "1.2.3" 1 2 3 [] []) ">=" " <2"
           eq_refl eq_refl eq_refl eq_refl).
Defined.

(** C10.  When the specifier is not an exact version, can be coerced, and the
    coerced version does not occur in it, the replacement finds nothing: the
    specifier is returned as it is, whatever the new version. *)
Theorem rewrite_coerced_absent (s v : string) (c : Semver.SemVer) :
  Semver.parse s = None ->
  Semver.coerce s = Some c ->
  JsString.includes s (Semver.toString c) = false ->
  buildReplacementDepencencyVersion s v = s.
Proof.
  intros Hparse Hcoerce Habsent.
  rewrite (rewrite_coercible s v c Hparse Hcoerce).
  now apply replace_absent.
Qed.

(** The example of C10: [^1.2] coerces to [1.2.0], which does not occur in
    it; the result is [^1.2] and the new version [2.0.0] is not in it. *)
Lemma rewrite_coerced_absent_witness :
  option_map Semver.toString (Semver.coerce "^1.2") = Some "1.2.0"
  /\ buildReplacementDepencencyVersion "^1.2" "2.0.0" = "^1.2"
  /\ JsString.includes (buildReplacementDepencencyVersion "^1.2" "2.0.0") "2.0.0" = false.
Proof.
  assert (Hc : Semver.coerce "^1.2" =
               Some (Semver.mkSemVer "1.2.0" 1 2 0 [] [])) by (vm_compute; reflexivity).
  pose proof (rewrite_coerced_absent "^1.2" "2.0.0" _ eq_refl Hc eq_refl) as H.
  split; [rewrite Hc; reflexivity|].
  split; [exact H|].
  rewrite H. reflexivity.
Defined.

(** ** Sanity checks of the JSON model *)

Example json_parse_examples :
  Json.parse (qq "{'name': 'a', 'version': '1.0.0', 'private': true, 'n': [1, -2, null]}")
  = Some (JObject [("name", JString "a"); ("version", JString "1.0.0");
                   ("private", JBool true);
                   ("n", JArray [JNumber 1; JNumber (-2); JNull])])
  /\ Json.parse (qq "{'b': 1, '1': 2, 'b': 3, '0': 4}")
     = Some (JObject [("0", JNumber 4); ("1", JNumber 2); ("b", JNumber 3)])
  /\ Json.parse (qq "[1,]") = None
  /\ Json.parse (qq "'aA\n'") = Some (JString (String "a" (String "A" nl)))
  /\ Json.stringify (JObject [("a", JArray [JNumber 1; JObject []]); ("b", JString (String Json.dquote nl))]) 2
     = qq "{" ++ nl ++ qq "  'a': [" ++ nl ++ "    1," ++ nl ++ "    {}" ++ nl ++ "  ]," ++ nl
       ++ qq "  'b': '\" ++ qq "'\n'" ++ nl ++ "}"
  /\ Json.stringify (JObject [("a", JArray [JNumber 1; JObject []])]) 0 = qq "{'a':[1,{}]}".
Proof. vm_compute. repeat split. Qed.

Example detect_examples :
  DetectIndent.detectIndent (Json.stringify (JObject [("a", JArray [JNumber 1])]) 4)
  = {| DetectIndent.amount := 4; DetectIndent.type := Some DetectIndent.SPACE |}
  /\ DetectIndent.detectIndent ("{" ++ nl ++ String "009" "1" ++ nl ++ "}")
     = {| DetectIndent.amount := 1; DetectIndent.type := Some DetectIndent.TAB |}
  /\ DetectNewline.detectNewline "{}" = None
  /\ DetectNewline.detectNewline ("{" ++ DetectNewline.CRLF ++ "}" ++ nl ++ DetectNewline.CRLF)
     = Some DetectNewline.CRLF
  /\ DETECT_TRAILING_WHITESPACE ("{ }" ++ nl ++ " " ++ nl) = Some (nl ++ " " ++ nl).
Proof. vm_compute. repeat split. Qed.

(** ** C7: the configured workspaces *)

(** C7, as the specification states it, fails for an object without a
    [packages] property: [resolveWorkspaces] does not throw, it returns
    [undefined]. *)
Lemma resolveWorkspaces_object_without_packages :
  lookup "packages" [("nohoist", JArray [])] = undefined
  /\ resolveWorkspaces (Some (JObject [("nohoist", JArray [])])) = Ok undefined
  /\ resolveWorkspaces (Some (JObject [])) = Ok undefined.
Proof. repeat split. Qed.

(** C7, amended.  An array is returned as it is; of any other object the
    property [packages] is returned, whatever it holds and also when it is
    missing (the result is then [undefined]); the error is thrown exactly for
    the values that are no objects: [undefined], [null], booleans, numbers and
    strings. *)
Theorem resolveWorkspaces_shapes (workspaces : value) :
  match workspaces with
  | Some (JArray items) => resolveWorkspaces workspaces = Ok (Some (JArray items))
  | Some (JObject members) => resolveWorkspaces workspaces = Ok (lookup "packages" members)
  | _ => resolveWorkspaces workspaces = Throw workspaces_error
  end
  /\ (forall globs members,
        workspaces = Some (JObject members) ->
        lookup "packages" members = Some (JArray globs) ->
        resolveWorkspaces workspaces = Ok (Some (JArray globs))).
Proof.
  split.
  - destruct workspaces as [[| | | | |]|]; reflexivity.
  - intros globs members -> Hpackages. simpl. now rewrite Hpackages.
Qed.

Lemma resolveWorkspaces_shapes_witness :
  resolveWorkspaces (Some (JObject [("packages", JArray [JString "packages/*"])]))
  = Ok (Some (JArray [JString "packages/*"])).
Proof.
  exact (proj2 (resolveWorkspaces_shapes _) [JString "packages/*"]
                [("packages", JArray [JString "packages/*"])] eq_refl eq_refl).
Defined.

(** ** C1: the distribution tag *)

Lemma bump_distTag_explicit (distTag : option string) (version : string) :
  truthy distTag = true -> bump_distTag distTag version = Ok distTag.
Proof. unfold bump_distTag. now intros ->. Qed.

Lemma bump_distTag_resolved (distTag : option string) (version : string) (p : ParsedVersion) :
  truthy distTag = false ->
  parseVersion version = Ok p ->
  bump_distTag distTag version
  = Ok (if isPreRelease p then preReleaseId p else Some DEFAULT_TAG).
Proof. unfold bump_distTag. now intros -> ->. Qed.

Example bump_distTag_examples :
  bump_distTag None "1.0.0-beta.1" = Ok (Some "beta")
  /\ bump_distTag None "1.0.0" = Ok (Some "latest")
  /\ bump_distTag (Some "next") "1.0.0" = Ok (Some "next").
Proof. vm_compute. repeat split. Qed.

(** C1 at the version [1.0.0-2]: it is a pre-release whose first component is
    a number, no identifier is extracted, and [bump] resolves the tag to
    [null], not to [latest]. *)
Theorem bump_distTag_numeric_prerelease :
  parseVersion "1.0.0-2"
  = Ok {| version := Some (VersionRaw "1.0.0-2"); isPreRelease := true; preReleaseId := None |}
  /\ bump_distTag None "1.0.0-2" = Ok None
  /\ bump_distTag None "1.0.0-2" <> Ok (Some DEFAULT_TAG).
Proof. vm_compute. repeat split. discriminate. Qed.

(** ** C9: the working directory around each action *)

Section EachWorkspace.

Variable self : plugin.
Variable action : nat -> workspaceInfo -> M unit.

Lemma try_finally_chdir {A : Type} (body : M A) (dir : string) (st : state) :
  try_finally body (chdir dir) st
  = match body st with
    | (Stuck, st') => (Stuck, st')
    | (r, st') => (r, set_cwd dir st')
    end.
Proof.
  unfold try_finally, chdir, modify.
  destruct (body st) as [[a|e|] st']; reflexivity.
Qed.

(** One turn of the loop: the action runs in the state whose working
    directory is the root of the workspace; whether it returns or throws, the
    working directory is the run root afterwards; a thrown exception leaves
    the loop then. *)
Lemma eachWorkspace_from_step (i : nat) (w : workspaceInfo) (rest : list workspaceInfo)
  (st : state) :
  eachWorkspace_from self action i (w :: rest) st
  = match action i w (set_cwd (root w) st) with
    | (Returns _, st') =>
        eachWorkspace_from self action (S i) rest (set_cwd (context_root self) st')
    | (Throws e, st') => (Throws e, set_cwd (context_root self) st')
    | (Stuck, st') => (Stuck, st')
    end.
Proof.
  simpl. unfold bind at 1. rewrite try_finally_chdir.
  unfold bind, chdir, modify.
  destruct (action i w (set_cwd (root w) st)) as [[[]|e|] st']; reflexivity.
Qed.

Lemma eachWorkspace_from_at_root (todo : list workspaceInfo) :
  forall (i : nat) (st : state),
    eachWorkspace_from self (at_root action) i todo st
    = eachWorkspace_from self action i todo st.
Proof.
  induction todo as [|w rest IH]; intros i st; [reflexivity|].
  simpl. unfold bind at 1 3. rewrite !try_finally_chdir.
  unfold bind, chdir, modify, at_root. simpl. rewrite String.eqb_refl.
  destruct (action i w (set_cwd (root w) st)) as [[[]|e|] st']; try reflexivity.
  apply IH.
Qed.

Lemma eachWorkspace_from_restores (todo : list workspaceInfo) :
  forall (i : nat) (st st' : state) (r : result unit),
    eachWorkspace_from self action i todo st = (r, st') ->
    is_stuck r = false ->
    todo <> [] ->
    cwd st' = context_root self.
Proof.
  induction todo as [|w rest IH]; intros i st st' r Hrun Hr Htodo; [congruence|].
  rewrite eachWorkspace_from_step in Hrun.
  destruct (action i w (set_cwd (root w) st)) as [[[]|e|] st1].
  - destruct rest as [|w' rest'].
    + simpl in Hrun. injection Hrun as _ <-. reflexivity.
    + eapply IH; [exact Hrun | exact Hr | discriminate].
  - injection Hrun as _ <-. reflexivity.
  - injection Hrun as <- _. discriminate.
Qed.

(** C9.  For every action and every state:
    - adding to the action the check that the working directory is the root
      of its workspace changes nothing: the check never fails;
    - when the loop has run over at least one workspace, the working
      directory is the run root, whether the loop returned or threw;
    - when the action throws on a workspace, the loop throws the same
      exception, from the state the action left, with the working directory
      set back to the run root, and without a call for the workspaces
      after it. *)
Theorem eachWorkspace_working_directory (st : state) :
  eachWorkspace self (at_root action) st = eachWorkspace self action st
  /\ (forall r st', eachWorkspace self action st = (r, st') ->
        is_stuck r = false -> workspaces self <> [] ->
        cwd st' = context_root self)
  /\ (forall i w rest st0 e st1,
        action i w (set_cwd (root w) st0) = (Throws e, st1) ->
        eachWorkspace_from self action i (w :: rest) st0
        = (Throws e, set_cwd (context_root self) st1)).
Proof.
  split; [apply eachWorkspace_from_at_root|].
  split.
  - intros r st'. apply eachWorkspace_from_restores.
  - intros i w rest st0 e st1 Hthrow.
    rewrite eachWorkspace_from_step, Hthrow. reflexivity.
Qed.

End EachWorkspace.

(** C9 on the example repository: the action is called in the root of each
    workspace; it throws on the second one; the loop throws the same
    exception and the working directory is the run root again. *)
Lemma eachWorkspace_working_directory_witness :
  eachWorkspace Example.self Example.recording_action Example.start
  = (Throws (Error "failed"),
     add_log (LogInfo "/repo/packages/b") (add_log (LogInfo "/repo/packages/a") Example.start))
  /\ cwd (snd (eachWorkspace Example.self Example.recording_action Example.start)) = "/repo".
Proof.
  pose proof (eachWorkspace_working_directory Example.self Example.recording_action
                Example.start) as (_ & Hrestore & _).
  assert (Hrun : eachWorkspace Example.self Example.recording_action Example.start
                 = (Throws (Error "failed"),
                    add_log (LogInfo "/repo/packages/b")
                      (add_log (LogInfo "/repo/packages/a") Example.start)))
    by (vm_compute; reflexivity).
  split; [exact Hrun|].
  apply (Hrestore (fst (eachWorkspace Example.self Example.recording_action Example.start))).
  - apply surjective_pairing.
  - rewrite Hrun. reflexivity.
  - vm_compute. discriminate.
Defined.

(** ** C2: a scoped package that the user declines to publish as public *)


Section Publish.

Variable self : plugin.


End Publish.


(** ** C4: the end-to-end scenario *)

(** C4.  The repository holds the workspaces [a] and [b], both at version
    [1.0.0], and [b] depends on [a] at [^1.0.0].  After [bump] to [2.0.0],
    not in dry-run, both manifests are at [2.0.0], [b] depends on [a] at
    [^2.0.0], and each file on disk holds the text of its new manifest. *)
Theorem bump_end_to_end :
  map fst Example.discovered
  = [ {| root := "/repo/packages/a"; relativeRoot := "packages/a";
         name := Some (JString "a"); isPrivate := false |};
      {| root := "/repo/packages/b"; relativeRoot := "packages/b";
         name := Some (JString "b"); isPrivate := false |} ]
  /\ map manifest_of (wstates Example.start)
     = [ JObject [("name", JString "a"); ("version", JString "1.0.0")];
         JObject [("name", JString "b"); ("version", JString "1.0.0");
                  ("dependencies", JObject [("a", JString "^1.0.0")])] ]
  /\ isDryRun Example.self = false
  /\ fst (bump Example.self "2.0.0" Example.start) = Returns tt
  /\ map manifest_of (wstates (snd (bump Example.self "2.0.0" Example.start)))
     = [ JObject [("name", JString "a"); ("version", JString "2.0.0")];
         JObject [("name", JString "b"); ("version", JString "2.0.0");
                  ("dependencies", JObject [("a", JString "^2.0.0")])] ]
  /\ map (fun file => option_map Json.parse (read_file (fst file) (disk (snd (bump Example.self "2.0.0" Example.start)))))
         Example.repo_disk
     = [ Some (Some (JObject [("name", JString "a"); ("version", JString "2.0.0")]));
         Some (Some (JObject [("name", JString "b"); ("version", JString "2.0.0");
                              ("dependencies", JObject [("a", JString "^2.0.0")])])) ]
  /\ disk (snd (bump Example.self "2.0.0" Example.start))
     = [ ("/repo/packages/a/package.json",
          qq "{" ++ nl ++ qq "  'name': 'a'," ++ nl ++ qq "  'version': '2.0.0'" ++ nl ++ "}" ++ nl);
         ("/repo/packages/b/package.json",
          qq "{" ++ nl ++ qq "  'name': 'b'," ++ nl ++ qq "  'version': '2.0.0'," ++ nl
          ++ qq "  'dependencies': {" ++ nl ++ qq "    'a': '^2.0.0'" ++ nl ++ "  }" ++ nl
          ++ "}" ++ nl) ]
  /\ logs (snd (bump Example.self "2.0.0" Example.start)) = [].
Proof. vm_compute. repeat split. Qed.

(** ** Lists, files and properties *)

Lemma update_nth_same {A : Type} (l : list A) :
  forall (i : nat) (w x : A),
    nth_error l i = Some x ->
    nth_error (firstn i l ++ w :: skipn (S i) l)%list i = Some w.
Proof.
  induction l as [|a l IH]; intros [|i] w x H; simpl in *; try discriminate.
  - reflexivity.
  - eapply IH; eassumption.
Qed.

Lemma update_nth_other {A : Type} (l : list A) :
  forall (i k : nat) (w x : A),
    nth_error l i = Some x -> k <> i ->
    nth_error (firstn i l ++ w :: skipn (S i) l)%list k = nth_error l k.
Proof.
  induction l as [|a l IH]; intros [|i] [|k] w x H Hne; simpl in *;
    try discriminate; try congruence.
  eapply IH; [eassumption | congruence].
Qed.

Lemma update_nth_map {A B : Type} (f : A -> B) (l : list A) :
  forall (i : nat) (w x : A),
    nth_error l i = Some x -> f w = f x ->
    map f (firstn i l ++ w :: skipn (S i) l)%list = map f l.
Proof.
  induction l as [|a l IH]; intros [|i] w x H Hf; simpl in *; try discriminate.
  - injection H as ->. now rewrite Hf.
  - f_equal. eapply IH; eassumption.
Qed.

Lemma read_write_same (f c : string) (d : list (string * string)) :
  read_file f (write_file f c d) = Some c.
Proof.
  induction d as [|[f' c'] d IH]; simpl.
  - now rewrite String.eqb_refl.
  - destruct (f' =? f)%string eqn:E; simpl; rewrite E; [reflexivity | exact IH].
Qed.

Lemma read_write_other (f f' c : string) (d : list (string * string)) :
  f' <> f -> read_file f' (write_file f c d) = read_file f' d.
Proof.
  intros Hne. induction d as [|[g c'] d IH]; simpl.
  - destruct (f =? f')%string eqn:E; [|reflexivity].
    apply String.eqb_eq in E. congruence.
  - destruct (g =? f)%string eqn:E; simpl.
    + apply String.eqb_eq in E. subst g.
      destruct (f =? f')%string eqn:E'; [|reflexivity].
      apply String.eqb_eq in E'. congruence.
    + destruct (g =? f')%string; [reflexivity | exact IH].
Qed.

Lemma lookup_replace_member_same (k : string) (v x : json) (m : list (string * json)) :
  lookup k m = Some x -> lookup k (Json.replace_member k v m) = Some v.
Proof.
  induction m as [|[k' v'] m IH]; simpl; [discriminate|].
  destruct (k =? k')%string eqn:E; simpl; rewrite E; [reflexivity | exact IH].
Qed.

Lemma lookup_replace_member_other (k k0 : string) (v : json) (m : list (string * json)) :
  k0 <> k -> lookup k0 (Json.replace_member k v m) = lookup k0 m.
Proof.
  intros Hne. induction m as [|[k' v'] m IH]; simpl; [reflexivity|].
  destruct (k =? k')%string eqn:E; simpl.
  - apply String.eqb_eq in E. subst k'.
    destruct (k0 =? k)%string eqn:E'; [|reflexivity].
    apply String.eqb_eq in E'. congruence.
  - now rewrite IH.
Qed.

Lemma replace_member_absent (k : string) (v : json) (m : list (string * json)) :
  lookup k m = None -> Json.replace_member k v m = m.
Proof.
  induction m as [|[k' v'] m IH]; simpl; [reflexivity|].
  destruct (k =? k')%string; [discriminate|]. intros H. now rewrite IH.
Qed.

Lemma replace_member_same_value (k : string) (v : json) (m : list (string * json)) :
  lookup k m = Some v -> Json.replace_member k v m = m.
Proof.
  induction m as [|[k' v'] m IH]; simpl; [reflexivity|].
  destruct (k =? k')%string eqn:E.
  - now intros [= ->].
  - intros H. now rewrite IH.
Qed.

Lemma set_member_same_value (k : string) (v : json) (m : list (string * json)) :
  lookup k m = Some v -> Json.set_member k v m = m.
Proof.
  intros H. unfold Json.set_member. rewrite H. now apply replace_member_same_value.
Qed.

Lemma lookup_insert_member_same (k : string) (v : json) (m : list (string * json)) :
  lookup k m = None -> lookup k (Json.insert_member k v m) = Some v.
Proof.
  induction m as [|[k' v'] m IH]; simpl; intros H.
  - now rewrite String.eqb_refl.
  - destruct (k =? k')%string eqn:E; [discriminate|].
    destruct (Json.key_before k k'); simpl.
    + now rewrite String.eqb_refl.
    + rewrite E. now apply IH.
Qed.

Lemma lookup_insert_member_other (k k0 : string) (v : json) (m : list (string * json)) :
  k0 <> k -> lookup k0 (Json.insert_member k v m) = lookup k0 m.
Proof.
  intros Hne. induction m as [|[k' v'] m IH]; simpl.
  - destruct (k0 =? k)%string eqn:E; [|reflexivity].
    apply String.eqb_eq in E. congruence.
  - destruct (Json.key_before k k'); simpl.
    + destruct (k0 =? k)%string eqn:E; [|reflexivity].
      apply String.eqb_eq in E. congruence.
    + now rewrite IH.
Qed.

Lemma lookup_set_member_same (k : string) (v : json) (m : list (string * json)) :
  lookup k (Json.set_member k v m) = Some v.
Proof.
  unfold Json.set_member. destruct (lookup k m) eqn:E.
  - eapply lookup_replace_member_same; eassumption.
  - now apply lookup_insert_member_same.
Qed.

Lemma lookup_set_member_other (k k0 : string) (v : json) (m : list (string * json)) :
  k0 <> k -> lookup k0 (Json.set_member k v m) = lookup k0 m.
Proof.
  intros Hne. unfold Json.set_member. destruct (lookup k m).
  - now apply lookup_replace_member_other.
  - now apply lookup_insert_member_other.
Qed.

(** ** The loops of [_updateDependencies] *)

Lemma update_members_lookup (names : list value) (v : string) (deps : list (string * json)) :
  forall deps',
    update_members names v deps = (deps', None) ->
    forall k,
      match lookup k deps with
      | None => lookup k deps' = None
      | Some x =>
          if is_workspace_name names k
          then exists r, replacement_of x v = Ok r /\ lookup k deps' = Some r
          else lookup k deps' = Some x
      end.
Proof.
  induction deps as [|[d x] deps IH]; intros deps' H k; simpl in *.
  - injection H as <-. reflexivity.
  - destruct (is_workspace_name names d) eqn:Hd.
    + destruct (replacement_of x v) as [r|e] eqn:Hr; [|discriminate].
      destruct (update_members names v deps) as [rest' err] eqn:Hrest.
      injection H as <- ->. specialize (IH rest' eq_refl k). simpl.
      destruct (k =? d)%string eqn:E; [|exact IH].
      apply String.eqb_eq in E. subst d. rewrite Hd. now exists r.
    + destruct (update_members names v deps) as [rest' err] eqn:Hrest.
      injection H as <- ->. specialize (IH rest' eq_refl k). simpl.
      destruct (k =? d)%string eqn:E; [|exact IH].
      apply String.eqb_eq in E. subst d. now rewrite Hd.
Qed.

Lemma updateDependencies_defined (names : list value) (deps : value) (v : string)
  (d : json) (e : option js_error) :
  updateDependencies names deps v = (Some d, e) -> exists x, deps = Some x.
Proof.
  destruct deps as [x|]; [now exists x|].
  unfold updateDependencies. simpl. discriminate.
Qed.



(** ** One turn of the loop of [bump] *)

Section Bump.

Variable self : plugin.
Variable version : string.

Lemma bump_workspace_returns (i : nat) (st st' : state) :
  bump_workspace self version i st = (Returns tt, st') ->
  exists ws members members',
    nth_error (wstates st) i = Some ws
    /\ manifest_of ws = JObject members
    /\ update_fields (workspace_names self) version DEPENDENCY_FIELDS
         (Json.set_member "version" (JString version) members) = (members', None)
    /\ st' = set_disk
               (write_file (filename (pkgInfo ws))
                  (JSONFile_contents (with_pkg (pkgInfo ws) (JObject members'))) (disk st))
               (set_wstate i
                  (mkWorkspaceState (isReleased ws) (with_pkg (pkgInfo ws) (JObject members')))
                  (if version_is version members then add_log (already_at version) st else st)).
Proof.
  unfold bump_workspace, bind, get. intros H.
  destruct (nth_error (wstates st) i) as [ws|] eqn:Hws; [|discriminate].
  destruct (pkg (pkgInfo ws)) as [| | | | |members] eqn:Hpkg; try discriminate.
  exists ws, members.
  destruct (update_fields (workspace_names self) version DEPENDENCY_FIELDS
              (Json.set_member "version" (JString version) members)) as [members' [e|]] eqn:Hu.
  - exfalso. unfold version_is in *.
    destruct (lookup "version" members) as [[| | |o| |]|];
      try (destruct (o =? version)%string); simpl in H; discriminate.
  - exists members'. repeat split; try assumption.
    unfold version_is, already_at, with_pkg.
    destruct (lookup "version" members) as [[| | |o| |]|];
      try (destruct (o =? version)%string); simpl in H; injection H as <-; reflexivity.
Qed.

End Bump.

Section BumpLoop.

Variable self : plugin.
Variable version : string.

(** What one turn does to the manifests in memory, to the disk and to the
    log. *)
Lemma bump_workspace_effect (i : nat) (st st' : state) :
  bump_workspace self version i st = (Returns tt, st') ->
  exists ws members members',
    nth_error (wstates st) i = Some ws
    /\ manifest_of ws = JObject members
    /\ update_fields (workspace_names self) version DEPENDENCY_FIELDS
         (Json.set_member "version" (JString version) members) = (members', None)
    /\ wstates st'
       = (firstn i (wstates st)
          ++ mkWorkspaceState (isReleased ws) (with_pkg (pkgInfo ws) (JObject members'))
             :: skipn (S i) (wstates st))%list
    /\ disk st'
       = write_file (filename (pkgInfo ws))
           (JSONFile_contents (with_pkg (pkgInfo ws) (JObject members'))) (disk st)
    /\ logs st'
       = (logs st ++ if version_is version members then [already_at version] else [])%list.
Proof.
  intros H. destruct (bump_workspace_returns _ _ _ _ _ H)
    as (ws & members & members' & Hws & Hpkg & Hu & ->).
  exists ws, members, members'.
  split; [exact Hws|]. split; [exact Hpkg|]. split; [exact Hu|].
  destruct (version_is version members); simpl.
  - repeat split.
  - rewrite app_nil_r. repeat split.
Qed.

Lemma forEach_index_step (body : nat -> M unit) (j n : nat) (st st' : state) :
  forEach_index body j (S n) st = (Returns tt, st') ->
  exists s1, body j st = (Returns tt, s1)
             /\ forEach_index body (S j) n s1 = (Returns tt, st').
Proof.
  simpl. unfold bind. destruct (body j st) as [[[]|e|] s1]; try discriminate.
  intros H. now exists s1.
Qed.

(** The turns for the workspaces from [j] on leave the earlier workspaces,
    the entries of the log and the other files as they are. *)
Lemma forEach_bump_frame (n : nat) :
  forall (j : nat) (st st' : state),
    forEach_index (bump_workspace self version) j n st = (Returns tt, st') ->
    manifest_files st' = manifest_files st
    /\ (forall k, k < j -> nth_error (wstates st') k = nth_error (wstates st) k)
    /\ (forall e, In e (logs st) -> In e (logs st'))
    /\ (forall f, (forall k, j <= k -> nth_error (manifest_files st) k <> Some f) ->
                  read_file f (disk st') = read_file f (disk st)).
Proof.
  induction n as [|n IH]; intros j st st' H.
  - simpl in H. injection H as <-. repeat split; auto.
  - destruct (forEach_index_step _ _ _ _ _ H) as (s1 & Hstep & Hrest).
    destruct (bump_workspace_effect _ _ _ Hstep)
      as (ws & members & members' & Hws & _ & _ & Hw1 & Hd1 & Hl1).
    destruct (IH _ _ _ Hrest) as (Hfiles & Hearlier & Hlogs & Hdisk).
    assert (Hfiles1 : manifest_files s1 = manifest_files st).
    { unfold manifest_files. rewrite Hw1.
      eapply update_nth_map; [exact Hws | reflexivity]. }
    split; [congruence|].
    split.
    { intros k Hk. rewrite Hearlier by lia. rewrite Hw1.
      eapply update_nth_other; [exact Hws | lia]. }
    split.
    { intros e He. apply Hlogs. rewrite Hl1. apply in_or_app. now left. }
    intros f Hf. rewrite Hdisk.
    + rewrite Hd1. apply read_write_other.
      intros ->. apply (Hf j (le_n j)). unfold manifest_files.
      now rewrite nth_error_map, Hws.
    + intros k Hk. rewrite Hfiles1. apply Hf. lia.
Qed.

(** After the loop, the manifest of every workspace holds the new version
    and the rewritten dependencies, its file holds the text of that manifest,
    and the warning is in the log when the workspace was at the version. *)
Lemma forEach_bump_effect (n : nat) :
  forall (j : nat) (st st' : state),
    forEach_index (bump_workspace self version) j n st = (Returns tt, st') ->
    NoDup (manifest_files st) ->
    forall i ws members,
      j <= i < j + n ->
      nth_error (wstates st) i = Some ws ->
      manifest_of ws = JObject members ->
      exists members',
        update_fields (workspace_names self) version DEPENDENCY_FIELDS
          (Json.set_member "version" (JString version) members) = (members', None)
        /\ nth_error (wstates st') i
           = Some (mkWorkspaceState (isReleased ws) (with_pkg (pkgInfo ws) (JObject members')))
        /\ read_file (filename (pkgInfo ws)) (disk st')
           = Some (JSONFile_contents (with_pkg (pkgInfo ws) (JObject members')))
        /\ (version_is version members = true -> In (already_at version) (logs st')).
Proof.
  induction n as [|n IH]; intros j st st' H Hnodup i ws members Hi Hws Hpkg; [lia|].
  destruct (forEach_index_step _ _ _ _ _ H) as (s1 & Hstep & Hrest).
  destruct (bump_workspace_effect _ _ _ Hstep)
    as (wsj & membersj & membersj' & Hwsj & Hpkgj & Hu & Hw1 & Hd1 & Hl1).
  assert (Hfiles1 : manifest_files s1 = manifest_files st).
  { unfold manifest_files. rewrite Hw1.
    eapply update_nth_map; [exact Hwsj | reflexivity]. }
  destruct (Nat.eq_dec i j) as [->|Hne].
  - rewrite Hws in Hwsj. injection Hwsj as <-.
    rewrite Hpkg in Hpkgj. injection Hpkgj as <-.
    destruct (forEach_bump_frame _ _ _ _ Hrest) as (_ & Hearlier & Hlogs & Hdisk).
    exists membersj'. split; [exact Hu|].
    split.
    { rewrite Hearlier by lia. rewrite Hw1. eapply update_nth_same. exact Hws. }
    split.
    { rewrite Hdisk.
      - rewrite Hd1. apply read_write_same.
      - intros k Hk Hf. rewrite Hfiles1 in Hf.
        assert (Hj : nth_error (manifest_files st) j = Some (filename (pkgInfo ws))).
        { unfold manifest_files. now rewrite nth_error_map, Hws. }
        assert (Hlt : j < List.length (manifest_files st)).
        { apply nth_error_Some. congruence. }
        rewrite NoDup_nth_error in Hnodup.
        specialize (Hnodup j k Hlt). rewrite Hj, Hf in Hnodup.
        specialize (Hnodup eq_refl). lia. }
    intros Hat. apply Hlogs. rewrite Hl1, Hat. apply in_or_app. right. now left.
  - apply (IH (S j) s1 st' Hrest).
    + now rewrite Hfiles1.
    + lia.
    + rewrite Hw1. erewrite update_nth_other; [exact Hws | exact Hwsj | exact Hne].
    + exact Hpkg.
Qed.

End BumpLoop.

(** ** [bump] returns on plain manifests *)

Lemma update_members_strings (names : list value) (v : string) (deps : list (string * json)) :
  string_valued (Some (JObject deps)) = true ->
  exists deps', update_members names v deps = (deps', None)
                /\ string_valued (Some (JObject deps')) = true.
Proof.
  induction deps as [|[d x] deps IH]; simpl; intros H.
  - now exists [].
  - apply andb_true_iff in H as [Hx Hrest].
    destruct (IH Hrest) as (rest' & Hu & Hs). rewrite Hu.
    destruct x; try discriminate. simpl.
    destruct (is_workspace_name names d); eexists; (split; [reflexivity|]); exact Hs.
Qed.

Lemma updateDependencies_strings (names : list value) (v : string) (deps : value) :
  string_valued deps = true ->
  exists deps', updateDependencies names deps v = (deps', None)
                /\ string_valued deps' = true.
Proof.
  destruct deps as [[| | | | |members]|]; try discriminate; intros H.
  - destruct (update_members_strings names v members H) as (deps' & Hu & Hs).
    exists (Some (JObject deps')). unfold updateDependencies. simpl. now rewrite Hu.
  - now exists None.
Qed.

Lemma update_fields_strings (names : list value) (v : string) (fields : list string) :
  forall m,
    (forall f, In f fields -> string_valued (lookup f m) = true) ->
    exists m', update_fields names v fields m = (m', None).
Proof.
  induction fields as [|field rest IH]; intros m H; simpl.
  - now exists m.
  - destruct (updateDependencies_strings names v (lookup field m) (H field (or_introl eq_refl)))
      as (deps' & Hu & Hs).
    rewrite Hu. destruct deps' as [d|].
    + apply IH. intros f Hf.
      destruct (String.eqb_spec f field) as [->|Hne].
      * destruct (updateDependencies_defined _ _ _ _ _ Hu) as [x Hx].
        now rewrite (lookup_replace_member_same _ _ _ _ Hx).
      * rewrite lookup_replace_member_other by exact Hne. apply H. now right.
    + apply IH. intros f Hf. apply H. now right.
Qed.

Lemma not_version_field (f : string) : In f DEPENDENCY_FIELDS -> f <> "version".
Proof. simpl. intros [<-|[<-|[<-|[<-|[]]]]]; discriminate. Qed.

Section BumpTotal.

Variable self : plugin.
Variable version : string.

Lemma bump_workspace_plain (i : nat) (st : state) (ws : workspaceState) :
  nth_error (wstates st) i = Some ws ->
  plain_manifest (manifest_of ws) = true ->
  exists st', bump_workspace self version i st = (Returns tt, st').
Proof.
  intros Hws Hplain. unfold bump_workspace, bind, get. rewrite Hws.
  unfold manifest_of, plain_manifest in Hplain.
  destruct (pkg (pkgInfo ws)) as [| | | | |members]; try discriminate.
  rewrite forallb_forall in Hplain.
  destruct (update_fields_strings (workspace_names self) version DEPENDENCY_FIELDS
              (Json.set_member "version" (JString version) members)) as [members' Hu].
  { intros f Hf. rewrite lookup_set_member_other by now apply not_version_field.
    now apply Hplain. }
  rewrite Hu.
  destruct (lookup "version" members) as [[| | |o| |]|];
    try (destruct (o =? version)%string); simpl; eexists; reflexivity.
Qed.

Lemma forEach_bump_plain (n : nat) :
  forall (j : nat) (st : state),
    (forall k, j <= k < j + n ->
       exists ws, nth_error (wstates st) k = Some ws
                  /\ plain_manifest (manifest_of ws) = true) ->
    exists st', forEach_index (bump_workspace self version) j n st = (Returns tt, st').
Proof.
  induction n as [|n IH]; intros j st H; simpl.
  - now exists st.
  - destruct (H j) as (ws & Hws & Hplain); [lia|].
    destruct (bump_workspace_plain j st ws Hws Hplain) as [s1 Hstep].
    unfold bind. rewrite Hstep.
    apply IH. intros k Hk.
    destruct (bump_workspace_effect _ _ _ _ _ Hstep)
      as (wsj & mj & mj' & Hwsj & _ & _ & Hw1 & _).
    destruct (H k) as (wsk & Hwsk & Hplaink); [lia|].
    exists wsk. split; [|exact Hplaink].
    rewrite Hw1. erewrite update_nth_other; [exact Hwsk | exact Hwsj | lia].
Qed.

End BumpTotal.

(** ** C8: bumping to the version a workspace is at *)



(** ** Induction on JSON values *)

Section JsonInduction.

Variable P : json -> Prop.
Hypothesis Hnull : P JNull.
Hypothesis Hbool : forall b, P (JBool b).
Hypothesis Hnumber : forall z, P (JNumber z).
Hypothesis Hstring : forall s, P (JString s).
Hypothesis Harray : forall items, Forall P items -> P (JArray items).
Hypothesis Hobject :
  forall members, Forall (fun kv : string * json => P (snd kv)) members -> P (JObject members).

Fixpoint json_induction (v : json) : P v :=
  match v with
  | JNull => Hnull
  | JBool b => Hbool b
  | JNumber z => Hnumber z
  | JString s => Hstring s
  | JArray items =>
      Harray items
        ((fix all (l : list json) : Forall P l :=
            match l with
            | [] => Forall_nil P
            | x :: r => Forall_cons x (json_induction x) (all r)
            end) items)
  | JObject members =>
      Hobject members
        ((fix all (l : list (string * json)) : Forall (fun kv => P (snd kv)) l :=
            match l with
            | [] => Forall_nil _
            | kv :: r => Forall_cons kv (json_induction (snd kv)) (all r)
            end) members)
  end.

End JsonInduction.

(** ** Replacing the line feeds of a text *)

Lemma length_append (a b : string) :
  String.length (a ++ b) = String.length a + String.length b.
Proof. induction a as [|c a IH]; simpl; [reflexivity | now rewrite IH]. Qed.

Lemma split_nonempty (sep : ascii) (s : string) : JsString.split sep s <> [].
Proof.
  destruct s as [|c s]; simpl; [discriminate|].
  destruct (c =? sep)%char; [discriminate|].
  destruct (JsString.split sep s); discriminate.
Qed.

Lemma join_cons (sep p : string) (rest : list string) :
  rest <> [] -> JsString.join sep (p :: rest) = p ++ sep ++ JsString.join sep rest.
Proof. destruct rest; [congruence | reflexivity]. Qed.

Section ReplaceNewlines.

Variable le : option string.

Lemma replace_newlines_empty : replace_newlines le EmptyString = EmptyString.
Proof. reflexivity. Qed.

Lemma replace_newlines_cons (c : ascii) (s : string) :
  replace_newlines le (String c s)
  = if (c =? "010")%char then (replacement_text le) ++ replace_newlines le s
    else String c (replace_newlines le s).
Proof.
  unfold replace_newlines. fold (replacement_text le). simpl.
  destruct (c =? "010")%char.
  - rewrite join_cons by apply split_nonempty. reflexivity.
  - destruct (JsString.split "010" s) as [|h t] eqn:E.
    + now apply split_nonempty in E.
    + destruct t; reflexivity.
Qed.

Lemma replace_newlines_app (a b : string) :
  replace_newlines le (a ++ b) = replace_newlines le a ++ replace_newlines le b.
Proof.
  induction a as [|c a IH]; [reflexivity|].
  simpl. rewrite !replace_newlines_cons, IH.
  destruct (c =? "010")%char; [now rewrite append_assoc | reflexivity].
Qed.

Lemma replace_newlines_none (s : string) :
  JsString.all (fun c => negb (c =? "010")%char) s = true ->
  replace_newlines le s = s.
Proof.
  induction s as [|c s IH]; [reflexivity|].
  simpl. intros H. apply andb_true_iff in H as [Hc Hs].
  rewrite replace_newlines_cons. apply negb_true_iff in Hc. rewrite Hc.
  now rewrite IH.
Qed.

End ReplaceNewlines.

Lemma quote_char_no_newline (c : ascii) : no_newline (Json.quote_char c) = true.
Proof. destruct c as [[] [] [] [] [] [] [] []]; reflexivity. Qed.

Lemma quote_chars_no_newline (s : string) : no_newline (Json.quote_chars s) = true.
Proof.
  induction s as [|c s IH]; [reflexivity|].
  simpl. unfold no_newline in *. now rewrite all_append, quote_char_no_newline.
Qed.

Lemma QuoteJSONString_no_newline (s : string) : no_newline (Json.QuoteJSONString s) = true.
Proof.
  unfold Json.QuoteJSONString, no_newline. simpl. rewrite all_append.
  fold (no_newline (Json.quote_chars s)). now rewrite quote_chars_no_newline.
Qed.

Lemma string_of_uint_digits (d : Decimal.uint) :
  JsString.all JsString.isDigit (NilEmpty.string_of_uint d) = true.
Proof. induction d; simpl; try reflexivity; exact IHd. Qed.

Lemma isDigit_not_newline (c : ascii) :
  JsString.isDigit c = true -> negb (c =? "010")%char = true.
Proof. destruct c as [[] [] [] [] [] [] [] []]; intros H; try reflexivity; discriminate. Qed.

Lemma N_to_string_no_newline (n : N) : no_newline (JsString.N_to_string n) = true.
Proof.
  apply (all_impl JsString.isDigit); [apply isDigit_not_newline|].
  apply string_of_uint_digits.
Qed.

Lemma Z_to_string_no_newline (z : Z) : no_newline (Json.Z_to_string z) = true.
Proof.
  destruct z; simpl; [reflexivity | apply N_to_string_no_newline |].
  apply N_to_string_no_newline.
Qed.

Section LayoutOfSerialize.

Variable le : option string.
Variable gap : string.
Hypothesis gap_no_newline : no_newline gap = true.

Lemma replace_newlines_join (sep : string) (parts : list string) :
  replace_newlines le (JsString.join sep parts)
  = JsString.join (replace_newlines le sep) (map (replace_newlines le) parts).
Proof.
  induction parts as [|p rest IH]; [reflexivity|].
  destruct rest as [|q rest]; [reflexivity|].
  change (JsString.join sep (p :: q :: rest)) with (p ++ sep ++ JsString.join sep (q :: rest)).
  rewrite !replace_newlines_app, IH. reflexivity.
Qed.

Lemma replace_newlines_newline :
  replace_newlines le (String "010" EmptyString) = replacement_text le.
Proof.
  unfold replace_newlines. simpl. fold (replacement_text le). apply append_empty_r.
Qed.

Lemma replace_newlines_wrap (opening closing stepback indent : string)
  (partial : list string) :
  no_newline opening = true -> no_newline closing = true ->
  no_newline stepback = true -> no_newline indent = true ->
  replace_newlines le (Json.wrap opening closing gap stepback indent partial)
  = wrap_with (replacement_text le) opening closing gap stepback indent
      (map (replace_newlines le) partial).
Proof.
  intros Ho Hc Hs Hi. unfold Json.wrap, wrap_with.
  destruct partial as [|p rest]; simpl map.
  - rewrite replace_newlines_app, !replace_newlines_none by assumption. reflexivity.
  - destruct (JsString.isEmpty gap).
    + rewrite !replace_newlines_app, replace_newlines_join.
      rewrite !replace_newlines_none by (assumption || reflexivity). reflexivity.
    + rewrite !replace_newlines_app, replace_newlines_join, !replace_newlines_app.
      rewrite !(replace_newlines_none le opening), !(replace_newlines_none le closing),
        !(replace_newlines_none le stepback), !(replace_newlines_none le indent),
        !(replace_newlines_none le ",") by (assumption || reflexivity).
      rewrite replace_newlines_newline. reflexivity.
Qed.

Lemma replace_newlines_serialize (v : json) :
  forall stepback,
    no_newline stepback = true ->
    replace_newlines le (Json.serialize gap stepback v)
    = layout (replacement_text le) gap stepback v.
Proof.
  induction v as [| [] | z | s | items IH | members IH] using json_induction;
    intros stepback Hs; try reflexivity.
  - apply replace_newlines_none, Z_to_string_no_newline.
  - apply replace_newlines_none, QuoteJSONString_no_newline.
  - assert (Hi : no_newline (stepback ++ gap) = true)
      by (unfold no_newline in *; now rewrite all_append, Hs, gap_no_newline).
    simpl. rewrite replace_newlines_wrap by (assumption || reflexivity).
    f_equal. rewrite map_map. apply map_ext_Forall.
    eapply Forall_impl; [|exact IH]. intros x Hx. now apply Hx.
  - assert (Hi : no_newline (stepback ++ gap) = true)
      by (unfold no_newline in *; now rewrite all_append, Hs, gap_no_newline).
    cbn [Json.serialize layout]. rewrite replace_newlines_wrap by (assumption || reflexivity).
    f_equal. rewrite map_map. apply map_ext_Forall.
    eapply Forall_impl; [|exact IH]. intros [k x] Hx. cbn [fst snd] in *.
    rewrite !replace_newlines_app, Hx by assumption.
    rewrite (replace_newlines_none le (Json.QuoteJSONString k))
      by apply QuoteJSONString_no_newline.
    rewrite (replace_newlines_none le ":") by reflexivity.
    destruct (JsString.isEmpty gap); reflexivity.
Qed.

End LayoutOfSerialize.

(** ** Reading back what [JSON.stringify] writes: numbers and strings *)

Lemma skip_ws_blank (w s : string) :
  blank w = true -> Json.skip_ws (w ++ s) = Json.skip_ws s.
Proof.
  unfold blank, Json.skip_ws. induction w as [|c w IH]; [reflexivity|].
  simpl. intros H. apply andb_true_iff in H as [Hc Hw]. rewrite Hc. now apply IH.
Qed.

Lemma skip_ws_value (s : string) :
  starts_with_value s = true -> Json.skip_ws s = s.
Proof.
  destruct s as [|c s]; [reflexivity|]. unfold starts_with_value, Json.skip_ws. simpl.
  destruct c as [[] [] [] [] [] [] [] []]; intros H; try reflexivity; discriminate.
Qed.

Lemma span_digits (d rest : string) :
  JsString.all JsString.isDigit d = true ->
  match rest with String c _ => JsString.isDigit c = false | EmptyString => True end ->
  JsString.span JsString.isDigit (d ++ rest) = (d, rest).
Proof.
  induction d as [|c d IH]; simpl; intros Hd Hrest.
  - destruct rest as [|c r]; [reflexivity|]. simpl. now rewrite Hrest.
  - apply andb_true_iff in Hd as [Hc Hd]. rewrite Hc. now rewrite IH.
Qed.

Lemma delimited_not_digit (rest : string) :
  delimited rest = true ->
  match rest with String c _ => JsString.isDigit c = false | EmptyString => True end.
Proof.
  destruct rest as [|c r]; [trivial|]. unfold delimited.
  destruct (JsString.isDigit c); [discriminate | reflexivity].
Qed.

Lemma N_of_digits_to_string (n : N) : JsString.N_of_digits (JsString.N_to_string n) = n.
Proof.
  unfold JsString.N_of_digits, JsString.N_to_string.
  rewrite NilEmpty.usu. apply DecimalN.Unsigned.of_to.
Qed.

(** The decimal text of a number has a digit and no superfluous zero in
    front. *)
Lemma unorm_head (d : Decimal.uint) :
  match Decimal.unorm d with
  | Decimal.Nil => False
  | Decimal.D0 Decimal.Nil => True
  | Decimal.D0 _ => False
  | _ => True
  end.
Proof. induction d; simpl; trivial. Qed.

Lemma N_to_string_head (n : N) :
  match JsString.N_to_string n with
  | EmptyString => False
  | String "0"%char (String _ _) => False
  | _ => True
  end.
Proof.
  unfold JsString.N_to_string.
  assert (Hnorm : N.to_uint n = Decimal.unorm (N.to_uint n)).
  { rewrite <- DecimalN.Unsigned.to_of. now rewrite DecimalN.Unsigned.of_to. }
  rewrite Hnorm.
  pose proof (unorm_head (N.to_uint n)) as H.
  destruct (Decimal.unorm (N.to_uint n)) as [|d|d|d|d|d|d|d|d|d|d]; simpl; trivial.
  destruct d; simpl; trivial; contradiction.
Qed.

Lemma N_to_string_start (n : N) : starts_with_value (JsString.N_to_string n) = true.
Proof.
  pose proof (N_to_string_head n) as Hhead.
  pose proof (string_of_uint_digits (N.to_uint n)) as Hdigits.
  fold (JsString.N_to_string n) in Hdigits.
  destruct (JsString.N_to_string n) as [|c r]; [contradiction|].
  simpl in Hdigits. apply andb_true_iff in Hdigits as [Hc _].
  unfold starts_with_value, value_start. rewrite Hc.
  now rewrite !orb_true_r.
Qed.

Lemma no_leading_zero_match {A : Type} (s : string) (none some : A) :
  match s with
  | EmptyString => False
  | String "0"%char (String _ _) => False
  | _ => True
  end ->
  match s with
  | EmptyString => none
  | String "0"%char (String _ _) => none
  | _ => some
  end = some.
Proof.
  destruct s as [|c r]; [contradiction|].
  destruct c as [[] [] [] [] [] [] [] []]; try reflexivity.
  destruct r; [reflexivity | contradiction].
Qed.

Lemma delimited_not_continued (rest : string) :
  delimited rest = true -> Json.number_continues rest = false.
Proof.
  destruct rest as [|c r]; [reflexivity|]. unfold delimited, Json.number_continues.
  intros H. apply negb_true_iff in H.
  destruct (JsString.isDigit c); [discriminate|]. exact H.
Qed.

Lemma parse_digits_layout (n : N) (negative : bool) (rest : string) :
  (n <= Semver.MAX_SAFE_INTEGER)%N ->
  delimited rest = true ->
  Json.parse_digits negative (JsString.N_to_string n ++ rest)
  = Some (JNumber (if negative then Z.opp (Z.of_N n) else Z.of_N n), rest).
Proof.
  intros Hsafe Hrest. unfold Json.parse_digits.
  rewrite span_digits;
    [| apply string_of_uint_digits | now apply delimited_not_digit].
  rewrite no_leading_zero_match by apply N_to_string_head.
  rewrite delimited_not_continued by exact Hrest.
  rewrite N_of_digits_to_string.
  assert (Hlt : (Semver.MAX_SAFE_INTEGER <? n)%N = false) by now apply N.ltb_ge.
  now rewrite Hlt.
Qed.

Lemma digit_first_not_minus {A : Type} (s : string) (minus : string -> A) (other : A) :
  starts_with_value s = true ->
  match s with String c _ => JsString.isDigit c = true | EmptyString => False end ->
  match s with
  | String "-"%char r => minus r
  | _ => other
  end = other.
Proof.
  destruct s as [|c r]; [reflexivity|]. intros _ Hc.
  destruct c as [[] [] [] [] [] [] [] []]; try reflexivity; discriminate.
Qed.

Lemma N_to_string_first_digit (n : N) (rest : string) :
  match JsString.N_to_string n ++ rest with
  | String c _ => JsString.isDigit c = true
  | EmptyString => False
  end.
Proof.
  pose proof (N_to_string_head n) as Hhead.
  pose proof (string_of_uint_digits (N.to_uint n)) as Hdigits.
  fold (JsString.N_to_string n) in Hdigits.
  destruct (JsString.N_to_string n) as [|c r]; [contradiction|].
  simpl in *. now apply andb_true_iff in Hdigits as [Hc _].
Qed.

Lemma starts_with_value_append (s rest : string) :
  starts_with_value s = true -> starts_with_value (s ++ rest) = true.
Proof. destruct s; [discriminate | trivial]. Qed.

Lemma parse_number_layout (z : Z) (rest : string) :
  (Z.abs z <=? Z.of_N Semver.MAX_SAFE_INTEGER)%Z = true ->
  delimited rest = true ->
  Json.parse_number (Json.Z_to_string z ++ rest) = Some (JNumber z, rest).
Proof.
  intros Hsafe Hrest. apply Z.leb_le in Hsafe. unfold Json.parse_number.
  destruct z as [|p|p]; simpl Json.Z_to_string.
  - apply (parse_digits_layout 0 false rest); [discriminate | exact Hrest].
  - rewrite digit_first_not_minus.
    + apply (parse_digits_layout (Npos p) false rest); [lia | exact Hrest].
    + apply starts_with_value_append, N_to_string_start.
    + apply N_to_string_first_digit.
  - simpl. apply (parse_digits_layout (Npos p) true rest); [lia | exact Hrest].
Qed.

Lemma parse_quote_char (c : ascii) (tail : string) :
  Json.parse_chars (Json.quote_char c ++ tail)
  = match Json.parse_chars tail with
    | Some (str, rest) => Some (String c str, rest)
    | None => None
    end.
Proof. destruct c as [[] [] [] [] [] [] [] []]; reflexivity. Qed.

Lemma parse_quote_chars (s rest : string) :
  Json.parse_chars (Json.quote_chars s ++ String Json.dquote rest) = Some (s, rest).
Proof.
  induction s as [|c s IH]; [reflexivity|].
  cbn [Json.quote_chars]. rewrite append_assoc, parse_quote_char, IH. reflexivity.
Qed.

Lemma QuoteJSONString_append (s rest : string) :
  Json.QuoteJSONString s ++ rest
  = String Json.dquote (Json.quote_chars s ++ String Json.dquote rest).
Proof. unfold Json.QuoteJSONString. simpl. now rewrite append_assoc. Qed.

Lemma parse_value_number (fuel : nat) (s : string) :
  match s with
  | String c _ => JsString.isDigit c = true \/ c = "-"%char
  | EmptyString => False
  end ->
  Json.parse_value (S fuel) s = Json.parse_number s.
Proof.
  destruct s as [|c r]; [contradiction|].
  destruct c as [[] [] [] [] [] [] [] []]; intros [H|H]; try discriminate; reflexivity.
Qed.

Lemma blank_delimited (w : string) (c : ascii) (r : string) :
  blank w = true ->
  (c = ","%char \/ c = "]"%char \/ c = "}"%char) ->
  delimited (w ++ String c r) = true.
Proof.
  intros Hw Hc. destruct w as [|x w]; simpl.
  - destruct Hc as [->|[->| ->]]; reflexivity.
  - unfold blank in Hw. simpl in Hw. apply andb_true_iff in Hw as [Hx _].
    destruct x as [[] [] [] [] [] [] [] []]; try discriminate; reflexivity.
Qed.

Lemma blank_app (a b : string) : blank a = true -> blank b = true -> blank (a ++ b) = true.
Proof. unfold blank. intros Ha Hb. now rewrite all_append, Ha, Hb. Qed.

Lemma not_closing_bracket {A : Type} (s : string) (closing : string -> A) (other : A) :
  starts_with_value s = true ->
  match s with
  | String "]"%char r => closing r
  | _ => other
  end = other.
Proof.
  destruct s as [|c r]; [reflexivity|]. cbn [starts_with_value].
  destruct c as [[] [] [] [] [] [] [] []]; intros H; try reflexivity; discriminate.
Qed.

Lemma not_closing_brace {A : Type} (s : string) (closing : string -> A) (other : A) :
  starts_with_value s = true ->
  match s with
  | String "}"%char r => closing r
  | _ => other
  end = other.
Proof.
  destruct s as [|c r]; [reflexivity|]. cbn [starts_with_value].
  destruct c as [[] [] [] [] [] [] [] []]; intros H; try reflexivity; discriminate.
Qed.

Lemma wrap_with_start (newline opening closing gap stepback indent : string)
  (partial : list string) (c : ascii) :
  opening = String c EmptyString ->
  exists r, wrap_with newline opening closing gap stepback indent partial = String c r.
Proof.
  intros ->. unfold wrap_with.
  destruct partial; [|destruct (JsString.isEmpty gap)]; eexists; reflexivity.
Qed.

Lemma layout_start (newline gap stepback : string) (v : json) :
  starts_with_value (layout newline gap stepback v) = true.
Proof.
  destruct v as [| [] | z | s | items | members]; try reflexivity.
  - destruct z; simpl; [reflexivity | apply N_to_string_start | reflexivity].
  - cbn [layout]. edestruct wrap_with_start as [r ->]; reflexivity.
  - cbn [layout]. edestruct wrap_with_start as [r ->]; reflexivity.
Qed.

Lemma join_start (sep : string) (parts : list string) :
  match parts with
  | p :: _ => starts_with_value p = true
  | [] => False
  end ->
  starts_with_value (JsString.join sep parts) = true.
Proof.
  destruct parts as [|p rest]; [contradiction|]. intros Hp.
  destruct rest; [exact Hp|].
  change (JsString.join sep (p :: s :: rest)) with (p ++ sep ++ JsString.join sep (s :: rest)).
  now apply starts_with_value_append.
Qed.

(** ** Reading back what [JSON.stringify] writes: arrays and objects *)

Lemma lookup_unseen (k : string) (acc : list (string * json)) :
  existsb (String.eqb k) (map fst acc) = false -> lookup k acc = None.
Proof.
  induction acc as [|[k' v'] acc IH]; simpl; [reflexivity|].
  intros H. apply orb_false_iff in H as [Hk Hrest]. rewrite Hk. now apply IH.
Qed.

Lemma insert_member_last (k : string) (v : json) (acc : list (string * json)) :
  forallb (fun k' => negb (Json.key_before k k')) (map fst acc) = true ->
  Json.insert_member k v acc = (acc ++ [(k, v)])%list.
Proof.
  induction acc as [|[k' v'] acc IH]; simpl; [reflexivity|].
  intros H. apply andb_true_iff in H as [Hk Hrest].
  apply negb_true_iff in Hk. rewrite Hk. now rewrite IH.
Qed.

Lemma set_member_last (k : string) (v : json) (acc : list (string * json)) :
  existsb (String.eqb k) (map fst acc) = false ->
  forallb (fun k' => negb (Json.key_before k k')) (map fst acc) = true ->
  Json.set_member k v acc = (acc ++ [(k, v)])%list.
Proof.
  intros Hnew Horder. unfold Json.set_member.
  rewrite (lookup_unseen _ _ Hnew). now apply insert_member_last.
Qed.

(** One turn of [Json.parse_items] and of [Json.parse_members]. *)

Lemma parse_items_comma (fuel : nat) (s : string) (acc : list json) (v : json)
  (w r : string) :
  Json.parse_value fuel s = Some (v, w ++ String "," r) ->
  blank w = true ->
  Json.parse_items (S fuel) s acc = Json.parse_items fuel r (acc ++ [v])%list.
Proof.
  intros Hv Hw. cbn [Json.parse_items]. rewrite Hv, skip_ws_blank by assumption.
  reflexivity.
Qed.

Lemma parse_items_close (fuel : nat) (s : string) (acc : list json) (v : json)
  (w r : string) :
  Json.parse_value fuel s = Some (v, w ++ String "]" r) ->
  blank w = true ->
  Json.parse_items (S fuel) s acc = Some (JArray (acc ++ [v])%list, r).
Proof.
  intros Hv Hw. cbn [Json.parse_items]. rewrite Hv, skip_ws_blank by assumption.
  reflexivity.
Qed.

Lemma parse_members_comma (fuel : nat) (lead k s : string) (acc : list (string * json))
  (v : json) (w r : string) :
  blank lead = true ->
  Json.parse_value fuel s = Some (v, w ++ String "," r) ->
  blank w = true ->
  Json.parse_members (S fuel) (lead ++ Json.QuoteJSONString k ++ String ":" s) acc
  = Json.parse_members fuel r (Json.set_member k v acc).
Proof.
  intros Hlead Hv Hw. cbn [Json.parse_members].
  rewrite skip_ws_blank, QuoteJSONString_append by assumption.
  change (Json.skip_ws (String Json.dquote ?x)) with (String Json.dquote x).
  cbv beta match. rewrite Ascii.eqb_refl, parse_quote_chars.
  change (Json.skip_ws (String ":" s)) with (String ":" s).
  cbv beta match. rewrite Hv, skip_ws_blank by assumption.
  reflexivity.
Qed.

Lemma parse_members_close (fuel : nat) (lead k s : string) (acc : list (string * json))
  (v : json) (w r : string) :
  blank lead = true ->
  Json.parse_value fuel s = Some (v, w ++ String "}" r) ->
  blank w = true ->
  Json.parse_members (S fuel) (lead ++ Json.QuoteJSONString k ++ String ":" s) acc
  = Some (JObject (Json.set_member k v acc), r).
Proof.
  intros Hlead Hv Hw. cbn [Json.parse_members].
  rewrite skip_ws_blank, QuoteJSONString_append by assumption.
  change (Json.skip_ws (String Json.dquote ?x)) with (String Json.dquote x).
  cbv beta match. rewrite Ascii.eqb_refl, parse_quote_chars.
  change (Json.skip_ws (String ":" s)) with (String ":" s).
  cbv beta match. rewrite Hv, skip_ws_blank by assumption.
  reflexivity.
Qed.

Section ParseLayout.

Variables newline gap : string.
Hypothesis newline_blank : blank newline = true.
Hypothesis gap_blank : blank gap = true.

Let separator : string := if JsString.isEmpty gap then EmptyString else " ".

Lemma separator_blank : blank separator = true.
Proof. unfold separator. destruct (JsString.isEmpty gap); reflexivity. Qed.

Lemma parse_items_joined (indent : string) (xs : list json) :
  forall (x : json) (fuel : nat) (acc : list json) (lead sepw endw rest : string),
    Forall (parses newline gap) (x :: xs) ->
    fold_right (fun x acc => S (Nat.max (need x) acc)) 0 (x :: xs) <= fuel ->
    blank indent = true -> blank lead = true -> blank sepw = true -> blank endw = true ->
    Json.parse_items fuel
      (lead ++ JsString.join (String "," sepw) (map (layout newline gap indent) (x :: xs))
       ++ endw ++ String "]" rest) acc
    = Some (JArray (acc ++ x :: xs), rest).
Proof.
  induction xs as [|y ys IH];
    intros x fuel acc lead sepw endw rest Hall Hfuel Hindent Hlead Hsepw Hendw;
    inversion Hall as [|? ? Hx Hrest]; subst;
    destruct fuel as [|fuel]; simpl in Hfuel; try lia.
  - cbn [map JsString.join].
    apply (parse_items_close fuel _ acc x endw rest); [|assumption].
    apply Hx; [lia | assumption | assumption | apply blank_delimited; auto].
  - rewrite map_cons, join_cons by (simpl; discriminate).
    rewrite !append_assoc. cbn [append].
    erewrite (parse_items_comma fuel _ acc x EmptyString).
    2: { apply Hx; [lia | assumption | assumption | reflexivity]. }
    2: reflexivity.
    replace (acc ++ x :: y :: ys)%list with ((acc ++ [x]) ++ y :: ys)%list
      by now rewrite <- app_assoc.
    apply IH; try assumption. simpl; lia.
Qed.

Lemma parse_members_joined (indent : string) (ms : list (string * json)) :
  forall (m : string * json) (fuel : nat) (acc : list (string * json))
         (lead sepw endw rest : string),
    Forall (fun kv : string * json => parses newline gap (snd kv)) (m :: ms) ->
    fold_right (fun (kv : string * json) acc => S (Nat.max (need (snd kv)) acc)) 0 (m :: ms)
    <= fuel ->
    keys_in_order (map fst acc) (map fst (m :: ms)) = true ->
    blank indent = true -> blank lead = true -> blank sepw = true -> blank endw = true ->
    Json.parse_members fuel
      (lead ++ JsString.join (String "," sepw)
                 (map (fun kv : string * json =>
                         Json.QuoteJSONString (fst kv) ++ ":" ++ separator
                         ++ layout newline gap indent (snd kv)) (m :: ms))
       ++ endw ++ String "}" rest) acc
    = Some (JObject (acc ++ m :: ms), rest).
Proof.
  induction ms as [|m' ms IH];
    intros [k v] fuel acc lead sepw endw rest Hall Hfuel Hkeys Hindent Hlead Hsepw Hendw;
    inversion Hall as [|? ? Hv Hrest]; subst; cbn [fst snd] in *;
    destruct fuel as [|fuel]; simpl in Hfuel; try lia;
    cbn [map keys_in_order] in Hkeys;
    apply andb_true_iff in Hkeys as [Hkeys Hlater];
    apply andb_true_iff in Hkeys as [Hnew Horder];
    apply negb_true_iff in Hnew.
  - cbn [map JsString.join fst snd].
    rewrite !append_assoc. cbn [append].
    erewrite (parse_members_close fuel lead k _ acc v endw rest);
      [now rewrite set_member_last | assumption | | assumption].
    apply Hv; [lia | assumption | apply separator_blank | apply blank_delimited; auto].
  - rewrite map_cons, join_cons by (simpl; discriminate). cbn [fst snd].
    rewrite !append_assoc. cbn [append].
    erewrite (parse_members_comma fuel lead k _ acc v EmptyString).
    2: assumption.
    2: { apply Hv; [lia | assumption | apply separator_blank | reflexivity]. }
    2: reflexivity.
    rewrite set_member_last by assumption.
    replace (acc ++ (k, v) :: m' :: ms)%list with ((acc ++ [(k, v)]) ++ m' :: ms)%list
      by now rewrite <- app_assoc.
    apply IH; try assumption.
    + simpl; lia.
    + now rewrite map_app.
Qed.

End ParseLayout.

Lemma parse_value_lead (fuel : nat) (lead s : string) :
  blank lead = true -> Json.parse_value fuel (lead ++ s) = Json.parse_value fuel s.
Proof.
  intros Hlead. destruct fuel; [reflexivity|].
  cbn [Json.parse_value]. now rewrite skip_ws_blank.
Qed.

Lemma parse_value_string (fuel : nat) (s : string) :
  Json.parse_value (S fuel) (String Json.dquote s)
  = match Json.parse_chars s with
    | Some (str, rest) => Some (JString str, rest)
    | None => None
    end.
Proof. reflexivity. Qed.

Lemma parse_value_array (fuel : nat) (r : string) :
  starts_with_value (Json.skip_ws r) = true ->
  Json.parse_value (S fuel) (String "[" r) = Json.parse_items fuel r [].
Proof.
  intros H. change (Json.parse_value (S fuel) (String "[" r))
    with (match Json.skip_ws r with
          | String "]"%char r' => Some (JArray [], r')
          | _ => Json.parse_items fuel r []
          end).
  now apply not_closing_bracket.
Qed.

Lemma parse_value_object (fuel : nat) (r : string) :
  starts_with_value (Json.skip_ws r) = true ->
  Json.parse_value (S fuel) (String "{" r) = Json.parse_members fuel r [].
Proof.
  intros H. change (Json.parse_value (S fuel) (String "{" r))
    with (match Json.skip_ws r with
          | String "}"%char r' => Some (JObject [], r')
          | _ => Json.parse_members fuel r []
          end).
  now apply not_closing_brace.
Qed.

(** The text of a container that is not empty: the opening bracket, then the
    parts, each after blank text, then blank text and the closing bracket. *)
Lemma wrap_with_parts (newline gap stepback : string) (o c : ascii) (p : string)
  (parts : list string) (rest : string) :
  blank newline = true -> blank gap = true -> blank stepback = true ->
  exists lead sepw endw,
    blank lead = true /\ blank sepw = true /\ blank endw = true
    /\ wrap_with newline (String o EmptyString) (String c EmptyString) gap stepback
         (stepback ++ gap) (p :: parts) ++ rest
       = String o (lead ++ JsString.join (String "," sepw) (p :: parts)
                   ++ endw ++ String c rest).
Proof.
  intros Hn Hg Hs. unfold wrap_with. destruct (JsString.isEmpty gap).
  - exists EmptyString, EmptyString, EmptyString. repeat split.
    rewrite !append_assoc. reflexivity.
  - exists (newline ++ stepback ++ gap), (newline ++ stepback ++ gap), (newline ++ stepback).
    repeat split; try (repeat apply blank_app; assumption).
    rewrite !append_assoc. reflexivity.
Qed.

Section ParseValue.

Variables newline gap : string.
Hypothesis newline_blank : blank newline = true.
Hypothesis gap_blank : blank gap = true.

(** [Json.parse_value] reads every well-formed value back from its layout. *)
Lemma parse_layout (v : json) : well_formed v = true -> parses newline gap v.
Proof.
  induction v as [| [] | z | s | items IH | members IH] using json_induction;
    intros Hwf fuel stepback lead rest Hfuel Hstepback Hlead Hrest;
    (destruct fuel as [|fuel]; [simpl in Hfuel; lia|]);
    rewrite parse_value_lead by assumption.
  - reflexivity.
  - reflexivity.
  - reflexivity.
  - cbn [layout]. rewrite parse_value_number.
    + now apply parse_number_layout.
    + destruct z as [|p|p]; cbn [Json.Z_to_string].
      * left. reflexivity.
      * pose proof (N_to_string_first_digit (Npos p) rest) as Hd.
        destruct (JsString.N_to_string (N.pos p) ++ rest); [contradiction | now left].
      * right. reflexivity.
  - cbn [layout]. rewrite QuoteJSONString_append, parse_value_string, parse_quote_chars.
    reflexivity.
  - cbn [layout well_formed need] in *.
    destruct items as [|x xs]; [reflexivity|].
    destruct (wrap_with_parts newline gap stepback "[" "]"
                (layout newline gap (stepback ++ gap) x)
                (map (layout newline gap (stepback ++ gap)) xs) rest)
      as (lead' & sepw & endw & Hl & Hsw & He & Heq); try assumption.
    change (map (layout newline gap (stepback ++ gap)) (x :: xs))
      with (layout newline gap (stepback ++ gap) x
            :: map (layout newline gap (stepback ++ gap)) xs).
    rewrite Heq, parse_value_array.
    + change (layout newline gap (stepback ++ gap) x
              :: map (layout newline gap (stepback ++ gap)) xs)
        with (map (layout newline gap (stepback ++ gap)) (x :: xs)).
      apply (parse_items_joined newline gap (stepback ++ gap) xs x fuel [] lead' sepw endw rest);
        try assumption.
      * rewrite forallb_forall in Hwf. rewrite Forall_forall in IH |- *.
        intros y Hy. apply IH; [exact Hy | now apply Hwf].
      * lia.
      * now apply blank_app.
    + rewrite skip_ws_blank by assumption.
      rewrite skip_ws_value.
      * apply starts_with_value_append, join_start, layout_start.
      * apply starts_with_value_append, join_start, layout_start.
  - cbn [layout well_formed need] in *.
    apply andb_true_iff in Hwf as [Hkeys Hwf].
    destruct members as [|[k x] ms]; [reflexivity|].
    set (member := fun kv : string * json =>
                     Json.QuoteJSONString (fst kv) ++ ":"
                     ++ (if JsString.isEmpty gap then EmptyString else " ")
                     ++ layout newline gap (stepback ++ gap) (snd kv)).
    destruct (wrap_with_parts newline gap stepback "{" "}"
                (member (k, x)) (map member ms) rest)
      as (lead' & sepw & endw & Hl & Hsw & He & Heq); try assumption.
    change (map member ((k, x) :: ms)) with (member (k, x) :: map member ms).
    rewrite Heq, parse_value_object.
    + change (member (k, x) :: map member ms) with (map member ((k, x) :: ms)).
      apply (parse_members_joined newline gap (stepback ++ gap) ms (k, x) fuel [] lead' sepw
               endw rest); try assumption.
      * rewrite forallb_forall in Hwf. rewrite Forall_forall in IH |- *.
        intros y Hy. apply IH; [exact Hy | now apply Hwf].
      * lia.
      * now apply blank_app.
    + rewrite skip_ws_blank by assumption.
      assert (Hstart : starts_with_value
                (JsString.join (String "," sepw) (member (k, x) :: map member ms)
                 ++ endw ++ String "}" rest) = true).
      { apply starts_with_value_append, join_start. reflexivity. }
      now rewrite skip_ws_value.
Qed.

End ParseValue.

(** ** The fuel of [Json.parse] is enough *)

Lemma need_positive (v : json) : 1 <= need v.
Proof. destruct v; simpl; lia. Qed.

Lemma wrap_with_length (newline opening closing gap stepback indent : string)
  (partial : list string) :
  String.length opening + String.length (JsString.join "," partial) + String.length closing
  <= String.length (wrap_with newline opening closing gap stepback indent partial).
Proof.
  unfold wrap_with. destruct partial as [|p rest].
  - simpl. rewrite length_append. lia.
  - destruct (JsString.isEmpty gap).
    + rewrite !length_append. lia.
    + rewrite !length_append.
      assert (H : String.length (JsString.join "," (p :: rest))
                  <= String.length (JsString.join ("," ++ newline ++ indent) (p :: rest))).
      { clear. revert p. induction rest as [|q rest IH]; intros p; [simpl; lia|].
        rewrite (join_cons ","), (join_cons ("," ++ newline ++ indent)) by discriminate.
        rewrite !length_append. specialize (IH q). lia. }
      lia.
Qed.

Lemma join_length_parts (parts : list string) (needs : list nat) :
  Forall2 (fun p n => n <= String.length p) parts needs ->
  fold_right (fun n acc => S (Nat.max n acc)) 0 needs
  <= String.length (JsString.join "," parts) + 1.
Proof.
  induction 1 as [|p n parts needs Hp Hrest IH]; [simpl; lia|].
  destruct Hrest as [|q m parts needs Hq Hrest].
  - simpl. lia.
  - rewrite join_cons by discriminate. rewrite !length_append.
    simpl in *. lia.
Qed.

Lemma fold_right_map_fusion {A B C : Type} (g : A -> B) (f : B -> C -> C) (a : C)
  (l : list A) :
  fold_right f a (map g l) = fold_right (fun x acc => f (g x) acc) a l.
Proof. induction l as [|x l IH]; simpl; [reflexivity | now rewrite IH]. Qed.

Lemma need_layout (newline gap : string) (v : json) :
  forall stepback, need v <= String.length (layout newline gap stepback v).
Proof.
  induction v as [| b | z | s | items IH | members IH] using json_induction;
    intros stepback.
  - simpl. lia.
  - destruct b; simpl; lia.
  - pose proof (layout_start newline gap stepback (JNumber z)) as H.
    destruct (layout newline gap stepback (JNumber z)); [discriminate | simpl; lia].
  - simpl. lia.
  - cbn [layout need].
    pose proof (wrap_with_length newline "[" "]" gap stepback (stepback ++ gap)
                  (map (layout newline gap (stepback ++ gap)) items)) as Hlen.
    assert (Hfold : fold_right (fun x acc => S (Nat.max (need x) acc)) 0 items
                    <= String.length
                         (JsString.join "," (map (layout newline gap (stepback ++ gap)) items))
                       + 1).
    { rewrite <- (fold_right_map_fusion need (fun n acc => S (Nat.max n acc))).
      apply join_length_parts.
      clear Hlen. induction IH as [|x xs Hx Hxs IHxs]; simpl; constructor; auto. }
    simpl in Hlen. lia.
  - cbn [layout need].
    set (member := fun kv : string * json =>
                     Json.QuoteJSONString (fst kv) ++ ":"
                     ++ (if JsString.isEmpty gap then EmptyString else " ")
                     ++ layout newline gap (stepback ++ gap) (snd kv)).
    pose proof (wrap_with_length newline "{" "}" gap stepback (stepback ++ gap)
                  (map member members)) as Hlen.
    assert (Hfold : fold_right (fun (kv : string * json) acc => S (Nat.max (need (snd kv)) acc))
                      0 members
                    <= String.length (JsString.join "," (map member members)) + 1).
    { rewrite <- (fold_right_map_fusion (fun kv : string * json => need (snd kv))
                    (fun n acc => S (Nat.max n acc))).
      apply join_length_parts.
      clear Hlen. induction IH as [|x xs Hx Hxs IHxs]; simpl; constructor; auto.
      unfold member. rewrite !length_append. specialize (Hx (stepback ++ gap)). lia. }
    simpl in Hlen. lia.
Qed.

(** ** [detect-indent] reads the text one character at a time *)

Section Stream.

Variable ignore : bool.

Lemma stream_app (a b : string) (x : DetectIndent.scan * position) :
  stream ignore (a ++ b) x = stream ignore b (stream ignore a x).
Proof. revert x. induction a as [|c a IH]; intros x; simpl; [reflexivity | apply IH]. Qed.

Lemma stream_inline (s : string) (st : DetectIndent.scan) :
  no_newline s = true -> stream ignore s (st, InLine) = (st, InLine).
Proof.
  induction s as [|c s IH]; [reflexivity|]. unfold no_newline. simpl.
  intros H. apply andb_true_iff in H as [Hc Hs]. apply negb_true_iff in Hc.
  rewrite Hc. now apply IH.
Qed.

Lemma feed_newline_indent (s : string) :
  forall (st : DetectIndent.scan) (t : DetectIndent.indent_type) (k : nat),
    no_newline s = true ->
    feed ignore "010" (stream ignore s (st, InIndent t k))
    = (DetectIndent.scan_indent ignore st
         (Some (t, k + String.length
                       (fst (JsString.span (fun c => (c =? indent_char t)%char) s)))),
       LineStart).
Proof.
  induction s as [|c s IH]; intros st t k Hs.
  - simpl. now rewrite Nat.add_0_r.
  - unfold no_newline in Hs. simpl in Hs. apply andb_true_iff in Hs as [Hc Hs].
    apply negb_true_iff in Hc. cbn [stream feed JsString.span]. rewrite Hc.
    destruct (c =? indent_char t)%char eqn:E.
    + rewrite IH by exact Hs.
      destruct (JsString.span (fun c0 => (c0 =? indent_char t)%char) s) as [a b].
      simpl. now rewrite Nat.add_succ_r.
    + rewrite stream_inline by exact Hs. simpl. now rewrite Nat.add_0_r.
Qed.

Lemma match_indent_other (c : ascii) (s : string) :
  (c =? " ")%char = false -> (c =? "009")%char = false ->
  DetectIndent.match_indent (String c s) = None.
Proof.
  destruct c as [[] [] [] [] [] [] [] []]; intros H1 H2; try reflexivity; discriminate.
Qed.

Lemma feed_newline_line (pre : string) (st : DetectIndent.scan) :
  no_newline pre = true ->
  feed ignore "010" (stream ignore pre (st, LineStart))
  = (DetectIndent.scan_line ignore st pre, LineStart).
Proof.
  destruct pre as [|c s]; [reflexivity|].
  unfold no_newline. simpl JsString.all. intros H.
  apply andb_true_iff in H as [Hc Hs]. apply negb_true_iff in Hc.
  cbn [stream feed]. rewrite Hc.
  destruct (c =? " ")%char eqn:Hspace.
  - apply Ascii.eqb_eq in Hspace. subst c.
    rewrite (feed_newline_indent s st DetectIndent.SPACE 1 Hs).
    unfold DetectIndent.scan_line. cbn [JsString.isEmpty DetectIndent.match_indent].
    cbn [JsString.span indent_char]. rewrite Ascii.eqb_refl.
    destruct (JsString.span (fun c => (c =? " ")%char) s) as [a b]. reflexivity.
  - destruct (c =? "009")%char eqn:Htab.
    + apply Ascii.eqb_eq in Htab. subst c.
      rewrite (feed_newline_indent s st DetectIndent.TAB 1 Hs).
      unfold DetectIndent.scan_line. cbn [JsString.isEmpty DetectIndent.match_indent].
      cbn [JsString.span indent_char]. rewrite Ascii.eqb_refl.
      destruct (JsString.span (fun c => (c =? "009")%char) s) as [a b]. reflexivity.
    + rewrite stream_inline by exact Hs.
      unfold DetectIndent.scan_line. cbn [JsString.isEmpty].
      now rewrite match_indent_other.
Qed.

Lemma no_newline_app (a b : string) :
  no_newline a = true -> no_newline b = true -> no_newline (a ++ b) = true.
Proof. unfold no_newline. intros Ha Hb. now rewrite all_append, Ha, Hb. Qed.

Lemma fold_stream (s : string) :
  forall (st : DetectIndent.scan) (pre : string),
    no_newline pre = true ->
    fold_left (DetectIndent.scan_line ignore) (glue pre (JsString.split "010" s)) st
    = fst (feed ignore "010" (stream ignore s (stream ignore pre (st, LineStart)))).
Proof.
  induction s as [|c s IH]; intros st pre Hpre.
  - cbn [JsString.split glue fold_left stream]. rewrite append_empty_r.
    now rewrite feed_newline_line.
  - cbn [JsString.split stream]. destruct (c =? "010")%char eqn:Hc.
    + apply Ascii.eqb_eq in Hc. subst c.
      cbn [glue fold_left]. rewrite append_empty_r.
      rewrite feed_newline_line by exact Hpre.
      specialize (IH (DetectIndent.scan_line ignore st pre) EmptyString eq_refl).
      cbn [stream] in IH. rewrite <- IH.
      destruct (JsString.split "010" s) as [|h t] eqn:E; [now apply split_nonempty in E|].
      reflexivity.
    + destruct (JsString.split "010" s) as [|h t] eqn:E; [now apply split_nonempty in E|].
      specialize (IH st (pre ++ String c EmptyString)).
      rewrite stream_app in IH. cbn [stream] in IH. rewrite <- IH.
      * cbn [glue]. now rewrite append_assoc.
      * apply no_newline_app; [exact Hpre|].
        unfold no_newline. simpl. now rewrite Hc.
Qed.

Lemma makeIndentsMap_stream (s : string) :
  DetectIndent.makeIndentsMap s ignore
  = DetectIndent.indents
      (fst (feed ignore "010" (stream ignore s (DetectIndent.initial_scan, LineStart)))).
Proof.
  unfold DetectIndent.makeIndentsMap.
  pose proof (fold_stream s DetectIndent.initial_scan EmptyString eq_refl) as H.
  cbn [stream] in H. rewrite <- H.
  destruct (JsString.split "010" s) as [|h t] eqn:E; [now apply split_nonempty in E|].
  reflexivity.
Qed.

End Stream.

(** ** The indentation [detect-indent] finds in the layout of [JSON.stringify] *)

Section Walk.

Variable ignore : bool.
Variable n : nat.
Hypothesis n_wide : 2 <= n.

Lemma scanned_initial : scanned n 0 DetectIndent.initial_scan.
Proof.
  split; [now left|]. split; [reflexivity|]. intros Hne. now contradiction Hne.
Qed.

(** A line without indentation. *)
Lemma scanned_reset (a : nat) (st : DetectIndent.scan) :
  scanned n a st ->
  scanned n 0 (DetectIndent.scan_indent ignore st None)
  /\ DetectIndent.indents (DetectIndent.scan_indent ignore st None) = DetectIndent.indents st.
Proof.
  intros (Hok & _ & _). split; [|reflexivity].
  split; [exact Hok|]. split; [reflexivity|]. intros Hne. now contradiction Hne.
Qed.

Lemma map_step (m : DetectIndent.indents_map) (weight : nat) :
  indents_ok n m ->
  let k := Some (DetectIndent.SPACE, n) in
  let entry := match DetectIndent.map_get m k with
               | None => (1, 0)
               | Some (used, w) => (S used, w + weight)
               end in
  indents_ok n (DetectIndent.map_set m k entry) /\ DetectIndent.map_set m k entry <> [].
Proof.
  intros [->|(u & w & ->)]; simpl.
  - split; [right; now exists 0, 0 | discriminate].
  - rewrite Nat.eqb_refl. simpl. split; [right; now exists (S u), (w + weight) | discriminate].
Qed.

(** A line indented by [a'] spaces after a line indented by [a] spaces, one
    step more, one step less, or as much. *)
Lemma scanned_enter (a a' : nat) (st : DetectIndent.scan) :
  scanned n a st ->
  2 <= a' ->
  (a' = a \/ a' = a + n \/ a' + n = a) ->
  scanned n a' (DetectIndent.scan_indent ignore st (Some (DetectIndent.SPACE, a'))).
Proof.
  intros (Hok & Hsize & Hprev) Ha' Hstep.
  unfold DetectIndent.scan_indent.
  assert (Hone : Nat.eqb a' 1 = false) by (apply Nat.eqb_neq; lia).
  rewrite Hone, andb_false_r.
  assert (Hsize0 :
    match DetectIndent.previousIndentType st with
    | Some (Some t) =>
        if DetectIndent.indent_type_eqb DetectIndent.SPACE t
        then DetectIndent.previousSize st else 0
    | _ => 0
    end = a).
  { destruct (Nat.eq_dec a 0) as [Hz|Hnz].
    - rewrite Hsize, Hz.
      destruct (DetectIndent.previousIndentType st) as [[[]|]|]; reflexivity.
    - destruct (Hprev Hnz) as (-> & _ & _). simpl. exact Hsize. }
  rewrite Hsize0.
  destruct (Nat.eqb a' a) eqn:Hsame.
  - apply Nat.eqb_eq in Hsame. subst a'.
    destruct Hprev as (Htype & Hkey & Hne); [lia|]. rewrite Hkey.
    destruct (map_step (DetectIndent.indents st) 1 Hok) as [Hok' Hne'].
    repeat split; assumption.
  - apply Nat.eqb_neq in Hsame.
    assert (Hkey : (if (a <? a')%nat then a' - a else a - a') = n).
    { destruct (a <? a')%nat eqn:Hlt; [apply Nat.ltb_lt in Hlt | apply Nat.ltb_ge in Hlt]; lia. }
    rewrite Hkey.
    destruct (map_step (DetectIndent.indents st) 0 Hok) as [Hok' Hne'].
    repeat split; assumption.
Qed.

Lemma walks_none (a : nat) (p : string) : no_newline p = true -> walks ignore n a p.
Proof. intros Hp st Hst. exists st. split; [now apply stream_inline | exact Hst]. Qed.

Lemma walks_app (a : nat) (p q : string) :
  walks ignore n a p -> walks ignore n a q -> walks ignore n a (p ++ q).
Proof.
  intros Hp Hq st Hst. destruct (Hp st Hst) as (st1 & H1 & Hst1).
  destruct (Hq st1 Hst1) as (st2 & H2 & Hst2).
  exists st2. split; [|exact Hst2]. now rewrite stream_app, H1.
Qed.

Lemma stream_solid (p : string) (st : DetectIndent.scan) (pos : position) :
  solid p = true ->
  stream ignore p (st, pos) = stream ignore p (enter ignore st pos, InLine).
Proof.
  destruct p as [|c r]; [discriminate|]. unfold solid. intros H.
  apply negb_true_iff in H. apply orb_false_iff in H as [H Hnl].
  apply orb_false_iff in H as [Hsp Htab].
  cbn [stream feed]. rewrite Hnl.
  destruct pos as [|t k|]; cbn [enter].
  - now rewrite Hsp, Htab.
  - destruct t; cbn [indent_char]; [now rewrite Hsp | now rewrite Htab].
  - reflexivity.
Qed.


Lemma stream_more_spaces (k : nat) :
  forall (j : nat) (st : DetectIndent.scan),
    stream ignore (Json.spaces k) (st, InIndent DetectIndent.SPACE j)
    = (st, InIndent DetectIndent.SPACE (j + k)).
Proof.
  induction k as [|k IH]; intros j st.
  - simpl. now rewrite Nat.add_0_r.
  - cbn [Json.spaces stream]. change (feed ignore " " (st, InIndent DetectIndent.SPACE j))
      with (st, InIndent DetectIndent.SPACE (S j)).
    rewrite IH. now rewrite Nat.add_succ_r.
Qed.

Lemma stream_spaces (k : nat) (st : DetectIndent.scan) :
  1 <= k ->
  stream ignore (Json.spaces k) (st, LineStart) = (st, InIndent DetectIndent.SPACE k).
Proof.
  destruct k as [|k]; [lia|]. intros _.
  cbn [Json.spaces stream]. change (feed ignore " " (st, LineStart))
    with (st, InIndent DetectIndent.SPACE 1).
  now rewrite stream_more_spaces.
Qed.

Lemma spaces_app (a b : nat) : Json.spaces a ++ Json.spaces b = Json.spaces (a + b).
Proof. induction a as [|a IH]; simpl; [reflexivity | now rewrite IH]. Qed.

Lemma spaces_not_empty (k : nat) : 1 <= k -> JsString.isEmpty (Json.spaces k) = false.
Proof. destruct k; [intros H; inversion H | reflexivity]. Qed.

Variable le : string.
Hypothesis le_newline : le = DetectNewline.LF \/ le = DetectNewline.CRLF.

Lemma stream_newline (st : DetectIndent.scan) :
  stream ignore le (st, InLine) = (st, LineStart).
Proof. destruct le_newline as [-> | ->]; reflexivity. Qed.

Lemma stream_blank_line (st : DetectIndent.scan) :
  scanned n 0 st ->
  exists st', stream ignore le (st, LineStart) = (st', LineStart)
              /\ scanned n 0 st'
              /\ DetectIndent.indents st' = DetectIndent.indents st.
Proof.
  intros Hst. destruct le_newline as [-> | ->].
  - exists st. split; [reflexivity|]. split; [exact Hst | reflexivity].
  - exists (DetectIndent.scan_indent ignore st None).
    split; [reflexivity|]. now apply (scanned_reset 0).
Qed.

Lemma stream_trailing (k : nat) :
  forall (st : DetectIndent.scan) (pos : position),
    scanned n 0 st -> pos = InLine \/ pos = LineStart ->
    exists st' pos',
      stream ignore (copies k le) (st, pos) = (st', pos')
      /\ (pos' = InLine \/ pos' = LineStart)
      /\ scanned n 0 st'
      /\ DetectIndent.indents st' = DetectIndent.indents st.
Proof.
  induction k as [|k IH]; intros st pos Hst Hpos.
  - exists st, pos. split; [reflexivity|]. split; [exact Hpos|].
    split; [exact Hst | reflexivity].
  - cbn [copies]. rewrite stream_app.
    destruct Hpos as [-> | ->].
    + rewrite stream_newline.
      destruct (IH st LineStart Hst (or_intror eq_refl)) as (st' & pos' & H & Hp & Hs & Hi).
      now exists st', pos'.
    + destruct (stream_blank_line st Hst) as (st1 & H1 & Hs1 & Hi1). rewrite H1.
      destruct (IH st1 LineStart Hs1 (or_intror eq_refl)) as (st' & pos' & H & Hp & Hs & Hi).
      exists st', pos'. split; [exact H|]. split; [exact Hp|].
      split; [exact Hs | congruence].
Qed.

Lemma stream_comma (s : string) (st : DetectIndent.scan) :
  stream ignore (String "," s) (st, InLine) = stream ignore s (st, InLine).
Proof. reflexivity. Qed.

(** The parts of a container, each on lines indented by [a + n] spaces. *)
Lemma walk_parts (a : nat) (parts : list string) :
  Forall (fun p => solid p = true /\ walks ignore n (a + n) p) parts ->
  parts <> [] ->
  forall (st : DetectIndent.scan) (b : nat),
    scanned n b st -> b = a \/ b = a + n ->
    exists st',
      stream ignore (JsString.join (String "," (le ++ Json.spaces (a + n))) parts)
        (st, InIndent DetectIndent.SPACE (a + n)) = (st', InLine)
      /\ scanned n (a + n) st'.
Proof.
  induction 1 as [|p rest [Hsolid Hwalk] Hrest IH]; intros Hne st b Hst Hb; [congruence|].
  assert (Hentered : scanned n (a + n)
            (enter ignore st (InIndent DetectIndent.SPACE (a + n)))).
  { cbn [enter]. apply (scanned_enter b); [exact Hst | lia | lia]. }
  destruct (Hwalk _ Hentered) as (st1 & H1 & Hst1).
  destruct rest as [|q rest].
  - cbn [JsString.join]. rewrite stream_solid by exact Hsolid.
    now exists st1.
  - rewrite join_cons by discriminate. rewrite stream_app.
    rewrite stream_solid by exact Hsolid. rewrite H1.
    rewrite stream_app, stream_comma, stream_app, stream_newline.
    rewrite stream_spaces by lia.
    apply (IH ltac:(discriminate) st1 (a + n)); [exact Hst1 | now right].
Qed.

(** A container with elements, whose brackets are on lines indented by [a]
    spaces. *)
Lemma walk_container (a : nat) (o c : ascii) (parts : list string) :
  a = 0 \/ 2 <= a ->
  solid (String o EmptyString) = true -> solid (String c EmptyString) = true ->
  Forall (fun p => solid p = true /\ walks ignore n (a + n) p) parts ->
  parts <> [] ->
  forall st, scanned n a st ->
    exists st',
      stream ignore
        (wrap_with le (String o EmptyString) (String c EmptyString) (Json.spaces n)
           (Json.spaces a) (Json.spaces a ++ Json.spaces n) parts) (st, InLine)
      = (st', InLine)
      /\ scanned n a st'
      /\ DetectIndent.indents st' <> [].
Proof.
  intros Ha Ho Hc Hparts Hne st Hst.
  unfold wrap_with. destruct parts as [|p rest]; [congruence|].
  rewrite spaces_not_empty by lia. rewrite spaces_app.
  assert (Hopen : stream ignore (String o EmptyString) (st, InLine) = (st, InLine)).
  { apply stream_inline. unfold solid in Ho. unfold no_newline. simpl.
    apply negb_true_iff in Ho. apply orb_false_iff in Ho as [_ Ho]. now rewrite Ho. }
  rewrite stream_app, Hopen, stream_app, stream_newline, stream_app.
  rewrite stream_spaces by lia.
  rewrite stream_app.
  change ("," ++ le ++ Json.spaces (a + n)) with (String "," (le ++ Json.spaces (a + n))).
  destruct (walk_parts a (p :: rest) Hparts Hne st a Hst (or_introl eq_refl))
    as (st1 & H1 & Hst1).
  rewrite H1, stream_app, stream_newline, stream_app.
  assert (Hmap : DetectIndent.indents st1 <> []).
  { destruct Hst1 as (_ & _ & Hprev). apply Hprev. lia. }
  destruct Ha as [-> | Ha].
  - change (stream ignore (Json.spaces 0) (st1, LineStart)) with (st1, LineStart).
    rewrite stream_solid by exact Hc. cbn [enter].
    destruct (scanned_reset _ _ Hst1) as [Hreset Hsame].
    exists (DetectIndent.scan_indent ignore st1 None).
    split; [|split; [exact Hreset | now rewrite Hsame]].
    apply stream_inline. unfold solid in Hc. unfold no_newline. simpl.
    apply negb_true_iff in Hc. apply orb_false_iff in Hc as [_ Hc]. now rewrite Hc.
  - rewrite stream_spaces by lia.
    rewrite stream_solid by exact Hc. cbn [enter].
    assert (Hdown : scanned n a
              (DetectIndent.scan_indent ignore st1 (Some (DetectIndent.SPACE, a)))).
    { apply (scanned_enter (a + n)); [exact Hst1 | lia | lia]. }
    exists (DetectIndent.scan_indent ignore st1 (Some (DetectIndent.SPACE, a))).
    split; [|split; [exact Hdown|]].
    + apply stream_inline. unfold solid in Hc. unfold no_newline. simpl.
      apply negb_true_iff in Hc. apply orb_false_iff in Hc as [_ Hc]. now rewrite Hc.
    + destruct Hdown as (_ & _ & Hprev). apply Hprev. lia.
Qed.

Lemma value_start_solid (p : string) : starts_with_value p = true -> solid p = true.
Proof.
  destruct p as [|c r]; [discriminate|]. unfold starts_with_value, solid.
  destruct c as [[] [] [] [] [] [] [] []]; intros H; try reflexivity; discriminate.
Qed.

(** The scan walks through the layout of every value. *)
Lemma walks_layout (v : json) :
  forall a, a = 0 \/ 2 <= a ->
    walks ignore n a (layout le (Json.spaces n) (Json.spaces a) v).
Proof.
  induction v as [| [] | z | s | items IH | members IH] using json_induction;
    intros a Ha; try (apply walks_none; reflexivity).
  - apply walks_none, Z_to_string_no_newline.
  - apply walks_none, QuoteJSONString_no_newline.
  - cbn [layout]. destruct items as [|x xs]; [apply walks_none; reflexivity|].
    intros st Hst.
    destruct (walk_container a "[" "]"
                (map (layout le (Json.spaces n) (Json.spaces a ++ Json.spaces n)) (x :: xs)))
      with (st := st) as (st' & H & Hst' & _); try assumption; try reflexivity.
    + rewrite Forall_map. eapply Forall_impl; [|exact IH].
      intros y Hy. cbv beta. split.
      * apply value_start_solid, layout_start.
      * rewrite spaces_app. apply Hy. right. lia.
    + discriminate.
    + now exists st'.
  - cbn [layout]. destruct members as [|m ms]; [apply walks_none; reflexivity|].
    intros st Hst.
    set (member := fun kv : string * json =>
                     Json.QuoteJSONString (fst kv) ++ ":"
                     ++ (if JsString.isEmpty (Json.spaces n) then EmptyString else " ")
                     ++ layout le (Json.spaces n) (Json.spaces a ++ Json.spaces n) (snd kv)).
    destruct (walk_container a "{" "}" (map member (m :: ms)))
      with (st := st) as (st' & H & Hst' & _); try assumption; try reflexivity.
    + rewrite Forall_map. eapply Forall_impl; [|exact IH].
      intros [k y] Hy. cbv beta. unfold member. cbn [fst snd] in *. split.
      * reflexivity.
      * apply walks_app; [apply walks_none, QuoteJSONString_no_newline|].
        apply walks_app; [apply walks_none; reflexivity|].
        apply walks_app;
          [apply walks_none; destruct (JsString.isEmpty (Json.spaces n)); reflexivity|].
        rewrite spaces_app. apply Hy. right. lia.
    + discriminate.
    + now exists st'.
Qed.

End Walk.

(** ** The white space at the end of the text *)

Lemma span_end_all (p : ascii -> bool) (w : string) :
  JsString.all p w = true -> JsString.span_end p w = (EmptyString, w).
Proof.
  induction w as [|c w IH]; [reflexivity|]. simpl.
  intros H. apply andb_true_iff in H as [Hc Hw]. rewrite (IH Hw). simpl. now rewrite Hc.
Qed.

Lemma span_end_last (p : ascii -> bool) (c : ascii) (w : string) :
  p c = false -> JsString.all p w = true ->
  JsString.span_end p (String c w) = (String c EmptyString, w).
Proof. intros Hc Hw. simpl. rewrite (span_end_all p w Hw). simpl. now rewrite Hc. Qed.

Lemma span_end_app (p : ascii -> bool) (a b body tail : string) :
  JsString.span_end p b = (body, tail) ->
  JsString.isEmpty body = false ->
  JsString.span_end p (a ++ b) = (a ++ body, tail).
Proof.
  intros Hb Hbody. induction a as [|c a IH]; [exact Hb|].
  simpl. rewrite IH.
  destruct (a ++ body) eqn:E; [|reflexivity].
  destruct a; simpl in E; [subst body; discriminate | discriminate].
Qed.

Lemma span_end_solid (s w : string) :
  ends_solid s -> JsString.all JsString.isSpace w = true ->
  JsString.span_end JsString.isSpace (s ++ w) = (s, w).
Proof.
  intros (a & c & -> & Hc) Hw. rewrite append_assoc. cbn [append].
  erewrite span_end_app; [reflexivity | now apply span_end_last | reflexivity].
Qed.

Lemma ends_solid_app (a b : string) : ends_solid b -> ends_solid (a ++ b).
Proof.
  intros (x & c & -> & Hc). exists (a ++ x), c. split; [now rewrite append_assoc | exact Hc].
Qed.

Lemma digits_end_solid (s : string) :
  JsString.isEmpty s = false -> JsString.all JsString.isDigit s = true -> ends_solid s.
Proof.
  induction s as [|c s IH]; [discriminate|]. intros _ H.
  simpl in H. apply andb_true_iff in H as [Hc Hs].
  destruct s as [|d s].
  - exists EmptyString, c. split; [reflexivity|].
    destruct c as [[] [] [] [] [] [] [] []]; try discriminate; reflexivity.
  - apply (ends_solid_app (String c EmptyString)). now apply IH.
Qed.

Lemma N_to_string_end_solid (m : N) : ends_solid (JsString.N_to_string m).
Proof.
  apply digits_end_solid; [|apply string_of_uint_digits].
  pose proof (N_to_string_head m) as H.
  destruct (JsString.N_to_string m); [contradiction | reflexivity].
Qed.

Lemma wrap_with_end_solid (newline opening gap stepback indent : string) (c : ascii)
  (partial : list string) :
  JsString.isSpace c = false ->
  ends_solid (wrap_with newline opening (String c EmptyString) gap stepback indent partial).
Proof.
  intros Hc. unfold wrap_with.
  assert (Hclose : ends_solid (String c EmptyString)) by (now exists EmptyString, c).
  destruct partial; [|destruct (JsString.isEmpty gap)];
    repeat apply ends_solid_app; exact Hclose.
Qed.

Lemma layout_end_solid (newline gap stepback : string) (v : json) :
  ends_solid (layout newline gap stepback v).
Proof.
  destruct v as [| [] | z | s | items | members]; cbn [layout].
  - now exists "nul", "l"%char.
  - now exists "tru", "e"%char.
  - now exists "fals", "e"%char.
  - destruct z; cbn [Json.Z_to_string].
    + now exists EmptyString, "0"%char.
    + apply N_to_string_end_solid.
    + apply ends_solid_app, N_to_string_end_solid.
  - unfold Json.QuoteJSONString.
    exists (String Json.dquote (Json.quote_chars s)), Json.dquote. now split.
  - now apply wrap_with_end_solid.
  - now apply wrap_with_end_solid.
Qed.

Lemma copies_spaces (k : nat) (le : string) :
  JsString.all JsString.isSpace le = true ->
  JsString.all JsString.isSpace (copies k le) = true.
Proof.
  intros Hle. induction k as [|k IH]; [reflexivity|].
  cbn [copies]. now rewrite all_append, Hle, IH.
Qed.

Lemma trailing_whitespace_canonical (body le : string) (k : nat) :
  ends_solid body ->
  JsString.all JsString.isSpace le = true ->
  match DETECT_TRAILING_WHITESPACE (body ++ copies k le) with
  | Some ws => ws
  | None => EmptyString
  end = copies k le.
Proof.
  intros Hbody Hle. unfold DETECT_TRAILING_WHITESPACE.
  rewrite span_end_solid; [| exact Hbody | now apply copies_spaces].
  cbn [snd]. destruct (copies k le); reflexivity.
Qed.

(** ** The line ending [detect-newline] finds *)

Lemma count_newlines_other (c : ascii) (r : string) :
  (c =? "013")%char = false -> (c =? "010")%char = false ->
  DetectNewline.count_newlines (String c r) = DetectNewline.count_newlines r.
Proof.
  destruct c as [[] [] [] [] [] [] [] []]; intros H1 H2; try discriminate;
    simpl; destruct (DetectNewline.count_newlines r); reflexivity.
Qed.

Lemma count_newlines_lf (r : string) :
  DetectNewline.count_newlines (String "010" r)
  = (fst (DetectNewline.count_newlines r), S (snd (DetectNewline.count_newlines r))).
Proof. simpl. destruct (DetectNewline.count_newlines r); reflexivity. Qed.

Lemma count_newlines_crlf (r : string) :
  DetectNewline.count_newlines (String "013" (String "010" r))
  = (S (fst (DetectNewline.count_newlines r)), snd (DetectNewline.count_newlines r)).
Proof. simpl. destruct (DetectNewline.count_newlines r); reflexivity. Qed.

Lemma count_newlines_no_cr (s : string) :
  no_cr s = true -> DetectNewline.count_newlines s = (0, count_lf s).
Proof.
  induction s as [|c s IH]; [reflexivity|]. unfold no_cr. simpl JsString.all.
  intros H. apply andb_true_iff in H as [Hc Hs]. apply negb_true_iff in Hc.
  specialize (IH Hs). cbn [count_lf].
  destruct (c =? "010")%char eqn:Hlf.
  - apply Ascii.eqb_eq in Hlf. subst c. rewrite count_newlines_lf, IH. reflexivity.
  - rewrite count_newlines_other by assumption. exact IH.
Qed.

Lemma count_newlines_replaced (s : string) :
  no_cr s = true ->
  DetectNewline.count_newlines (replace_newlines (Some DetectNewline.CRLF) s)
  = (count_lf s, 0).
Proof.
  induction s as [|c s IH]; [reflexivity|]. unfold no_cr. simpl JsString.all.
  intros H. apply andb_true_iff in H as [Hc Hs]. apply negb_true_iff in Hc.
  specialize (IH Hs). rewrite replace_newlines_cons. cbn [count_lf replacement_text].
  destruct (c =? "010")%char eqn:Hlf.
  - cbn [DetectNewline.CRLF append]. rewrite count_newlines_crlf, IH. reflexivity.
  - rewrite count_newlines_other by assumption. exact IH.
Qed.

Lemma replace_newlines_lf (s : string) : replace_newlines (Some DetectNewline.LF) s = s.
Proof.
  induction s as [|c s IH]; [reflexivity|]. rewrite replace_newlines_cons, IH.
  destruct (c =? "010")%char eqn:Hlf; [|reflexivity].
  apply Ascii.eqb_eq in Hlf. now subst c.
Qed.

Lemma detectNewline_replaced (le s : string) :
  le = DetectNewline.LF \/ le = DetectNewline.CRLF ->
  no_cr s = true ->
  1 <= count_lf s ->
  DetectNewline.detectNewline (replace_newlines (Some le) s) = Some le.
Proof.
  intros [-> | ->] Hcr Hlf; unfold DetectNewline.detectNewline.
  - rewrite replace_newlines_lf, count_newlines_no_cr by exact Hcr.
    destruct (count_lf s); [lia | reflexivity].
  - rewrite count_newlines_replaced by exact Hcr.
    destruct (count_lf s); [lia | reflexivity].
Qed.

Lemma count_lf_app (a b : string) : count_lf (a ++ b) = count_lf a + count_lf b.
Proof. induction a as [|c a IH]; simpl; [reflexivity | rewrite IH; lia]. Qed.

Lemma replace_newlines_copies (le : string) (k : nat) :
  replace_newlines (Some le) (copies k DetectNewline.LF) = copies k le.
Proof.
  induction k as [|k IH]; [reflexivity|].
  cbn [copies]. rewrite replace_newlines_app, IH.
  change DetectNewline.LF with (String "010" EmptyString).
  now rewrite replace_newlines_newline.
Qed.

Lemma no_cr_copies (k : nat) : no_cr (copies k DetectNewline.LF) = true.
Proof. induction k as [|k IH]; [reflexivity | exact IH]. Qed.

Lemma quote_char_printable (c : ascii) : JsString.all printable (Json.quote_char c) = true.
Proof. destruct c as [[] [] [] [] [] [] [] []]; reflexivity. Qed.

Lemma QuoteJSONString_printable (s : string) :
  JsString.all printable (Json.QuoteJSONString s) = true.
Proof.
  unfold Json.QuoteJSONString. simpl. rewrite all_append. simpl. rewrite andb_true_r.
  induction s as [|c s IH]; [reflexivity|].
  cbn [Json.quote_chars]. now rewrite all_append, quote_char_printable.
Qed.

Lemma digit_printable (c : ascii) : JsString.isDigit c = true -> printable c = true.
Proof. destruct c as [[] [] [] [] [] [] [] []]; intros H; try reflexivity; discriminate. Qed.

Lemma Z_to_string_printable (z : Z) : JsString.all printable (Json.Z_to_string z) = true.
Proof.
  assert (H : forall m, JsString.all printable (JsString.N_to_string m) = true).
  { intros m. apply (all_impl JsString.isDigit); [apply digit_printable|].
    apply string_of_uint_digits. }
  destruct z; simpl; [reflexivity | apply H | apply H].
Qed.

Lemma join_all (p : ascii -> bool) (sep : string) (parts : list string) :
  JsString.all p sep = true ->
  Forall (fun part => JsString.all p part = true) parts ->
  JsString.all p (JsString.join sep parts) = true.
Proof.
  intros Hsep. induction 1 as [|part rest Hpart Hrest IH]; [reflexivity|].
  destruct rest as [|q rest]; [exact Hpart|].
  rewrite join_cons by discriminate. now rewrite !all_append, Hpart, Hsep, IH.
Qed.

Lemma wrap_printable (opening closing gap stepback indent : string) (partial : list string) :
  JsString.all printable opening = true -> JsString.all printable closing = true ->
  JsString.all printable stepback = true -> JsString.all printable indent = true ->
  Forall (fun part => JsString.all printable part = true) partial ->
  JsString.all printable (Json.wrap opening closing gap stepback indent partial) = true.
Proof.
  intros Ho Hc Hs Hi Hparts. unfold Json.wrap.
  destruct partial as [|p rest]; [now rewrite all_append, Ho, Hc|].
  destruct (JsString.isEmpty gap).
  - rewrite !all_append, Ho, Hc, join_all; [reflexivity | reflexivity | exact Hparts].
  - rewrite !all_append, Ho, Hc, Hs, Hi, join_all; [reflexivity | | exact Hparts].
    now rewrite !all_append, Hi.
Qed.

Lemma serialize_printable (gap : string) (v : json) :
  JsString.all printable gap = true ->
  forall stepback,
    JsString.all printable stepback = true ->
    JsString.all printable (Json.serialize gap stepback v) = true.
Proof.
  intros Hgap.
  induction v as [| [] | z | s | items IH | members IH] using json_induction;
    intros stepback Hs; try reflexivity.
  - apply Z_to_string_printable.
  - apply QuoteJSONString_printable.
  - cbn [Json.serialize].
    assert (Hi : JsString.all printable (stepback ++ gap) = true)
      by now rewrite all_append, Hs, Hgap.
    apply wrap_printable; try assumption; try reflexivity.
    rewrite Forall_map. eapply Forall_impl; [|exact IH]. intros x Hx. now apply Hx.
  - cbn [Json.serialize].
    assert (Hi : JsString.all printable (stepback ++ gap) = true)
      by now rewrite all_append, Hs, Hgap.
    apply wrap_printable; try assumption; try reflexivity.
    rewrite Forall_map. eapply Forall_impl; [|exact IH]. intros [k x] Hx. cbn [fst snd] in *.
    rewrite !all_append, QuoteJSONString_printable, (Hx _ Hi).
    destruct (JsString.isEmpty gap); reflexivity.
Qed.

Lemma printable_no_cr (s : string) : JsString.all printable s = true -> no_cr s = true.
Proof.
  apply all_impl. intros c.
  destruct c as [[] [] [] [] [] [] [] []]; intros H; try reflexivity; discriminate.
Qed.

Lemma spaces_printable (k : nat) : JsString.all printable (Json.spaces k) = true.
Proof. induction k as [|k IH]; [reflexivity | exact IH]. Qed.

Lemma serialize_has_newline (gap stepback : string) (v : json) :
  JsString.isEmpty gap = false -> has_elements v = true ->
  1 <= count_lf (Json.serialize gap stepback v).
Proof.
  intros Hgap Hv. destruct v as [| | | | [|x xs] | [|m ms]]; try discriminate;
    cbn [Json.serialize]; unfold Json.wrap; cbn [map]; rewrite Hgap;
    rewrite !count_lf_app; simpl; lia.
Qed.

(** ** C3: writing a manifest back *)

Section Canonical.

Variable n : nat.
Hypothesis n_wide : 2 <= n.
Variable le : string.
Hypothesis le_newline : le = DetectNewline.LF \/ le = DetectNewline.CRLF.

Lemma walk_elements (ignore : bool) (v : json) :
  has_elements v = true ->
  forall st, scanned n 0 st ->
    exists st',
      stream ignore (layout le (Json.spaces n) (Json.spaces 0) v) (st, InLine)
      = (st', InLine)
      /\ scanned n 0 st'
      /\ DetectIndent.indents st' <> [].
Proof.
  intros Hv st Hst. destruct v as [| | | | [|x xs] | [|m ms]]; try discriminate;
    cbn [layout].
  - apply (walk_container ignore n n_wide le le_newline 0 "[" "]"); try reflexivity;
      try assumption; [now left | | discriminate].
    rewrite Forall_map, Forall_forall. intros y _. split.
    + apply value_start_solid, layout_start.
    + rewrite spaces_app. apply walks_layout; try assumption. right. lia.
  - apply (walk_container ignore n n_wide le le_newline 0 "{" "}"); try reflexivity;
      try assumption; [now left | | discriminate].
    rewrite Forall_map, Forall_forall. intros [k y] _. cbn [fst snd]. split; [reflexivity|].
    apply walks_app; [apply walks_none, QuoteJSONString_no_newline|].
    apply walks_app; [apply walks_none; reflexivity|].
    apply walks_app;
      [apply walks_none; destruct (JsString.isEmpty (Json.spaces n)); reflexivity|].
    rewrite spaces_app. apply walks_layout; try assumption. right. lia.
Qed.

Lemma flat_no_newline (newline gap stepback : string) (v : json) :
  has_elements v = false -> no_newline (layout newline gap stepback v) = true.
Proof.
  destruct v as [| [] | z | s | [|x xs] | [|m ms]]; try discriminate; intros _;
    try reflexivity.
  - apply Z_to_string_no_newline.
  - apply QuoteJSONString_no_newline.
Qed.

Lemma flat_layout (newline gap stepback newline' gap' stepback' : string) (v : json) :
  has_elements v = false ->
  layout newline gap stepback v = layout newline' gap' stepback' v.
Proof. destruct v as [| [] | z | s | [|x xs] | [|m ms]]; try discriminate; reflexivity. Qed.

(** The map of indents of the text: empty for a value without elements, and
    else the one entry of the indent of [n] spaces. *)
Lemma indents_canonical (ignore : bool) (v : json) (k : nat) :
  let m := DetectIndent.makeIndentsMap
             (layout le (Json.spaces n) EmptyString v ++ copies k le) ignore in
  if has_elements v
  then exists used weight, m = [(Some (DetectIndent.SPACE, n), (S used, weight))]
  else m = [].
Proof.
  cbv zeta. rewrite makeIndentsMap_stream, stream_app.
  rewrite stream_solid by apply value_start_solid, layout_start.
  cbn [enter].
  destruct (scanned_reset ignore n 0 DetectIndent.initial_scan (scanned_initial n))
    as [Hreset Hsame].
  set (st0 := DetectIndent.scan_indent ignore DetectIndent.initial_scan None) in *.
  destruct (has_elements v) eqn:Hv.
  - destruct (walk_elements ignore v Hv st0 Hreset) as (st1 & H1 & Hst1 & Hne).
    change EmptyString with (Json.spaces 0). rewrite H1.
    destruct (stream_trailing ignore n le le_newline k st1 InLine Hst1 (or_introl eq_refl))
      as (st2 & pos & H2 & Hpos & Hst2 & Hind).
    rewrite H2.
    assert (Hfinal : fst (feed ignore "010" (st2, pos)) = st2)
      by (destruct Hpos as [-> | ->]; reflexivity).
    rewrite Hfinal, Hind.
    destruct Hst1 as ([Hempty | Hone] & _); [congruence | exact Hone].
  - rewrite stream_inline by now apply flat_no_newline.
    destruct (stream_trailing ignore n le le_newline k st0 InLine Hreset (or_introl eq_refl))
      as (st2 & pos & H2 & Hpos & Hst2 & Hind).
    rewrite H2.
    assert (Hfinal : fst (feed ignore "010" (st2, pos)) = st2)
      by (destruct Hpos as [-> | ->]; reflexivity).
    rewrite Hfinal, Hind. exact Hsame.
Qed.

Lemma detectIndent_canonical (v : json) (k : nat) :
  DetectIndent.amount
    (DetectIndent.detectIndent (layout le (Json.spaces n) EmptyString v ++ copies k le))
  = if has_elements v then n else 0.
Proof.
  unfold DetectIndent.detectIndent.
  pose proof (indents_canonical true v k) as H1.
  pose proof (indents_canonical false v k) as H2.
  cbv zeta in H1, H2. destruct (has_elements v).
  - destruct H1 as (u & w & ->). reflexivity.
  - rewrite H1, H2. reflexivity.
Qed.

End Canonical.

Lemma blank_is_delimited (w : string) : blank w = true -> delimited w = true.
Proof.
  destruct w as [|c w]; [reflexivity|]. unfold blank. simpl.
  intros H. apply andb_true_iff in H as [Hc _].
  destruct c as [[] [] [] [] [] [] [] []]; try discriminate; reflexivity.
Qed.

Lemma skip_ws_all_blank (w : string) : blank w = true -> Json.skip_ws w = EmptyString.
Proof.
  intros H. rewrite <- (append_empty_r w). now rewrite skip_ws_blank.
Qed.

Lemma parse_canonical (newline gap trailing : string) (v : json) :
  blank newline = true -> blank gap = true -> blank trailing = true ->
  well_formed v = true ->
  Json.parse (layout newline gap EmptyString v ++ trailing) = Some v.
Proof.
  intros Hnl Hgap Htrailing Hwf. unfold Json.parse.
  pose proof (parse_layout newline gap Hnl Hgap v Hwf
                (S (String.length (layout newline gap EmptyString v ++ trailing)))
                EmptyString EmptyString trailing) as H.
  cbn [append] in H. rewrite H.
  - now rewrite skip_ws_all_blank.
  - pose proof (need_layout newline gap v EmptyString). rewrite length_append. lia.
  - reflexivity.
  - reflexivity.
  - now apply blank_is_delimited.
Qed.

Lemma spaces_blank (k : nat) : blank (Json.spaces k) = true.
Proof. induction k as [|k IH]; [reflexivity | exact IH]. Qed.

Lemma spaces_no_newline (k : nat) : no_newline (Json.spaces k) = true.
Proof. induction k as [|k IH]; [reflexivity | exact IH]. Qed.

Lemma copies_blank (k : nat) (le : string) : blank le = true -> blank (copies k le) = true.
Proof.
  intros Hle. induction k as [|k IH]; [reflexivity|]. cbn [copies]. now apply blank_app.
Qed.

Lemma gap_of_spaces (n : nat) : n <= 10 -> Json.gap_of n = Json.spaces n.
Proof. intros H. unfold Json.gap_of. now rewrite Nat.min_r. Qed.

(** C3, as the specification states it, fails for a manifest that is not
    laid out as [JSON.stringify] lays it out: of a manifest indented by two
    spaces with an array on one line, [write()] spreads the array over three
    lines. *)
Lemma manifest_inline_array_rewritten :
  load_and_write Example.inline_manifest = Some Example.inline_manifest_written
  /\ String.eqb Example.inline_manifest_written Example.inline_manifest = false
  /\ String.length Example.inline_manifest = 39
  /\ String.length Example.inline_manifest_written = 47.
Proof. vm_compute. repeat split. Qed.

(** The amount of indentation, not the indentation, is what [JSONFile]
    keeps: a manifest indented by one tab is written with one space. *)
Lemma manifest_tab_indentation :
  DetectIndent.detectIndent Example.tab_manifest
  = DetectIndent.mkIndentation 1 (Some DetectIndent.TAB)
  /\ load_and_write Example.tab_manifest = Some Example.tab_manifest_written.
Proof. vm_compute. repeat split. Qed.

(** C3, amended.  Let the text of a manifest be the layout [JSON.stringify]
    gives a value ([n] spaces of indentation, [n] from 2 to 10) with the line
    ending LF or CRLF, followed by any number of line endings.  Then the
    constructor of [JSONFile] accepts the text and [write()] writes back
    exactly that text. *)
Theorem manifest_round_trip (v : json) (n k : nat) (le : string) :
  well_formed v = true ->
  2 <= n <= 10 ->
  le = DetectNewline.LF \/ le = DetectNewline.CRLF ->
  load_and_write (canonical v n le k) = Some (canonical v n le k).
Proof.
  intros Hwf [Hn2 Hn10] Hle.
  assert (Hle_blank : blank le = true) by (destruct Hle as [-> | ->]; reflexivity).
  assert (Hle_space : JsString.all JsString.isSpace le = true)
    by (destruct Hle as [-> | ->]; reflexivity).
  assert (Hbody : replace_newlines (Some le) (Json.stringify v n)
                  = layout le (Json.spaces n) EmptyString v).
  { unfold Json.stringify. rewrite gap_of_spaces by exact Hn10.
    apply (replace_newlines_serialize (Some le)); [apply spaces_no_newline | reflexivity]. }
  assert (Htext : canonical v n le k = layout le (Json.spaces n) EmptyString v ++ copies k le)
    by (unfold canonical; now rewrite Hbody).
  unfold load_and_write, JSONFile_of_contents.
  rewrite Htext at 1.
  rewrite parse_canonical;
    [| exact Hle_blank | apply spaces_blank | now apply copies_blank | exact Hwf].
  cbn [option_map]. f_equal. unfold JSONFile_contents.
  cbn [pkg lineEndings indent trailingWhitespace].
  rewrite Htext.
  rewrite trailing_whitespace_canonical;
    [| apply layout_end_solid | exact Hle_space].
  rewrite (detectIndent_canonical n Hn2 le Hle).
  f_equal.
  destruct (has_elements v) eqn:Hv.
  - assert (Hdetect : DetectNewline.detectNewline
                        (layout le (Json.spaces n) EmptyString v ++ copies k le) = Some le).
    { rewrite <- Hbody, <- replace_newlines_copies, <- replace_newlines_app.
      apply detectNewline_replaced; [exact Hle | |].
      - apply printable_no_cr. rewrite all_append. unfold Json.stringify.
        rewrite serialize_printable; [| apply spaces_printable | reflexivity].
        apply andb_true_iff. split; [reflexivity|].
        clear. induction k as [|k IH]; [reflexivity | exact IH].
      - rewrite count_lf_app. unfold Json.stringify.
        pose proof (serialize_has_newline (Json.gap_of n) EmptyString v) as Hnl.
        rewrite gap_of_spaces in * by exact Hn10.
        assert (Hgap : JsString.isEmpty (Json.spaces n) = false)
          by (apply spaces_not_empty; lia).
        specialize (Hnl Hgap Hv). lia. }
    rewrite Hdetect. exact Hbody.
  - unfold Json.stringify.
    rewrite (replace_newlines_serialize _ (Json.gap_of 0)) by reflexivity.
    now apply flat_layout.
Qed.

(** C3 on the manifest of [b] of the example repository: it is the layout
    of its value with two spaces, LF and one trailing line ending, and is
    written back as it was read. *)
Lemma manifest_round_trip_witness :
  canonical Example.package_b 2 DetectNewline.LF 1 = Example.manifest_b
  /\ load_and_write Example.manifest_b = Some Example.manifest_b.
Proof.
  split; [reflexivity|].
  apply (manifest_round_trip Example.package_b 2 1 DetectNewline.LF);
    [reflexivity | lia | left; reflexivity].
Defined.

(** * Further properties of the plugin *)

(** ** [publish]: every way out *)

Lemma exec_resolved (command : string) (st : state) (rest : list reply) :
  replies st = Resolved :: rest ->
  exec command st = (Returns tt, set_replies rest (add_executed command st)).
Proof. unfold exec. now intros ->. Qed.

Lemma exec_rejected (command err : string) (st : state) (rest : list reply) :
  replies st = Rejected err :: rest ->
  exec command st = (Throws (ExecError err), set_replies rest (add_executed command st)).
Proof. unfold exec. now intros ->. Qed.

Lemma update_nth_length {A : Type} (l : list A) (i : nat) (w : A) :
  i < List.length l ->
  List.length (firstn i l ++ w :: skipn (S i) l)%list = List.length l.
Proof.
  intros Hi. rewrite length_app. cbn [List.length].
  rewrite length_firstn, length_skipn. lia.
Qed.

Lemma last_cons_default {A : Type} (l : list A) :
  forall a d d' : A, last (a :: l) d = last (a :: l) d'.
Proof.
  induction l as [|b l IH]; intros a d d'; [reflexivity|].
  change (last (b :: l) d = last (b :: l) d'). apply IH.
Qed.

Section PublishSteps.

Variable self : plugin.

(** One attempt of [publish] on a workspace that is not private. *)
Lemma publish_attempt (fuel : nat) (tag : option (option string)) (i : nat)
  (w : workspaceInfo) (access : option string) (st : state) (workspace_name : string) :
  name w = Some (JString workspace_name) ->
  isPrivate w = false ->
  publish self (S fuel) tag i w access st
  = match exec (publish_command self tag access (otp st)) st with
    | (Returns _, st') => mark_released i st'
    | (Stuck, st') => (Stuck, st')
    | (Throws (ExecError err as e), st') =>
        if asks_otp err then
          ((match otp st' with
            | Some _ => warn "The provided OTP is incorrect or has expired."
            | None => ret tt
            end) ;;;
           newOtp <- prompt_otp ;;
           modify (set_otp (Some newOtp)) ;;;
           publish self fuel tag i w access) st'
        else if JsString.startsWith workspace_name "@"
                && JsString.includes err "private packages" then
          (publishAsPublic <- prompt_confirm ;;
           if publishAsPublic
           then publish self fuel tag i w (Some "public")
           else warn (workspace_name ++ " was not published.") ;;; throw e) st'
        else (Throws e, st')
    | (Throws e, st') => (Throws e, st')
    end.
Proof.
  intros Hname Hprivate. cbn [publish]. rewrite Hname, Hprivate. reflexivity.
Qed.

Lemma publish_resolved (fuel : nat) (tag : option (option string)) (i : nat)
  (w : workspaceInfo) (access : option string) (st : state) (workspace_name : string)
  (ws : workspaceState) (rest : list reply) :
  name w = Some (JString workspace_name) ->
  isPrivate w = false ->
  nth_error (wstates st) i = Some ws ->
  replies st = Resolved :: rest ->
  publish self (S fuel) tag i w access st
  = (Returns tt,
     set_wstate i (mkWorkspaceState true (pkgInfo ws))
       (set_replies rest (add_executed (publish_command self tag access (otp st)) st))).
Proof.
  intros Hname Hprivate Hws Hreplies.
  rewrite (publish_attempt fuel tag i w access st workspace_name Hname Hprivate).
  rewrite (exec_resolved _ st rest Hreplies).
  unfold mark_released, bind, get, modify. cbn [wstates set_replies add_executed].
  now rewrite Hws.
Qed.


(** X1.  However often the registry asks for a one-time password, [publish]
    asks the user and tries again: after [rounds] failed attempts and one
    that succeeds the workspace is released; each attempt ran the command
    with the password of the moment, the last password is kept for the
    workspaces that follow, and a warning was logged for each attempt that
    failed with a password. *)
Theorem publish_otp_rounds (rounds : list (string * string)) :
  forall (fuel : nat) (tag : option (option string)) (i : nat) (w : workspaceInfo)
         (access : option string) (st : state) (workspace_name : string)
         (ws : workspaceState) (rest : list reply),
    name w = Some (JString workspace_name) ->
    isPrivate w = false ->
    nth_error (wstates st) i = Some ws ->
    forallb (fun r : string * string => asks_otp (fst r)) rounds = true ->
    replies st = (otp_rounds rounds ++ Resolved :: rest)%list ->
    List.length rounds < fuel ->
    exists st',
      publish self fuel tag i w access st = (Returns tt, st')
      /\ executed st'
         = (executed st
            ++ map (publish_command self tag access) (otp_values (otp st) rounds))%list
      /\ otp st' = last (otp_values (otp st) rounds) (otp st)
      /\ logs st' = (logs st ++ expired_warnings (otp st) rounds)%list
      /\ replies st' = rest
      /\ wstates st'
         = (firstn i (wstates st) ++ mkWorkspaceState true (pkgInfo ws)
            :: skipn (S i) (wstates st))%list
      /\ cwd st' = cwd st /\ disk st' = disk st.
Proof.
  induction rounds as [|[err code] rounds IH];
    intros fuel tag i w access st nm ws rest Hname Hprivate Hws Hotp Hreplies Hfuel.
  - destruct fuel as [|fuel]; [inversion Hfuel|].
    rewrite (publish_resolved fuel tag i w access st nm ws rest Hname Hprivate Hws Hreplies).
    eexists. split; [reflexivity|].
    cbn. rewrite app_nil_r. repeat split; reflexivity.
  - destruct fuel as [|fuel]; [inversion Hfuel|].
    cbn [forallb fst] in Hotp. apply andb_true_iff in Hotp as [Herr Hotp].
    rewrite (publish_attempt fuel tag i w access st nm Hname Hprivate).
    cbn [otp_rounds flat_map fst snd app] in Hreplies.
    rewrite (exec_rejected _ err st _ Hreplies). rewrite Herr.
    set (st1 := set_replies _ (add_executed _ st)).
    set (st2 := match otp st with Some _ => add_log expired_warning st1 | None => st1 end).
    set (st3 := set_otp (Some code) (set_replies (otp_rounds rounds ++ Resolved :: rest)%list st2)).
    assert (Hstep : ((match otp st1 with
                      | Some _ => warn "The provided OTP is incorrect or has expired."
                      | None => ret tt
                      end) ;;;
                     newOtp <- prompt_otp ;;
                     modify (set_otp (Some newOtp)) ;;;
                     publish self fuel tag i w access) st1
                    = publish self fuel tag i w access st3).
    { unfold bind, prompt_otp, modify, warn, ret. subst st3 st2 st1.
      cbn [otp set_replies add_executed]. destruct (otp st); reflexivity. }
    rewrite Hstep.
    assert (Hfields : wstates st3 = wstates st /\ executed st3
                      = (executed st ++ [publish_command self tag access (otp st)])%list
                      /\ logs st3 = (logs st ++ match otp st with
                                                | Some _ => [expired_warning]
                                                | None => []
                                                end)%list
                      /\ cwd st3 = cwd st /\ disk st3 = disk st).
    { subst st3 st2 st1. destruct (otp st); cbn; rewrite ?app_nil_r; repeat split; reflexivity. }
    destruct Hfields as (Hw3 & He3 & Hl3 & Hc3 & Hd3).
    destruct (IH fuel tag i w access st3 nm ws rest Hname Hprivate) as
      (st' & Hrun & Hexec & Hlast & Hlogs & Hrest & Hwst & Hcwd & Hdisk);
      [now rewrite Hw3 | exact Hotp | reflexivity | simpl in Hfuel; lia |].
    exists st'. split; [exact Hrun|].
    assert (Ho3 : otp st3 = Some code) by reflexivity.
    rewrite Ho3 in *. rewrite He3 in Hexec. rewrite Hl3 in Hlogs. rewrite Hw3 in Hwst.
    split. { rewrite Hexec, <- app_assoc. reflexivity. }
    split. { rewrite Hlast. unfold otp_values. cbn [map snd].
             change (last (otp st :: Some code :: ?l) (otp st))
               with (last (Some code :: l) (otp st)).
             apply last_cons_default. }
    split. { rewrite Hlogs, <- app_assoc. f_equal. unfold expired_warnings.
             cbn [otp_values map snd removelast].
             destruct (otp st); reflexivity. }
    split; [exact Hrest|]. split; [exact Hwst|].
    split; congruence.
Qed.

(** X2.  When the registry refuses a scoped package as private and the user
    agrees to publish it as public, [publish] runs the command again with
    [--access public], whatever access it was called with, and the workspace
    is released when that attempt succeeds. *)
Theorem publish_as_public (fuel : nat) (tag : option (option string)) (i : nat)
  (w : workspaceInfo) (access : option string) (st : state) (workspace_name err : string)
  (ws : workspaceState) (rest : list reply) :
  name w = Some (JString workspace_name) ->
  JsString.startsWith workspace_name "@" = true ->
  isPrivate w = false ->
  nth_error (wstates st) i = Some ws ->
  asks_otp err = false ->
  JsString.includes err "private packages" = true ->
  replies st = Rejected err :: ConfirmAnswer true :: Resolved :: rest ->
  exists st',
    publish self (S (S fuel)) tag i w access st = (Returns tt, st')
    /\ executed st'
       = (executed st ++ [publish_command self tag access (otp st);
                          publish_command self tag (Some "public") (otp st)])%list
    /\ replies st' = rest
    /\ wstates st'
       = (firstn i (wstates st) ++ mkWorkspaceState true (pkgInfo ws)
          :: skipn (S i) (wstates st))%list
    /\ logs st' = logs st /\ otp st' = otp st /\ cwd st' = cwd st /\ disk st' = disk st.
Proof.
  intros Hname Hscoped Hprivate Hws Hotp Hpattern Hreplies.
  rewrite (publish_attempt (S fuel) tag i w access st workspace_name Hname Hprivate).
  rewrite (exec_rejected _ err st _ Hreplies), Hotp, Hscoped, Hpattern.
  cbn [andb]. unfold bind at 1, prompt_confirm. cbn [replies set_replies].
  set (st1 := set_replies (Resolved :: rest) _).
  rewrite (publish_resolved fuel tag i w (Some "public") st1 workspace_name ws rest
             Hname Hprivate Hws eq_refl).
  eexists. split; [reflexivity|].
  subst st1. cbn. rewrite <- app_assoc. repeat split; reflexivity.
Qed.

End PublishSteps.

(** Two requests for a one-time password, then success: three commands, the
    last password is kept. *)
Lemma publish_otp_rounds_witness :
  exists st',
    publish Example.scoped_self 3 (Some (Some "latest")) 1 Example.plain None Scenario.otp_start
    = (Returns tt, st')
    /\ executed st'
       = ["npm publish . --tag latest"; "npm publish . --tag latest --otp 123456";
          "npm publish . --tag latest --otp 654321"]
    /\ otp st' = Some "654321"
    /\ logs st' = [expired_warning].
Proof.
  destruct (publish_otp_rounds Example.scoped_self
              [(Scenario.otp_required, "123456"); (Scenario.otp_required, "654321")]
              3 (Some (Some "latest")) 1 Example.plain None Scenario.otp_start "b"
              (mkWorkspaceState false
                 (mkJSONFile "/repo/packages/b/package.json" Example.package_b (Some nl) 2 nl))
              [] eq_refl eq_refl eq_refl eq_refl eq_refl (le_n 3))
    as (st' & Hrun & Hexec & Hotp & Hlogs & _).
  exists st'. split; [exact Hrun|]. split; [exact Hexec|]. split; [exact Hotp | exact Hlogs].
Defined.

Lemma publish_as_public_witness :
  exists st',
    publish Example.scoped_self 2 (Some (Some "latest")) 0 Example.scoped None
      Scenario.public_start
    = (Returns tt, st')
    /\ executed st'
       = ["npm publish . --tag latest"; "npm publish . --tag latest --access public"]
    /\ option_map isReleased (nth_error (wstates st') 0) = Some true.
Proof.
  destruct (publish_as_public Example.scoped_self 0 (Some (Some "latest")) 0 Example.scoped None
              Scenario.public_start "@scope/a" Example.payment_required
              (mkWorkspaceState false
                 (mkJSONFile "/repo/packages/a/package.json"
                    (JObject [("name", JString "a"); ("version", JString "1.0.0")])
                    (Some nl) 2 nl))
              [] eq_refl eq_refl eq_refl eq_refl eq_refl eq_refl eq_refl)
    as (st' & Hrun & Hexec & _ & Hwst & _).
  exists st'. split; [exact Hrun|]. split; [exact Hexec|].
  rewrite Hwst. reflexivity.
Defined.

(** ** [release]: all the workspaces, or up to the first failure *)

Section Release.

Variable self : plugin.

Lemma publish_private (fuel : nat) (tag : option (option string)) (i : nat)
  (w : workspaceInfo) (access : option string) (st : state) :
  named w = true ->
  isPrivate w = true ->
  publish self (S fuel) tag i w access st = (Returns tt, add_log (skip_warning w) st).
Proof.
  unfold named, skip_warning. intros Hname Hprivate. cbn [publish].
  destruct (name w) as [[| | |nm| |]|]; try discriminate Hname.
  rewrite Hprivate. reflexivity.
Qed.


Section PublishAll.

Variable fuel : nat.
Variable tag : option (option string).

Let publish_each : nat -> workspaceInfo -> M unit :=
  fun i workspaceInfo => publish self (S fuel) tag i workspaceInfo None.

Lemma publish_all_from (todo : list workspaceInfo) :
  forall (i : nat) (st : state) (rest : list reply),
    forallb named todo = true ->
    i + List.length todo <= List.length (wstates st) ->
    replies st = (repeat Resolved (List.length (public_workspaces todo)) ++ rest)%list ->
    exists st',
      eachWorkspace_from self publish_each i todo st = (Returns tt, st')
      /\ executed st'
         = (executed st ++ repeat (publish_command self tag None (otp st))
                             (List.length (public_workspaces todo)))%list
      /\ replies st' = rest /\ otp st' = otp st /\ disk st' = disk st
      /\ logs st' = (logs st ++ map skip_warning (private_workspaces todo))%list
      /\ List.length (wstates st') = List.length (wstates st)
      /\ (forall k, k < i \/ i + List.length todo <= k ->
            nth_error (wstates st') k = nth_error (wstates st) k)
      /\ (forall j w ws,
            nth_error todo j = Some w -> nth_error (wstates st) (i + j) = Some ws ->
            nth_error (wstates st') (i + j) = Some (released_after w ws))
      /\ cwd st' = match todo with [] => cwd st | _ => context_root self end.
Proof.
  induction todo as [|w todo IH]; intros i st rest Hnamed Hlen Hreplies.
  - exists st. cbn. rewrite !app_nil_r. repeat split; try reflexivity.
    + exact Hreplies.
    + intros j w ws Hj. destruct j; discriminate Hj.
  - cbn [forallb] in Hnamed. apply andb_true_iff in Hnamed as [Hw Hnamed].
    cbn [List.length] in Hlen.
    rewrite eachWorkspace_from_step. unfold publish_each at 1.
    destruct (isPrivate w) eqn:Hprivate.
    + rewrite (publish_private fuel tag i w None _ Hw Hprivate).
      set (st1 := set_cwd (context_root self) _).
      destruct (IH (S i) st1 rest Hnamed) as
        (st' & Hrun & Hexec & Hrest & Hotp & Hdisk & Hlogs & Hlength & Hframe & Hdone & Hcwd).
      { subst st1. cbn [wstates set_cwd add_log]. lia. }
      { subst st1. cbn [replies set_cwd add_log]. rewrite Hreplies.
        unfold public_workspaces. cbn [filter]. now rewrite Hprivate. }
      exists st'. split; [exact Hrun|].
      unfold public_workspaces, private_workspaces in *. cbn [filter]. rewrite Hprivate.
      cbn [negb map]. subst st1. cbn [executed otp disk logs wstates cwd set_cwd add_log] in *.
      split; [exact Hexec|]. split; [exact Hrest|]. split; [exact Hotp|].
      split; [exact Hdisk|].
      split. { rewrite Hlogs, <- app_assoc. reflexivity. }
      split; [exact Hlength|].
      split. { intros k Hk. cbn [List.length] in Hk. apply Hframe. lia. }
      split.
      { intros j w0 ws Hj Hws. destruct j as [|j].
        - cbn in Hj. injection Hj as <-. rewrite Nat.add_0_r in *.
          rewrite Hframe by lia. rewrite Hws. unfold released_after.
          rewrite Hprivate. now destruct ws.
        - cbn in Hj. replace (i + S j) with (S i + j) in * by lia.
          now apply Hdone. }
      destruct todo; [exact Hcwd | exact Hcwd].
    + assert (Hi : i < List.length (wstates st)) by lia.
      destruct (nth_error (wstates st) i) as [ws0|] eqn:Hws0;
        [|apply nth_error_None in Hws0; lia].
      unfold named in Hw. destruct (name w) as [[| | |nm| |]|] eqn:Hname; try discriminate Hw.
      assert (Hreplies0 : replies (set_cwd (root w) st)
                          = Resolved :: (repeat Resolved (List.length (public_workspaces todo))
                                         ++ rest)%list).
      { cbn [replies set_cwd]. rewrite Hreplies. unfold public_workspaces. cbn [filter].
        rewrite Hprivate. reflexivity. }
      rewrite (publish_resolved self fuel tag i w None (set_cwd (root w) st) nm ws0 _
                 Hname Hprivate Hws0 Hreplies0).
      set (st1 := set_cwd (context_root self) _).
      assert (Hw1 : wstates st1
                    = (firstn i (wstates st) ++ mkWorkspaceState true (pkgInfo ws0)
                       :: skipn (S i) (wstates st))%list) by reflexivity.
      destruct (IH (S i) st1 rest Hnamed) as
        (st' & Hrun & Hexec & Hrest & Hotp & Hdisk & Hlogs & Hlength & Hframe & Hdone & Hcwd).
      { rewrite Hw1, update_nth_length by exact Hi. lia. }
      { reflexivity. }
      exists st'. split; [exact Hrun|].
      unfold public_workspaces, private_workspaces in *. cbn [filter]. rewrite Hprivate.
      cbn [negb List.length repeat].
      rewrite Hw1 in *.
      assert (Hfields : executed st1
                        = (executed st ++ [publish_command self tag None (otp st)])%list
                        /\ otp st1 = otp st /\ disk st1 = disk st /\ logs st1 = logs st)
        by (repeat split; reflexivity).
      destruct Hfields as (He1 & Ho1 & Hd1 & Hl1).
      rewrite He1, Ho1 in Hexec. rewrite Ho1 in Hotp. rewrite Hd1 in Hdisk.
      rewrite Hl1 in Hlogs.
      split. { rewrite Hexec, <- app_assoc. reflexivity. }
      split; [exact Hrest|]. split; [exact Hotp|]. split; [exact Hdisk|].
      split; [exact Hlogs|].
      split. { rewrite Hlength. now apply update_nth_length. }
      split.
      { intros k Hk. cbn [List.length] in Hk. rewrite Hframe by lia.
        apply (update_nth_other _ i k _ ws0 Hws0). lia. }
      split.
      { intros j w0 ws Hj Hws. destruct j as [|j].
        - cbn in Hj. injection Hj as <-. rewrite Nat.add_0_r in *.
          rewrite Hframe by lia. rewrite (update_nth_same _ i _ ws0 Hws0).
          unfold released_after. rewrite Hprivate. congruence.
        - cbn in Hj. replace (i + S j) with (S i + j) in * by lia.
          apply Hdone; [exact Hj|].
          rewrite (update_nth_other _ i (S i + j) _ ws0 Hws0) by lia. exact Hws. }
      destruct todo; [exact Hcwd | exact Hcwd].
Qed.

End PublishAll.

Lemma release_confirmed (fuel : nat) (st : state) (rest : list reply) :
  options_publish self = true ->
  replies st = ConfirmAnswer true :: rest ->
  release self fuel st
  = eachWorkspace_from self
      (fun i workspaceInfo => publish self fuel (context_distTag st) i workspaceInfo None)
      0 (workspaces self) (set_replies rest (set_otp (options_otp self) st)).
Proof.
  intros Hpublish Hreplies. unfold release. rewrite Hpublish. cbn [negb].
  unfold bind, modify, get, prompt_confirm. cbn [replies set_otp]. rewrite Hreplies.
  reflexivity.
Qed.




End Release.




(** ** [JSONFile]: what [write()] puts on disk *)

(** Without a gap the layout is one line, whatever the line ending. *)
Lemma layout_compact (newline newline' : string) (v : json) :
  forall stepback stepback',
    layout newline EmptyString stepback v = layout newline' EmptyString stepback' v.
Proof.
  induction v as [| | | |items IH|members IH] using json_induction;
    intros stepback stepback'; try reflexivity.
  - cbn [layout]. unfold wrap_with. cbn [JsString.isEmpty].
    assert (Hmap : map (layout newline EmptyString (stepback ++ EmptyString)) items
                   = map (layout newline' EmptyString (stepback' ++ EmptyString)) items).
    { induction IH as [|x xs Hx _ IHxs]; [reflexivity|].
      cbn [map]. now rewrite IHxs, (Hx _ (stepback' ++ EmptyString)). }
    now rewrite Hmap.
  - cbn [layout]. unfold wrap_with. cbn [JsString.isEmpty].
    assert (Hmap : map (fun kv : string * json =>
                          Json.QuoteJSONString (fst kv) ++ ":" ++ EmptyString
                          ++ layout newline EmptyString (stepback ++ EmptyString) (snd kv))
                       members
                   = map (fun kv : string * json =>
                            Json.QuoteJSONString (fst kv) ++ ":" ++ EmptyString
                            ++ layout newline' EmptyString (stepback' ++ EmptyString) (snd kv))
                         members).
    { induction IH as [|x xs Hx _ IHxs]; [reflexivity|].
      cbn [map]. now rewrite IHxs, (Hx _ (stepback' ++ EmptyString)). }
    now rewrite Hmap.
Qed.

Lemma gap_of_blank (n : nat) : blank (Json.gap_of n) = true.
Proof. apply spaces_blank. Qed.

Lemma gap_of_no_newline (n : nat) : no_newline (Json.gap_of n) = true.
Proof. apply spaces_no_newline. Qed.

(** The text [write()] writes, for a known line ending. *)
Lemma JSONFile_contents_layout (f : JSONFile) (le : option string) :
  lineEndings f = le ->
  JSONFile_contents f
  = layout (replacement_text le) (Json.gap_of (indent f)) EmptyString (pkg f)
    ++ trailingWhitespace f.
Proof.
  intros <-. unfold JSONFile_contents, Json.stringify.
  now rewrite (replace_newlines_serialize _ _ (gap_of_no_newline (indent f))).
Qed.

(** X6.  Whatever the manifest in memory has become, the text [write()] puts on
    disk is read back by [JSON.parse] as that manifest, provided the line
    ending of the file is known (or the layout has one line only) and the
    trailing white space is white space of JSON. *)
Theorem written_manifest_parses (f : JSONFile) :
  well_formed (pkg f) = true ->
  keeps_lines f = true ->
  blank (trailingWhitespace f) = true ->
  Json.parse (JSONFile_contents f) = Some (pkg f).
Proof.
  intros Hwf Hlines Htrailing. unfold keeps_lines in Hlines.
  rewrite (JSONFile_contents_layout f _ eq_refl).
  destruct (lineEndings f) as [le|].
  - apply parse_canonical; [exact Hlines | apply gap_of_blank | exact Htrailing | exact Hwf].
  - apply orb_true_iff in Hlines as [Hzero | Hflat].
    + apply Nat.eqb_eq in Hzero. rewrite Hzero.
      change (Json.gap_of 0) with EmptyString.
      rewrite (layout_compact _ DetectNewline.LF _ _ EmptyString).
      now apply parse_canonical.
    + apply negb_true_iff in Hflat.
      rewrite (flat_layout _ _ _ DetectNewline.LF EmptyString EmptyString _ Hflat).
      now apply parse_canonical.
Qed.

Lemma parse_undefined_array (rest : string) :
  Json.parse (String "[" ("undefined" ++ rest)) = None.
Proof. reflexivity. Qed.

Lemma parse_undefined_object (rest : string) :
  Json.parse (String "{" ("undefined" ++ rest)) = None.
Proof. reflexivity. Qed.

Lemma written_manifest_parses_witness :
  Json.parse (JSONFile_contents Scenario.bumped_b) = Some (pkg Scenario.bumped_b).
Proof.
  apply (written_manifest_parses Scenario.bumped_b); reflexivity.
Defined.

(** X7.  A manifest without a line feed has no line ending to detect; when it is
    indented all the same (its one line starts with white space) and holds a
    member or an element, [write()] puts the text [undefined] where the
    layout has its line feeds: what it writes is no JSON text. *)
Theorem written_manifest_unreadable (f : JSONFile) :
  lineEndings f = None ->
  1 <= indent f ->
  has_elements (pkg f) = true ->
  Json.parse (JSONFile_contents f) = None
  /\ JsString.includes (JSONFile_contents f) "undefined" = true.
Proof.
  intros Hle Hindent Hv.
  rewrite (JSONFile_contents_layout f None Hle).
  assert (Hgap : exists g, Json.gap_of (indent f) = String " " g).
  { destruct (indent f) as [|n]; [inversion Hindent|].
    unfold Json.gap_of. change (Nat.min 10 (S n)) with (S (Nat.min 9 n)).
    now exists (Json.spaces (Nat.min 9 n)). }
  destruct Hgap as [g Hgap]. rewrite Hgap.
  destruct (pkg f) as [| | | |[|x xs]|[|m ms]]; try discriminate Hv;
    cbn [layout map]; unfold wrap_with; cbn [JsString.isEmpty replacement_text append];
    split; reflexivity.
Qed.

(** The constructor reads such a manifest, and [write()] spoils it. *)
Lemma written_manifest_unreadable_witness :
  option_map (fun f => (lineEndings f, indent f))
    (JSONFile_of_contents "package.json" Scenario.one_line_manifest) = Some (None, 2)
  /\ option_map (fun f => Json.parse (JSONFile_contents f))
       (JSONFile_of_contents "package.json" Scenario.one_line_manifest) = Some None
  /\ load_and_write Scenario.one_line_manifest = Some (qq "{undefined  'name': 'a'undefined}").
Proof.
  split; [reflexivity|]. split; [|reflexivity].
  assert (Hload : JSONFile_of_contents "package.json" Scenario.one_line_manifest
                  = Some (mkJSONFile "package.json" (JObject [("name", JString "a")])
                            None 2 EmptyString)) by reflexivity.
  destruct (written_manifest_unreadable
              (mkJSONFile "package.json" (JObject [("name", JString "a")]) None 2 EmptyString)
              eq_refl (le_S 1 1 (le_n 1)) eq_refl) as [Hparse _].
  rewrite Hload. cbn [option_map]. rewrite Hparse. reflexivity.
Defined.

Lemma detectNewline_canonical (v : json) (n k : nat) (le : string) :
  le = DetectNewline.LF \/ le = DetectNewline.CRLF ->
  has_elements v = true ->
  1 <= n ->
  DetectNewline.detectNewline (layout le (Json.spaces n) EmptyString v ++ copies k le)
  = Some le.
Proof.
  intros Hle Hv Hn.
  assert (Hbody : replace_newlines (Some le) (Json.serialize (Json.spaces n) EmptyString v)
                  = layout le (Json.spaces n) EmptyString v)
    by (apply (replace_newlines_serialize (Some le)); [apply spaces_no_newline | reflexivity]).
  rewrite <- Hbody, <- replace_newlines_copies, <- replace_newlines_app.
  apply detectNewline_replaced; [exact Hle | |].
  - apply printable_no_cr. rewrite all_append.
    rewrite serialize_printable; [| apply spaces_printable | reflexivity].
    clear. induction k as [|k IH]; [reflexivity | exact IH].
  - rewrite count_lf_app.
    assert (Hgap : JsString.isEmpty (Json.spaces n) = false)
      by (destruct n; [inversion Hn | reflexivity]).
    pose proof (serialize_has_newline (Json.spaces n) EmptyString v Hgap Hv). lia.
Qed.

(** X8.  A manifest file kept in the regular form (an indentation of 2 to 10
    spaces, the line ending LF or CRLF, line endings only after the value,
    and a value with a member or an element) is what the constructor builds
    from the text that [write()] writes: value, line ending, indentation and
    trailing white space all come back, whatever the value has become. *)
Theorem written_manifest_reloads (f : JSONFile) (le : string) (k : nat) :
  well_formed (pkg f) = true ->
  has_elements (pkg f) = true ->
  2 <= indent f <= 10 ->
  lineEndings f = Some le ->
  le = DetectNewline.LF \/ le = DetectNewline.CRLF ->
  trailingWhitespace f = copies k le ->
  JSONFile_of_contents (filename f) (JSONFile_contents f) = Some f.
Proof.
  intros Hwf Hv [Hn2 Hn10] Hlines Hle Htrailing.
  assert (Hle_blank : blank le = true) by (destruct Hle as [-> | ->]; reflexivity).
  assert (Hle_space : JsString.all JsString.isSpace le = true)
    by (destruct Hle as [-> | ->]; reflexivity).
  rewrite (JSONFile_contents_layout f _ Hlines), Htrailing.
  rewrite gap_of_spaces by exact Hn10. cbn [replacement_text].
  unfold JSONFile_of_contents.
  rewrite parse_canonical;
    [| exact Hle_blank | apply spaces_blank | now apply copies_blank | exact Hwf].
  rewrite detectNewline_canonical by (trivial; lia).
  rewrite (detectIndent_canonical (indent f) Hn2 le Hle), Hv.
  rewrite trailing_whitespace_canonical; [| apply layout_end_solid | exact Hle_space].
  destruct f as [name v lines n tw]. cbn in *. now subst.
Qed.

Lemma written_manifest_reloads_witness :
  JSONFile_of_contents "/repo/packages/b/package.json" (JSONFile_contents Scenario.bumped_b)
  = Some Scenario.bumped_b.
Proof.
  apply (written_manifest_reloads Scenario.bumped_b DetectNewline.CRLF 2);
    [reflexivity | reflexivity | cbn; lia | reflexivity | right; reflexivity | reflexivity].
Defined.

(** ** [JSONFile]: what the constructor keeps *)

Lemma span_end_parts (p : ascii -> bool) (s : string) :
  forall body tail,
    JsString.span_end p s = (body, tail) ->
    s = body ++ tail
    /\ JsString.all p tail = true
    /\ (body = EmptyString \/ exists a c, body = a ++ String c EmptyString /\ p c = false).
Proof.
  induction s as [|c s IH]; intros body tail H.
  - injection H as <- <-. repeat split. now left.
  - cbn [JsString.span_end] in H.
    destruct (JsString.span_end p s) as [body' tail'].
    destruct (IH body' tail' eq_refl) as (-> & Htail & Hbody).
    destruct (JsString.isEmpty body' && p c) eqn:E; injection H as <- <-.
    + apply andb_true_iff in E as [Hempty Hc].
      destruct body'; [|discriminate Hempty].
      repeat split; [cbn; now rewrite Hc | now left].
    + repeat split; [exact Htail|]. right.
      destruct Hbody as [-> | (a & x & -> & Hx)].
      * exists EmptyString, c. split; [reflexivity|]. exact E.
      * exists (String c a), x. split; [reflexivity | exact Hx].
Qed.

Lemma count_newlines_total (s : string) :
  fst (DetectNewline.count_newlines s) + snd (DetectNewline.count_newlines s) = count_lf s.
Proof.
  assert (H : forall s,
             fst (DetectNewline.count_newlines s) + snd (DetectNewline.count_newlines s)
             = count_lf s
             /\ forall c, fst (DetectNewline.count_newlines (String c s))
                          + snd (DetectNewline.count_newlines (String c s))
                          = count_lf (String c s)).
  { clear s. induction s as [|d s [IH IHc]].
    - split; [reflexivity|]. intros c.
      destruct c as [[] [] [] [] [] [] [] []]; reflexivity.
    - split; [apply IHc|]. intros c.
      destruct (Ascii.eqb_spec c "013") as [-> | Hcr].
      + destruct (Ascii.eqb_spec d "010") as [-> | Hlf].
        * rewrite count_newlines_crlf. cbn [fst snd count_lf Ascii.eqb Bool.eqb].
          cbn. rewrite <- IH. lia.
        * specialize (IHc d).
          assert (E : DetectNewline.count_newlines (String "013" (String d s))
                      = DetectNewline.count_newlines (String d s)).
          { apply Ascii.eqb_neq in Hlf.
            destruct d as [[] [] [] [] [] [] [] []];
              first
                [ cbv in Hlf; discriminate Hlf
                | match goal with
                  | |- DetectNewline.count_newlines (String _ ?r) = _ =>
                      change ((let (crlf, lf) := DetectNewline.count_newlines r in (crlf, lf))
                              = DetectNewline.count_newlines r);
                      destruct (DetectNewline.count_newlines r); reflexivity
                  end ]. }
          rewrite E. cbn [count_lf]. cbn [Ascii.eqb Bool.eqb]. exact IHc.
      + specialize (IHc d). apply Ascii.eqb_neq in Hcr.
        destruct (Ascii.eqb_spec c "010") as [-> | Hlf].
        * rewrite count_newlines_lf. cbn [fst snd]. 
          change (count_lf (String "010" (String d s))) with (1 + count_lf (String d s)).
          lia.
        * apply Ascii.eqb_neq in Hlf.
          rewrite count_newlines_other by assumption.
          cbn [count_lf]. rewrite Hlf. exact IHc. }
  apply H.
Qed.

Lemma parse_value_spaces (fuel : nat) (s : string) :
  JsString.all JsString.isSpace s = true -> Json.parse_value fuel s = None.
Proof.
  destruct fuel as [|fuel]; [reflexivity|].
  induction s as [|c r IH]; intros H; [reflexivity|].
  cbn [JsString.all] in H. apply andb_true_iff in H as [Hc Hr].
  destruct (Json.isJsonSpace c) eqn:Hjson.
  - change (String c r) with (String c EmptyString ++ r).
    rewrite parse_value_lead by (unfold blank; cbn; now rewrite Hjson).
    now apply IH.
  - destruct c as [[] [] [] [] [] [] [] []];
      first [discriminate Hc | discriminate Hjson | reflexivity].
Qed.

(** X9.  What the constructor keeps of a text it accepts: the value the text
    parses to; no line ending when the text has no line feed, and LF or CRLF
    otherwise; and as trailing white space the white space that ends the
    text, all of it: the text is a body that ends with another character,
    followed by the trailing white space. *)
Theorem constructor_keeps (name contents : string) (f : JSONFile) :
  JSONFile_of_contents name contents = Some f ->
  filename f = name
  /\ Json.parse contents = Some (pkg f)
  /\ (lineEndings f = None /\ count_lf contents = 0
      \/ (lineEndings f = Some DetectNewline.LF \/ lineEndings f = Some DetectNewline.CRLF)
         /\ 1 <= count_lf contents)
  /\ JsString.all JsString.isSpace (trailingWhitespace f) = true
  /\ exists body, contents = body ++ trailingWhitespace f /\ ends_solid body.
Proof.
  unfold JSONFile_of_contents.
  destruct (Json.parse contents) as [v|] eqn:Hparse; [|discriminate].
  intros [= <-]. cbn [filename pkg lineEndings trailingWhitespace].
  split; [reflexivity|]. split; [reflexivity|]. split.
  { unfold DetectNewline.detectNewline.
    pose proof (count_newlines_total contents) as Htotal.
    destruct (DetectNewline.count_newlines contents) as [crlf lf]. cbn [fst snd] in Htotal.
    destruct (Nat.eqb_spec (crlf + lf) 0) as [Hzero | Hsome].
    - left. split; [reflexivity | lia].
    - right. split; [|lia]. destruct (lf <? crlf)%nat; [now right | now left]. }
  unfold DETECT_TRAILING_WHITESPACE.
  destruct (JsString.span_end JsString.isSpace contents) as [body tail] eqn:Hspan.
  destruct (span_end_parts _ _ _ _ Hspan) as (Hcontents & Htail & Hbody). cbn [snd].
  assert (Hsolid : ends_solid body).
  { destruct Hbody as [-> | Hsolid]; [|exact Hsolid].
    cbn [append] in Hcontents. subst tail.
    unfold Json.parse in Hparse. rewrite parse_value_spaces in Hparse by exact Htail.
    discriminate Hparse. }
  destruct tail as [|c tail]; cbn [JsString.isEmpty].
  - split; [reflexivity|]. exists body. split; [exact Hcontents | exact Hsolid].
  - split; [exact Htail|]. exists body. split; [exact Hcontents | exact Hsolid].
Qed.

Lemma constructor_keeps_witness :
  exists f,
    JSONFile_of_contents "package.json" Example.manifest_b = Some f
    /\ Json.parse Example.manifest_b = Some (pkg f)
    /\ lineEndings f = Some DetectNewline.LF
    /\ trailingWhitespace f = nl.
Proof.
  destruct (JSONFile_of_contents "package.json" Example.manifest_b) as [f|] eqn:Hload;
    [|discriminate Hload].
  exists f. split; [reflexivity|].
  destruct (constructor_keeps "package.json" Example.manifest_b f Hload)
    as (_ & Hparse & _ & _ & _).
  split; [exact Hparse|].
  injection Hload as <-. split; reflexivity.
Defined.

(** ** Versions: what [semver.coerce] finds in a specifier *)

(** The decimal text of a number within the safe range has at most sixteen
    digits. *)
Lemma of_uint_acc_lower (d : Decimal.uint) :
  forall acc : positive,
    (N.pos acc * 10 ^ N.of_nat (String.length (NilEmpty.string_of_uint d))
     <= N.pos (Pos.of_uint_acc d acc))%N.
Proof.
  induction d as [|d IH|d IH|d IH|d IH|d IH|d IH|d IH|d IH|d IH|d IH]; intros acc;
    cbn [NilEmpty.string_of_uint String.length Pos.of_uint_acc];
    [ rewrite N.mul_1_r; apply N.le_refl | .. ];
    (eapply N.le_trans; [|apply IH]);
    rewrite Nat2N.inj_succ, N.pow_succ_r';
    set (x := (10 ^ N.of_nat (String.length (NilEmpty.string_of_uint d)))%N);
    nia.
Qed.

Lemma N_to_string_length (n : N) :
  (n <= Semver.MAX_SAFE_INTEGER)%N ->
  String.length (JsString.N_to_string n) <= Semver.MAX_SAFE_COMPONENT_LENGTH.
Proof.
  intros Hn. unfold JsString.N_to_string, Semver.MAX_SAFE_COMPONENT_LENGTH.
  assert (Hnorm : N.to_uint n = Decimal.unorm (N.to_uint n)).
  { rewrite <- DecimalN.Unsigned.to_of. now rewrite DecimalN.Unsigned.of_to. }
  pose proof (DecimalN.Unsigned.of_to n) as Hof.
  pose proof (unorm_head (N.to_uint n)) as Hhead. rewrite <- Hnorm in Hhead.
  assert (Hbig : forall (l : Decimal.uint) (k : positive),
             n = N.pos (Pos.of_uint_acc l k) ->
             String.length (NilEmpty.string_of_uint l) <= 15).
  { intros l k Hl.
    destruct (Nat.le_gt_cases (String.length (NilEmpty.string_of_uint l)) 15) as [Hle | Hgt];
      [exact Hle | exfalso].
    pose proof (of_uint_acc_lower l k) as Hlow. rewrite <- Hl in Hlow.
    assert (Hpow : (10 ^ 16 <= 10 ^ N.of_nat (String.length (NilEmpty.string_of_uint l)))%N)
      by (apply N.pow_le_mono_r; lia).
    unfold Semver.MAX_SAFE_INTEGER in Hn.
    change (10 ^ 16)%N with 10000000000000000%N in Hpow. nia. }
  destruct (N.to_uint n) as [|l|l|l|l|l|l|l|l|l|l];
    cbn [NilEmpty.string_of_uint String.length];
    try (apply le_n_S; eapply (Hbig l); symmetry; exact Hof).
  - lia.
  - destruct l; try contradiction. cbn. lia.
Qed.

Lemma N_to_string_digits (n : N) : JsString.all JsString.isDigit (JsString.N_to_string n) = true.
Proof. apply string_of_uint_digits. Qed.

Lemma N_to_string_nonempty (n : N) : JsString.isEmpty (JsString.N_to_string n) = false.
Proof.
  pose proof (N_to_string_head n) as H.
  destruct (JsString.N_to_string n); [contradiction | reflexivity].
Qed.

Lemma no_digit_ahead_spec (s : string) :
  no_digit_ahead s = true ->
  match s with String c _ => JsString.isDigit c = false | EmptyString => True end.
Proof.
  destruct s as [|c s]; [trivial|]. cbn. now intros H%negb_true_iff.
Qed.

Lemma span_no_digit_ahead (s : string) :
  no_digit_ahead s = true -> JsString.span JsString.isDigit s = (EmptyString, s).
Proof.
  destruct s as [|c s]; [reflexivity|]. cbn. intros H%negb_true_iff. now rewrite H.
Qed.

(** A component of COERCE on the text of a number within the safe range. *)
Lemma coerce_component_number (n : N) (rest : string) :
  (n <= Semver.MAX_SAFE_INTEGER)%N ->
  no_digit_ahead rest = true ->
  Semver.coerce_component (String "." (JsString.N_to_string n ++ rest))
  = (Some (JsString.N_to_string n), rest).
Proof.
  intros Hn Hrest. cbn [Semver.coerce_component].
  rewrite span_digits; [| apply N_to_string_digits | now apply no_digit_ahead_spec].
  rewrite N_to_string_nonempty. cbn [negb andb].
  apply N_to_string_length in Hn. apply Nat.leb_le in Hn. now rewrite Hn.
Qed.

Lemma coerce_at_release (a b c : N) (post : string) :
  (a <= Semver.MAX_SAFE_INTEGER)%N -> (b <= Semver.MAX_SAFE_INTEGER)%N ->
  (c <= Semver.MAX_SAFE_INTEGER)%N ->
  no_digit_ahead post = true ->
  Semver.coerce_at (release_text a b c ++ post)
  = Some (JsString.N_to_string a, Some (JsString.N_to_string b), Some (JsString.N_to_string c)).
Proof.
  intros Ha Hb Hc Hpost. unfold Semver.coerce_at, release_text.
  rewrite !append_assoc. cbn [append].
  rewrite span_digits; [| apply N_to_string_digits | reflexivity].
  rewrite N_to_string_nonempty. cbn [negb andb].
  pose proof (N_to_string_length a Ha) as Hlen. apply Nat.leb_le in Hlen. rewrite Hlen.
  rewrite (coerce_component_number b _ Hb) by reflexivity.
  now rewrite (coerce_component_number c _ Hc).
Qed.

Lemma match_COERCE_skip (p s : string) :
  no_digit p = true ->
  Semver.match_COERCE false (p ++ s) = Semver.match_COERCE false s.
Proof.
  induction p as [|x p IH]; [reflexivity|].
  unfold no_digit. cbn [JsString.all]. intros H. apply andb_true_iff in H as [Hx Hp].
  apply negb_true_iff in Hx.
  cbn [append Semver.match_COERCE]. unfold Semver.coerce_at at 1.
  cbn [JsString.span]. rewrite Hx. cbn [JsString.isEmpty negb andb].
  now apply IH.
Qed.

Lemma numeric_identifier_number (n : N) (rest : string) :
  no_digit_ahead rest = true ->
  Semver.numeric_identifier (JsString.N_to_string n ++ rest)
  = Some (JsString.N_to_string n, rest).
Proof.
  intros Hrest. unfold Semver.numeric_identifier.
  rewrite span_digits; [| apply N_to_string_digits | now apply no_digit_ahead_spec].
  apply no_leading_zero_match, N_to_string_head.
Qed.

(** A text that starts with a digit has no leading [v] to drop. *)
Lemma no_leading_v (s : string) :
  no_digit_ahead s = false ->
  match s with String "v"%char r => r | _ => s end = s.
Proof.
  destruct s as [|c r]; [discriminate|].
  destruct c as [[] [] [] [] [] [] [] []]; intros H; first [reflexivity | discriminate H].
Qed.

Lemma N_to_string_ahead (n : N) (rest : string) :
  no_digit_ahead (JsString.N_to_string n ++ rest) = false.
Proof.
  pose proof (N_to_string_digits n) as Hd. pose proof (N_to_string_nonempty n) as He.
  destruct (JsString.N_to_string n) as [|c r]; [discriminate He|].
  cbn in *. apply andb_true_iff in Hd as [Hc _]. now rewrite Hc.
Qed.

Lemma match_FULL_release (a b c : N) :
  Semver.match_FULL (release_text a b c)
  = Some (JsString.N_to_string a, JsString.N_to_string b, JsString.N_to_string c, None, None).
Proof.
  unfold Semver.match_FULL, release_text.
  rewrite no_leading_v by apply N_to_string_ahead.
  rewrite numeric_identifier_number by reflexivity. cbn [append Semver.expect Ascii.eqb Bool.eqb].
  rewrite numeric_identifier_number by reflexivity. cbn [append Semver.expect Ascii.eqb Bool.eqb].
  rewrite <- (append_empty_r (JsString.N_to_string c)) at 1.
  rewrite numeric_identifier_number by reflexivity.
  reflexivity.
Qed.

Lemma parse_release (a b c : N) :
  (a <= Semver.MAX_SAFE_INTEGER)%N -> (b <= Semver.MAX_SAFE_INTEGER)%N ->
  (c <= Semver.MAX_SAFE_INTEGER)%N ->
  Semver.parse (release_text a b c)
  = Some (Semver.mkSemVer (release_text a b c) a b c [] []).
Proof.
  intros Ha Hb Hc. unfold Semver.parse.
  assert (Hlen : (Semver.MAX_LENGTH <? String.length (release_text a b c))%nat = false).
  { apply Nat.ltb_ge. unfold release_text. rewrite !length_append. cbn [String.length].
    pose proof (N_to_string_length a Ha). pose proof (N_to_string_length b Hb).
    pose proof (N_to_string_length c Hc).
    unfold Semver.MAX_SAFE_COMPONENT_LENGTH, Semver.MAX_LENGTH in *. lia. }
  rewrite Hlen, match_FULL_release, !N_of_digits_to_string.
  apply N.ltb_ge in Ha, Hb, Hc. now rewrite Ha, Hb, Hc.
Qed.

Lemma toString_release (a b c : N) (raw : string) :
  Semver.toString (Semver.mkSemVer raw a b c [] []) = release_text a b c.
Proof.
  unfold Semver.toString, Semver.format, release_text. cbn. now rewrite append_empty_r.
Qed.

Lemma match_COERCE_at (s : string) (m : string * option string * option string) :
  Semver.coerce_at s = Some m -> Semver.match_COERCE false s = Some m.
Proof. intros H. destruct s; cbn [Semver.match_COERCE]; now rewrite H. Qed.

Lemma coerce_release (p post : string) (a b c : N) :
  no_digit p = true ->
  no_digit_ahead post = true ->
  (a <= Semver.MAX_SAFE_INTEGER)%N -> (b <= Semver.MAX_SAFE_INTEGER)%N ->
  (c <= Semver.MAX_SAFE_INTEGER)%N ->
  Semver.coerce (p ++ release_text a b c ++ post)
  = Some (Semver.mkSemVer (release_text a b c) a b c [] []).
Proof.
  intros Hp Hpost Ha Hb Hc. unfold Semver.coerce.
  rewrite match_COERCE_skip by exact Hp.
  rewrite (match_COERCE_at _ _ (coerce_at_release a b c post Ha Hb Hc Hpost)).
  cbn [Semver.or_zero]. now apply parse_release.
Qed.

Lemma isPrefix_app (x rest : string) : JsString.isPrefix x (x ++ rest) = true.
Proof.
  induction x as [|c x IH]; [reflexivity|]. cbn. now rewrite Ascii.eqb_refl.
Qed.

Lemma drop_app (x rest : string) : JsString.drop (String.length x) (x ++ rest) = rest.
Proof. induction x as [|c x IH]; [reflexivity | exact IH]. Qed.

Lemma split_first_prefix (pat s : string) :
  JsString.isPrefix pat s = true ->
  JsString.split_first pat s = Some (EmptyString, JsString.drop (String.length pat) s).
Proof. intros H. destruct s; cbn [JsString.split_first]; now rewrite H. Qed.

Lemma split_first_after (p x rest : string) :
  no_digit p = true ->
  no_digit_ahead x = false ->
  JsString.split_first x (p ++ x ++ rest) = Some (p, rest).
Proof.
  intros Hp Hx. induction p as [|c p IH].
  - cbn [append]. rewrite split_first_prefix by apply isPrefix_app. now rewrite drop_app.
  - unfold no_digit in Hp. cbn [JsString.all] in Hp. apply andb_true_iff in Hp as [Hc Hp].
    cbn [append JsString.split_first].
    assert (Hprefix : JsString.isPrefix x (String c (p ++ x ++ rest)) = false).
    { destruct x as [|d x]; [discriminate Hx|]. cbn in Hx |- *.
      apply negb_false_iff in Hx. apply negb_true_iff in Hc.
      destruct (Ascii.eqb_spec d c) as [-> | _]; [congruence | reflexivity]. }
    rewrite Hprefix. now rewrite (IH Hp).
Qed.

(** X10.  In a specifier that is not an exact version, [semver.coerce] finds the
    first release version [a.b.c] (after text without digits, before text
    that does not go on with a digit), and only that part is replaced by the
    new version: what stands before it (a range operator) and what stands
    after it (a pre-release suffix, a second bound) is kept as it is. *)
Theorem rewrite_release_in_place (p post v : string) (a b c : N) :
  no_digit p = true ->
  no_digit_ahead post = true ->
  (a <= Semver.MAX_SAFE_INTEGER)%N -> (b <= Semver.MAX_SAFE_INTEGER)%N ->
  (c <= Semver.MAX_SAFE_INTEGER)%N ->
  Semver.parse (p ++ release_text a b c ++ post) = None ->
  dollar_free v = true ->
  buildReplacementDepencencyVersion (p ++ release_text a b c ++ post) v = p ++ v ++ post.
Proof.
  intros Hp Hpost Ha Hb Hc Hparse Hv.
  apply (rewrite_around _ v p post (Semver.mkSemVer (release_text a b c) a b c [] []));
    [exact Hparse | now apply coerce_release | | exact Hv].
  rewrite toString_release. apply split_first_after; [exact Hp|].
  unfold release_text. apply N_to_string_ahead.
Qed.

(** A range on a pre-release version keeps the old pre-release suffix behind
    the new version; in a range with two bounds only the first is
    rewritten. *)
Lemma rewrite_release_in_place_witness :
  buildReplacementDepencencyVersion "^1.0.0-beta.1" "1.0.0-beta.2" = "^1.0.0-beta.2-beta.1"
  /\ buildReplacementDepencencyVersion ">=1.0.0 <2.0.0" "2.0.0" = ">=2.0.0 <2.0.0".
Proof.
  split.
  - apply (rewrite_release_in_place "^" "-beta.1" "1.0.0-beta.2" 1 0 0); reflexivity || (cbv; discriminate).
  - apply (rewrite_release_in_place ">=" " <2.0.0" "2.0.0" 1 0 0); reflexivity || (cbv; discriminate).
Defined.

(** ** Versions: what [parseVersion] makes of a version that is not valid *)

Lemma coerce_component_digits (s : string) :
  digits_opt (fst (Semver.coerce_component s)) = true.
Proof.
  destruct s as [|c r]; [reflexivity|].
  destruct c as [[] [] [] [] [] [] [] []]; try reflexivity.
  cbn [Semver.coerce_component].
  destruct (JsString.span JsString.isDigit r) as [d rest] eqn:E.
  apply span_parts in E as [_ Hd].
  destruct (negb (JsString.isEmpty d) && _); [exact Hd | reflexivity].
Qed.

Lemma coerce_at_digits (s m2 : string) (m3 m4 : option string) :
  Semver.coerce_at s = Some (m2, m3, m4) ->
  JsString.all JsString.isDigit m2 = true /\ digits_opt m3 = true /\ digits_opt m4 = true.
Proof.
  unfold Semver.coerce_at.
  destruct (JsString.span JsString.isDigit s) as [d2 r2] eqn:E.
  apply span_parts in E as [_ Hd2].
  destruct (negb (JsString.isEmpty d2) && _); [|discriminate].
  pose proof (coerce_component_digits r2) as H3.
  destruct (Semver.coerce_component r2) as [[d3|] r3]; intros [= <- <- <-].
  - repeat split; [exact Hd2 | exact H3 | apply coerce_component_digits].
  - repeat split. exact Hd2.
Qed.

Lemma match_COERCE_digits (s : string) :
  forall (after_digit : bool) (m2 : string) (m3 m4 : option string),
    Semver.match_COERCE after_digit s = Some (m2, m3, m4) ->
    JsString.all JsString.isDigit m2 = true /\ digits_opt m3 = true /\ digits_opt m4 = true.
Proof.
  induction s as [|c s IH]; intros b m2 m3 m4; cbn [Semver.match_COERCE].
  - destruct b; [discriminate|].
    destruct (Semver.coerce_at EmptyString) as [m|] eqn:E; [|discriminate].
    intros [= ->]. now apply coerce_at_digits in E.
  - destruct (if b then None else Semver.coerce_at (String c s)) as [m|] eqn:E.
    + intros [= ->]. destruct b; [discriminate E|]. now apply coerce_at_digits in E.
    + apply IH.
Qed.

Lemma numeric_identifier_digits (d rest m r : string) :
  JsString.all JsString.isDigit d = true ->
  no_digit_ahead rest = true ->
  Semver.numeric_identifier (d ++ rest) = Some (m, r) ->
  m = d /\ r = rest.
Proof.
  intros Hd Hrest. unfold Semver.numeric_identifier.
  rewrite span_digits; [| exact Hd | now apply no_digit_ahead_spec].
  intros H. destruct d as [|c d]; [discriminate H|].
  destruct c as [[] [] [] [] [] [] [] []]; destruct d;
    first [discriminate H | injection H as <- <-; now split].
Qed.

(** FULL on three runs of digits captures no pre-release and no build. *)
Lemma match_FULL_digits (d1 d2 d3 m1 m2 m3 : string) (m4 m5 : option string) :
  JsString.all JsString.isDigit d1 = true ->
  JsString.all JsString.isDigit d2 = true ->
  JsString.all JsString.isDigit d3 = true ->
  Semver.match_FULL (d1 ++ "." ++ d2 ++ "." ++ d3) = Some (m1, m2, m3, m4, m5) ->
  m4 = None /\ m5 = None.
Proof.
  intros H1 H2 H3. unfold Semver.match_FULL.
  assert (Hv : match d1 ++ "." ++ d2 ++ "." ++ d3 with
               | String "v"%char r => r
               | _ => d1 ++ "." ++ d2 ++ "." ++ d3
               end = d1 ++ "." ++ d2 ++ "." ++ d3).
  { destruct d1 as [|c d1]; [reflexivity|].
    cbn [JsString.all] in H1. apply andb_true_iff in H1 as [Hc _]. cbn [append].
    destruct c as [[] [] [] [] [] [] [] []]; first [reflexivity | discriminate Hc]. }
  rewrite Hv.
  destruct (Semver.numeric_identifier (d1 ++ "." ++ d2 ++ "." ++ d3)) as [[n1 r1]|] eqn:E1;
    [|discriminate].
  apply numeric_identifier_digits in E1 as [-> ->]; [| exact H1 | reflexivity].
  cbn [append Semver.expect Ascii.eqb Bool.eqb].
  destruct (Semver.numeric_identifier (d2 ++ String "." d3)) as [[n2 r2]|] eqn:E2;
    [|discriminate].
  apply (numeric_identifier_digits d2 (String "." d3)) in E2 as [-> ->];
    [| exact H2 | reflexivity].
  cbn [Semver.expect Ascii.eqb Bool.eqb].
  destruct (Semver.numeric_identifier d3) as [[n3 r3]|] eqn:E3; [|discriminate].
  rewrite <- (append_empty_r d3) in E3.
  apply numeric_identifier_digits in E3 as [-> ->]; [| exact H3 | reflexivity].
  cbn. intros [= _ _ _ <- <-]. now split.
Qed.

Lemma or_zero_digits (o : option string) :
  digits_opt o = true -> JsString.all JsString.isDigit (Semver.or_zero o) = true.
Proof. destruct o; [trivial | reflexivity]. Qed.

(** What [semver.coerce] returns is a release version. *)
Lemma coerce_is_release (s : string) (c : Semver.SemVer) :
  Semver.coerce s = Some c -> Semver.prerelease c = [] /\ Semver.build c = [].
Proof.
  unfold Semver.coerce.
  destruct (Semver.match_COERCE false s) as [[[m2 m3] m4]|] eqn:E; [|discriminate].
  apply match_COERCE_digits in E as (H2 & H3 & H4).
  apply or_zero_digits in H3, H4.
  unfold Semver.parse. destruct (Semver.MAX_LENGTH <? _)%nat; [discriminate|].
  destruct (Semver.match_FULL _) as [[[[[n1 n2] n3] n4] n5]|] eqn:F; [|discriminate].
  apply match_FULL_digits in F as [-> ->]; try assumption.
  destruct (_ || _); [discriminate|]. intros [= <-]. now split.
Qed.

(** X11.  For a version that is not valid but can be coerced, [parseVersion]
    returns the coerced version, which never is a pre-release: whatever the
    text looked like, [bump] resolves the tag to [latest]. *)
Theorem parseVersion_coerced (raw : string) (c : Semver.SemVer) (distTag : option string) :
  Semver.valid raw = None ->
  Semver.coerce raw = Some c ->
  truthy distTag = false ->
  parseVersion raw
  = Ok {| version := Some (VersionCoerced c); isPreRelease := false; preReleaseId := None |}
  /\ bump_distTag distTag raw = Ok (Some DEFAULT_TAG).
Proof.
  intros Hvalid Hcoerce Htag.
  destruct (coerce_is_release raw c Hcoerce) as [Hpre _].
  assert (Hparse : parseVersion raw
                   = Ok {| version := Some (VersionCoerced c); isPreRelease := false;
                           preReleaseId := None |}).
  { unfold parseVersion. destruct raw as [|x raw]; [discriminate Hcoerce|].
    cbn [JsString.isEmpty]. rewrite Hvalid, Hcoerce. cbn [option_map]. now rewrite Hpre. }
  split; [exact Hparse|].
  unfold bump_distTag. now rewrite Htag, Hparse.
Qed.

Lemma parseVersion_coerced_witness :
  parseVersion "2.0-beta.1"
  = Ok {| version := Some (VersionCoerced (Semver.mkSemVer "2.0.0" 2 0 0 [] []));
          isPreRelease := false; preReleaseId := None |}
  /\ bump_distTag None "2.0-beta.1" = Ok (Some "latest").
Proof.
  apply (parseVersion_coerced "2.0-beta.1" (Semver.mkSemVer "2.0.0" 2 0 0 [] []) None);
    reflexivity.
Defined.

Lemma numeric_identifier_no_digit (s : string) :
  no_digit s = true -> Semver.numeric_identifier s = None.
Proof.
  destruct s as [|c s]; [reflexivity|]. unfold no_digit. cbn [JsString.all].
  intros H. apply andb_true_iff in H as [Hc _]. apply negb_true_iff in Hc.
  unfold Semver.numeric_identifier. cbn [JsString.span]. now rewrite Hc.
Qed.

Lemma parse_no_digit (s : string) : no_digit s = true -> Semver.parse s = None.
Proof.
  intros Hs. unfold Semver.parse. destruct (Semver.MAX_LENGTH <? _)%nat; [reflexivity|].
  unfold Semver.match_FULL.
  assert (Htail : no_digit match s with String "v"%char r => r | _ => s end = true).
  { destruct s as [|c r]; [reflexivity|].
    destruct c as [[] [] [] [] [] [] [] []]; exact Hs. }
  now rewrite (numeric_identifier_no_digit _ Htail).
Qed.

Lemma match_COERCE_no_digit (s : string) :
  forall after_digit, no_digit s = true -> Semver.match_COERCE after_digit s = None.
Proof.
  induction s as [|c s IH]; intros b Hs.
  - destruct b; reflexivity.
  - unfold no_digit in Hs. cbn [JsString.all] in Hs. apply andb_true_iff in Hs as [Hc Hs].
    apply negb_true_iff in Hc. cbn [Semver.match_COERCE].
    assert (Hat : Semver.coerce_at (String c s) = None).
    { unfold Semver.coerce_at. cbn [JsString.span]. now rewrite Hc. }
    rewrite Hat. destruct b; now apply IH.
Qed.

(** X12.  A version text without any digit is neither valid nor coercible:
    [parseVersion] throws a TypeError on it, and so does [bump] when no tag
    is configured, before it has changed anything. *)
Theorem bump_without_digit (self : plugin) (raw : string) (st : state) :
  JsString.isEmpty raw = false ->
  no_digit raw = true ->
  truthy (options_distTag self) = false ->
  parseVersion raw = Throw (TypeError "Cannot read property 'prerelease' of null")
  /\ bump self raw st
     = (Throws (TypeError "Cannot read property 'prerelease' of null"), st).
Proof.
  intros Hraw Hdigits Htag.
  assert (Hparse : parseVersion raw
                   = Throw (TypeError "Cannot read property 'prerelease' of null")).
  { unfold parseVersion, Semver.valid, Semver.coerce.
    rewrite Hraw, (parse_no_digit raw Hdigits), (match_COERCE_no_digit raw false Hdigits).
    reflexivity. }
  split; [exact Hparse|].
  unfold bump, bump_distTag. now rewrite Htag, Hparse.
Qed.

Lemma bump_without_digit_witness :
  bump Example.self "next" Example.start
  = (Throws (TypeError "Cannot read property 'prerelease' of null"), Example.start).
Proof.
  apply (bump_without_digit Example.self "next" Example.start); reflexivity.
Defined.

(** ** [bump]: what it leaves alone *)

Lemma skipn_update_nth {A : Type} (l : list A) (i : nat) (w x : A) :
  nth_error l i = Some x ->
  skipn (S i) (firstn i l ++ w :: skipn (S i) l)%list = skipn (S i) l.
Proof.
  intros Hi.
  assert (Hlen : List.length (firstn i l) = i).
  { rewrite length_firstn. apply Nat.min_l.
    apply Nat.lt_le_incl, nth_error_Some. congruence. }
  rewrite skipn_app, Hlen.
  rewrite skipn_all2 by lia.
  replace (S i - i) with 1 by lia. reflexivity.
Qed.

Lemma firstn_skipn_step {A : Type} (l : list A) (j n : nat) (x : A) :
  nth_error l j = Some x ->
  firstn (S n) (skipn j l) = x :: firstn n (skipn (S j) l).
Proof.
  revert j. induction l as [|a l IH]; intros j H.
  - destruct j; discriminate H.
  - destruct j as [|j].
    + cbn in H. injection H as ->. reflexivity.
    + cbn [nth_error] in H. cbn [skipn]. now apply IH.
Qed.

Section BumpFrame.

Variable self : plugin.
Variable version : string.

Lemma forEach_bump_fields (n : nat) :
  forall (j : nat) (st st' : state),
    forEach_index (bump_workspace self version) j n st = (Returns tt, st') ->
    cwd st' = cwd st /\ executed st' = executed st /\ replies st' = replies st
    /\ otp st' = otp st /\ context_distTag st' = context_distTag st
    /\ map isReleased (wstates st') = map isReleased (wstates st)
    /\ logs st'
       = (logs st ++ repeat (already_at version)
                       (at_version_count version (firstn n (skipn j (wstates st)))))%list.
Proof.
  induction n as [|n IH]; intros j st st' H.
  - cbn in H. injection H as <-. cbn. rewrite app_nil_r. repeat split.
  - destruct (forEach_index_step _ _ _ _ _ H) as (s1 & Hstep & Hrest).
    destruct (IH _ _ _ Hrest) as (Hcwd & Hexec & Hreplies & Hotp & Htag & Hreleased & Hlogs).
    destruct (bump_workspace_returns _ _ _ _ _ Hstep)
      as (ws & members & members' & Hws & Hpkg & Hu & Hs1).
    assert (Hfields : cwd s1 = cwd st /\ executed s1 = executed st /\ replies s1 = replies st
                      /\ otp s1 = otp st /\ context_distTag s1 = context_distTag st
                      /\ wstates s1
                         = (firstn j (wstates st)
                            ++ mkWorkspaceState (isReleased ws)
                                 (with_pkg (pkgInfo ws) (JObject members'))
                               :: skipn (S j) (wstates st))%list
                      /\ logs s1
                         = (logs st ++ if version_is version members
                                       then [already_at version] else [])%list).
    { rewrite Hs1. destruct (version_is version members); cbn; rewrite ?app_nil_r;
        repeat split. }
    destruct Hfields as (Hc1 & He1 & Hr1 & Ho1 & Ht1 & Hw1 & Hl1).
    split; [congruence|]. split; [congruence|]. split; [congruence|].
    split; [congruence|]. split; [congruence|].
    split.
    { rewrite Hreleased, Hw1. eapply update_nth_map; [exact Hws | reflexivity]. }
    rewrite Hlogs, Hl1, Hw1, (skipn_update_nth _ _ _ _ Hws), <- app_assoc. f_equal.
    rewrite (firstn_skipn_step _ _ _ _ Hws).
    unfold at_version_count. cbn [filter]. unfold at_version at 2. rewrite Hpkg.
    destruct (version_is version members); reflexivity.
Qed.

End BumpFrame.

Lemma bump_runs (self : plugin) (version : string) (tag : option string) (st : state) :
  isDryRun self = false ->
  bump_distTag (options_distTag self) version = Ok tag ->
  bump self version st
  = forEach_index (bump_workspace self version) 0 (List.length (workspaces self))
      (set_context_distTag tag st).
Proof. intros Hdry Htag. unfold bump. now rewrite Htag, Hdry. Qed.

Lemma bump_returns (self : plugin) (version : string) (tag : option string) (st : state) :
  isDryRun self = false ->
  bump_distTag (options_distTag self) version = Ok tag ->
  List.length (wstates st) = List.length (workspaces self) ->
  forallb (fun ws => plain_manifest (manifest_of ws)) (wstates st) = true ->
  exists st',
    forEach_index (bump_workspace self version) 0 (List.length (workspaces self))
      (set_context_distTag tag st) = (Returns tt, st').
Proof.
  intros Hdry Htag Hlen Hplain. rewrite forallb_forall in Hplain.
  apply forEach_bump_plain. intros k Hk. cbn [wstates set_context_distTag].
  destruct (nth_error (wstates st) k) as [ws|] eqn:Hws.
  - exists ws. split; [reflexivity|]. apply Hplain. eapply nth_error_In. exact Hws.
  - apply nth_error_None in Hws. lia.
Qed.

(** X13.  Outside dry-run mode, on plain manifests, [bump] returns and touches
    nothing but the manifests: it logs one warning for each workspace that
    was at the version already and nothing else (no warning at all when none
    was), it records the tag in the context, and it leaves the working
    directory, the commands run, the replies of the host, the one-time
    password, the release marks, the names of the manifest files and every
    other file as they were. *)
Theorem bump_frame (self : plugin) (version : string) (tag : option string) (st : state) :
  isDryRun self = false ->
  bump_distTag (options_distTag self) version = Ok tag ->
  List.length (wstates st) = List.length (workspaces self) ->
  forallb (fun ws => plain_manifest (manifest_of ws)) (wstates st) = true ->
  exists st',
    bump self version st = (Returns tt, st')
    /\ logs st'
       = (logs st ++ repeat (already_at version) (at_version_count version (wstates st)))%list
    /\ context_distTag st' = Some tag
    /\ cwd st' = cwd st /\ executed st' = executed st /\ replies st' = replies st
    /\ otp st' = otp st
    /\ map isReleased (wstates st') = map isReleased (wstates st)
    /\ manifest_files st' = manifest_files st
    /\ (forall f, ~ In f (manifest_files st) ->
          read_file f (disk st') = read_file f (disk st)).
Proof.
  intros Hdry Htag Hlen Hplain.
  rewrite (bump_runs self version tag st Hdry Htag).
  destruct (bump_returns self version tag st Hdry Htag Hlen Hplain) as [st' Hrun].
  exists st'. split; [exact Hrun|].
  destruct (forEach_bump_fields self version _ _ _ _ Hrun)
    as (Hcwd & Hexec & Hreplies & Hotp & Hctx & Hreleased & Hlogs).
  destruct (forEach_bump_frame self version _ _ _ _ Hrun) as (Hfiles & _ & _ & Hdisk).
  cbn [wstates logs cwd executed replies otp context_distTag set_context_distTag skipn] in *.
  split. { rewrite Hlogs, <- Hlen, firstn_all. reflexivity. }
  repeat (split; [assumption|]).
  intros f Hf. apply Hdisk. intros k _ Hk. apply Hf. eapply nth_error_In. exact Hk.
Qed.

Lemma bump_frame_witness :
  exists st',
    bump Example.self "2.0.0" Example.start = (Returns tt, st')
    /\ logs st' = []
    /\ context_distTag st' = Some (Some "latest")
    /\ cwd st' = "/repo" /\ executed st' = [].
Proof.
  destruct (bump_frame Example.self "2.0.0" (Some "latest") Example.start
              eq_refl eq_refl eq_refl eq_refl)
    as (st' & Hrun & Hlogs & Hctx & Hcwd & Hexec & _).
  exists st'. split; [exact Hrun|]. split; [exact Hlogs|]. split; [exact Hctx|].
  split; [exact Hcwd | exact Hexec].
Defined.

Lemma bump_dry_run_state (self : plugin) (version : string) (tag : option string)
  (st : state) :
  isDryRun self = true ->
  bump_distTag (options_distTag self) version = Ok tag ->
  bump self version st
  = (Returns tt,
     add_log (LogExec ("Bumping versions in " ++ packageNames_text self))
       (set_context_distTag tag st)).
Proof. intros Hdry Htag. unfold bump. now rewrite Htag, Hdry. Qed.

(** X14.  A dry run changes no manifest: when [bump] and then [release] run
    in dry-run mode (the user confirms, every command succeeds), no file
    changes, the manifests in memory are the ones [bump] found, and every
    command that is run carries [--dry-run]. *)
Theorem dry_run_changes_no_manifest (self : plugin) (version : string) (tag : option string)
  (fuel : nat) (st : state) (rest : list reply) :
  isDryRun self = true ->
  bump_distTag (options_distTag self) version = Ok tag ->
  options_publish self = true ->
  forallb named (workspaces self) = true ->
  List.length (wstates st) = List.length (workspaces self) ->
  replies st
  = ConfirmAnswer true
    :: (repeat Resolved (List.length (public_workspaces (workspaces self))) ++ rest)%list ->
  exists st1 st2,
    bump self version st = (Returns tt, st1)
    /\ release self (S fuel) st1 = (Returns tt, st2)
    /\ disk st2 = disk st
    /\ map pkgInfo (wstates st2) = map pkgInfo (wstates st)
    /\ executed st2
       = (executed st
          ++ repeat ("npm publish . --tag " ++ tag_text (Some tag)
                     ++ option_arg " --otp " (options_otp self) ++ " --dry-run")%string
               (List.length (public_workspaces (workspaces self))))%list.
Proof.
  intros Hdry Htag Hpublish Hnamed Hlen Hreplies.
  rewrite (bump_dry_run_state self version tag st Hdry Htag).
  set (st1 := add_log _ (set_context_distTag tag st)).
  exists st1.
  rewrite (release_confirmed self (S fuel) st1 _ Hpublish Hreplies).
  set (st0 := set_replies _ (set_otp (options_otp self) st1)).
  destruct (publish_all_from self fuel (context_distTag st1) (workspaces self) 0 st0 rest Hnamed)
    as (st2 & Hrun & Hexec & _ & _ & Hdisk & _ & Hlength & _ & Hdone & _).
  { cbn [Nat.add]. change (wstates st0) with (wstates st). lia. }
  { reflexivity. }
  exists st2. split; [reflexivity|]. split; [exact Hrun|].
  change (wstates st0) with (wstates st) in *.
  split; [exact Hdisk|].
  split.
  { apply nth_error_ext. intros k. rewrite !nth_error_map.
    destruct (nth_error (wstates st) k) as [ws|] eqn:Hws.
    - destruct (nth_error (workspaces self) k) as [w|] eqn:Hw.
      + pose proof (Hdone k w ws Hw Hws) as Hk. cbn [Nat.add] in Hk. now rewrite Hk.
      + apply nth_error_None in Hw.
        assert (k < List.length (wstates st)) by (apply nth_error_Some; congruence). lia.
    - apply nth_error_None in Hws. rewrite <- Hlength in Hws.
      apply nth_error_None in Hws. now rewrite Hws. }
  rewrite Hexec. unfold publish_command. rewrite Hdry. reflexivity.
Qed.

Lemma dry_run_changes_no_manifest_witness :
  exists st1 st2,
    bump Scenario.dry_self "2.0.0" Scenario.mixed_start = (Returns tt, st1)
    /\ release Scenario.dry_self 1 st1 = (Returns tt, st2)
    /\ disk st2 = []
    /\ map manifest_of (wstates st2) = map manifest_of (wstates Scenario.mixed_start)
    /\ executed st2
       = ["npm publish . --tag latest --dry-run"; "npm publish . --tag latest --dry-run"].
Proof.
  destruct (dry_run_changes_no_manifest Scenario.dry_self "2.0.0" (Some "latest") 0
              Scenario.mixed_start [] eq_refl eq_refl eq_refl eq_refl eq_refl eq_refl)
    as (st1 & st2 & Hbump & Hrelease & Hdisk & Hfiles & Hexec).
  exists st1, st2. split; [exact Hbump|]. split; [exact Hrelease|]. split; [exact Hdisk|].
  split; [|exact Hexec].
  unfold manifest_of. rewrite <- !(map_map pkgInfo pkg). now rewrite Hfiles.
Defined.

(** ** [bump]: the files agree with the manifests in memory *)

Lemma map_fst_replace_member (k : string) (v : json) (m : list (string * json)) :
  map fst (Json.replace_member k v m) = map fst m.
Proof.
  induction m as [|[k' v'] m IH]; [reflexivity|]. cbn [Json.replace_member].
  destruct (k =? k')%string; cbn [map fst]; [reflexivity | now rewrite IH].
Qed.

Lemma forallb_replace_member (p : json -> bool) (k : string) (v : json)
  (m : list (string * json)) :
  p v = true ->
  forallb (fun kv : string * json => p (snd kv)) m = true ->
  forallb (fun kv : string * json => p (snd kv)) (Json.replace_member k v m) = true.
Proof.
  intros Hv. induction m as [|[k' v'] m IH]; [reflexivity|].
  cbn [Json.replace_member forallb snd]. intros H. apply andb_true_iff in H as [Hv' Hm].
  destruct (k =? k')%string; cbn [forallb snd].
  - now rewrite Hv, Hm.
  - now rewrite Hv', IH.
Qed.

Lemma lookup_none_unseen (k : string) (m : list (string * json)) :
  lookup k m = None -> existsb (String.eqb k) (map fst m) = false.
Proof.
  induction m as [|[k' v'] m IH]; [reflexivity|]. cbn [lookup map fst existsb].
  destruct (k =? k')%string; [discriminate|]. exact IH.
Qed.

Lemma lookup_forallb (p : json -> bool) (k : string) (x : json) (m : list (string * json)) :
  forallb (fun kv : string * json => p (snd kv)) m = true ->
  lookup k m = Some x -> p x = true.
Proof.
  induction m as [|[k' v'] m IH]; [discriminate|]. cbn [forallb snd lookup].
  intros H. apply andb_true_iff in H as [Hv' Hm].
  destruct (k =? k')%string; [now intros [= <-] | now apply IH].
Qed.

Lemma keys_in_order_last (k : string) (keys : list string) :
  (forall k', Json.key_before k k' = false) ->
  forall seen,
    keys_in_order seen keys = true ->
    existsb (String.eqb k) (seen ++ keys)%list = false ->
    keys_in_order seen (keys ++ [k])%list = true.
Proof.
  intros Hlast. induction keys as [|k0 keys IH]; intros seen Hkeys Hnew.
  - rewrite app_nil_r in Hnew. cbn. rewrite Hnew. cbn.
    rewrite andb_true_r. apply forallb_forall. intros k' _. now rewrite Hlast.
  - cbn [app keys_in_order] in *.
    apply andb_true_iff in Hkeys as [Hhead Hrest]. rewrite Hhead. cbn [andb].
    apply IH; [exact Hrest|]. now rewrite <- app_assoc.
Qed.

Lemma well_formed_set_version (v : string) (m : list (string * json)) :
  well_formed (JObject m) = true ->
  well_formed (JObject (Json.set_member "version" (JString v) m)) = true.
Proof.
  cbn [well_formed]. intros H. apply andb_true_iff in H as [Hkeys Hvalues].
  unfold Json.set_member. destruct (lookup "version" m) as [x|] eqn:Hx.
  - rewrite map_fst_replace_member, Hkeys.
    now rewrite (forallb_replace_member well_formed).
  - rewrite insert_member_last by (apply forallb_forall; intros k' _; reflexivity).
    rewrite map_app, forallb_app, Hvalues. cbn [map fst forallb snd well_formed andb].
    rewrite andb_true_r. apply keys_in_order_last; [reflexivity | exact Hkeys |].
    now apply lookup_none_unseen.
Qed.

Lemma replacement_well_formed (x r : json) (v : string) :
  replacement_of x v = Ok r -> well_formed r = true.
Proof.
  destruct x as [| |z|s| |]; cbn [replacement_of]; try (intros [= <-]; reflexivity).
  destruct (Semver.coerce (Json.Z_to_string z)); [discriminate | now intros [= <-]].
Qed.

Lemma update_members_well_formed (names : list value) (v : string)
  (deps : list (string * json)) :
  forall deps' e,
    update_members names v deps = (deps', e) ->
    map fst deps' = map fst deps
    /\ (forallb (fun kv : string * json => well_formed (snd kv)) deps = true ->
        forallb (fun kv : string * json => well_formed (snd kv)) deps' = true).
Proof.
  induction deps as [|[d x] deps IH]; intros deps' e; cbn [update_members].
  - intros [= <- <-]. now split.
  - destruct (update_members names v deps) as [rest' err] eqn:Hrest.
    destruct (IH rest' err eq_refl) as [Hkeys Hvalues].
    destruct (is_workspace_name names d).
    + destruct (replacement_of x v) as [r|err'] eqn:Hr.
      * intros [= <- <-]. cbn [map fst forallb snd]. split; [now rewrite Hkeys|].
        intros H. apply andb_true_iff in H as [_ H].
        now rewrite (replacement_well_formed _ _ _ Hr), Hvalues.
      * intros [= <- <-]. now split.
    + intros [= <- <-]. cbn [map fst forallb snd]. split; [now rewrite Hkeys|].
      intros H. apply andb_true_iff in H as [Hx H]. now rewrite Hx, Hvalues.
Qed.

Lemma update_items_well_formed (names : list value) (v : string) (items : list json) :
  forall index items' e,
    update_items names v index items = (items', e) ->
    forallb well_formed items = true -> forallb well_formed items' = true.
Proof.
  induction items as [|x items IH]; intros index items' e; cbn [update_items].
  - now intros [= <- <-].
  - destruct (update_items names v (index + 1) items) as [rest' err] eqn:Hrest.
    specialize (IH _ rest' err Hrest).
    destruct (is_workspace_name names (JsString.N_to_string index)).
    + destruct (replacement_of x v) as [r|err'] eqn:Hr.
      * intros [= <- <-]. cbn [forallb]. intros H. apply andb_true_iff in H as [_ H].
        now rewrite (replacement_well_formed _ _ _ Hr), IH.
      * now intros [= <- <-].
    + intros [= <- <-]. cbn [forallb]. intros H. apply andb_true_iff in H as [Hx H].
      now rewrite Hx, IH.
Qed.

Lemma updateDependencies_well_formed (names : list value) (v : string) (d d' : json)
  (e : option js_error) :
  updateDependencies names (Some d) v = (Some d', e) ->
  well_formed d = true -> well_formed d' = true.
Proof.
  unfold updateDependencies. destruct (truthy_value (Some d)); [|now intros [= <-]].
  destruct d as [| | | |items|members]; try (now intros [= <-]).
  - destruct (update_items names v 0 items) as [items' err] eqn:Hu.
    intros [= <- <-]. cbn [well_formed]. now apply (update_items_well_formed _ _ _ _ _ _ Hu).
  - destruct (update_members names v members) as [members' err] eqn:Hu.
    intros [= <- <-]. cbn [well_formed].
    destruct (update_members_well_formed _ _ _ _ _ Hu) as [Hkeys Hvalues].
    rewrite Hkeys. intros H. apply andb_true_iff in H as [H1 H2]. now rewrite H1, Hvalues.
Qed.

Lemma well_formed_replace_member (k : string) (x : json) (m : list (string * json)) :
  well_formed x = true ->
  well_formed (JObject m) = true ->
  well_formed (JObject (Json.replace_member k x m)) = true.
Proof.
  cbn [well_formed]. intros Hx H. apply andb_true_iff in H as [Hkeys Hvalues].
  now rewrite map_fst_replace_member, Hkeys, (forallb_replace_member well_formed).
Qed.

Lemma update_fields_well_formed (names : list value) (v : string) (fields : list string) :
  forall m m' e,
    update_fields names v fields m = (m', e) ->
    well_formed (JObject m) = true -> well_formed (JObject m') = true.
Proof.
  induction fields as [|field rest IH]; intros m m' e; cbn [update_fields].
  - now intros [= <- <-].
  - destruct (updateDependencies names (lookup field m) v) as [[deps'|] [err|]] eqn:Hu;
      try (now intros [= <- <-]).
    + intros [= <- <-] Hm.
      destruct (updateDependencies_defined _ _ _ _ _ Hu) as [x Hx]. rewrite Hx in Hu.
      apply well_formed_replace_member; [|exact Hm].
      apply (updateDependencies_well_formed _ _ _ _ _ Hu).
      cbn [well_formed] in Hm. apply andb_true_iff in Hm as [_ Hm].
      now apply (lookup_forallb well_formed field x m).
    + intros Hrest Hm. apply (IH _ _ _ Hrest).
      destruct (updateDependencies_defined _ _ _ _ _ Hu) as [x Hx]. rewrite Hx in Hu.
      apply well_formed_replace_member; [|exact Hm].
      apply (updateDependencies_well_formed _ _ _ _ _ Hu).
      cbn [well_formed] in Hm. apply andb_true_iff in Hm as [_ Hm].
      now apply (lookup_forallb well_formed field x m).
    + intros Hrest. now apply (IH _ _ _ Hrest).
Qed.

(** The text written for a file whose line ending is known, or that is
    written without indentation, parses to the value written. *)
Lemma known_contents_parse (f : JSONFile) (p : json) :
  well_formed p = true ->
  line_ending_known f = true ->
  blank (trailingWhitespace f) = true ->
  Json.parse (JSONFile_contents (with_pkg f p)) = Some p.
Proof.
  intros Hwf Hknown Htrailing. unfold line_ending_known in Hknown.
  rewrite (JSONFile_contents_layout (with_pkg f p) _ eq_refl).
  cbn [with_pkg lineEndings indent pkg trailingWhitespace].
  destruct (lineEndings f) as [le|].
  - now apply parse_canonical; [| apply gap_of_blank | |].
  - apply Nat.eqb_eq in Hknown. rewrite Hknown.
    change (Json.gap_of 0) with EmptyString.
    rewrite (layout_compact _ DetectNewline.LF _ _ EmptyString).
    now apply parse_canonical.
Qed.

(** X15.  After [bump], outside dry-run mode, what is on disk is what is in
    memory: the file of every workspace parses to the manifest the workspace
    holds.  (The manifests are plain, each in a file of its own, with a
    known line ending and trailing white space of JSON.) *)
Theorem bump_disk_consistent (self : plugin) (version : string) (tag : option string)
  (st : state) :
  isDryRun self = false ->
  bump_distTag (options_distTag self) version = Ok tag ->
  List.length (wstates st) = List.length (workspaces self) ->
  forallb (fun ws => plain_manifest (manifest_of ws)) (wstates st) = true ->
  forallb (fun ws => sound_file (pkgInfo ws)) (wstates st) = true ->
  NoDup (manifest_files st) ->
  exists st',
    bump self version st = (Returns tt, st')
    /\ List.length (wstates st') = List.length (wstates st)
    /\ forall i ws',
         nth_error (wstates st') i = Some ws' ->
         option_map Json.parse (read_file (filename (pkgInfo ws')) (disk st'))
         = Some (Some (manifest_of ws')).
Proof.
  intros Hdry Htag Hlen Hplain Hsound Hnodup.
  rewrite (bump_runs self version tag st Hdry Htag).
  destruct (bump_returns self version tag st Hdry Htag Hlen Hplain) as [st' Hrun].
  exists st'. split; [exact Hrun|].
  destruct (forEach_bump_fields self version _ _ _ _ Hrun) as (_ & _ & _ & _ & _ & Hreleased & _).
  assert (Hlength : List.length (wstates st') = List.length (wstates st)).
  { rewrite <- (length_map isReleased), Hreleased, length_map. reflexivity. }
  split; [exact Hlength|].
  intros i ws' Hws'.
  assert (Hi : i < List.length (wstates st)).
  { rewrite <- Hlength. apply nth_error_Some. congruence. }
  destruct (nth_error (wstates st) i) as [ws|] eqn:Hws;
    [|apply nth_error_None in Hws; lia].
  rewrite forallb_forall in Hplain, Hsound.
  pose proof (Hplain ws (nth_error_In _ _ Hws)) as Hplain_ws.
  pose proof (Hsound ws (nth_error_In _ _ Hws)) as Hsound_ws.
  unfold sound_file in Hsound_ws.
  apply andb_true_iff in Hsound_ws as [Hsound_ws Htrailing].
  apply andb_true_iff in Hsound_ws as [Hwf Hknown].
  unfold plain_manifest in Hplain_ws.
  destruct (manifest_of ws) as [| | | | |members] eqn:Hpkg; try discriminate Hplain_ws.
  destruct (forEach_bump_effect self version _ _ _ _ Hrun Hnodup i ws members)
    as (members' & Hu & Hnew & Hfile & _); [lia | exact Hws | exact Hpkg |].
  rewrite Hws' in Hnew. injection Hnew as ->.
  cbn [pkgInfo]. change (filename (with_pkg (pkgInfo ws) (JObject members')))
    with (filename (pkgInfo ws)).
  rewrite Hfile. cbn [option_map]. do 2 f_equal.
  apply known_contents_parse; [| exact Hknown | exact Htrailing].
  apply (update_fields_well_formed _ _ _ _ _ _ Hu).
  apply well_formed_set_version. unfold manifest_of in Hpkg. now rewrite <- Hpkg.
Qed.

Lemma bump_disk_consistent_witness :
  exists st',
    bump Example.self "2.0.0" Example.start = (Returns tt, st')
    /\ option_map Json.parse (read_file "/repo/packages/b/package.json" (disk st'))
       = Some (Some (JObject [("name", JString "b"); ("version", JString "2.0.0");
                              ("dependencies", JObject [("a", JString "^2.0.0")])])).
Proof.
  destruct (bump_disk_consistent Example.self "2.0.0" (Some "latest") Example.start
              eq_refl eq_refl eq_refl eq_refl eq_refl)
    as (st' & Hrun & _ & Hfiles).
  { vm_compute. repeat (constructor; [simpl; intuition discriminate|]). constructor. }
  exists st'. split; [exact Hrun|].
  assert (Hst' : st' = snd (bump Example.self "2.0.0" Example.start)) by now rewrite Hrun.
  assert (Hb : nth_error (wstates st') 1
               = Some (mkWorkspaceState false
                         (mkJSONFile "/repo/packages/b/package.json"
                            (JObject [("name", JString "b"); ("version", JString "2.0.0");
                                      ("dependencies", JObject [("a", JString "^2.0.0")])])
                            (Some nl) 2 nl)))
    by (rewrite Hst'; vm_compute; reflexivity).
  exact (Hfiles 1 _ Hb).
Defined.

(** ** [_updateDependencies]: the entries of a dependency map *)

Lemma update_members_entries (names : list value) (v : string) (deps deps' : list (string * json)) :
  update_members names v deps = (deps', None) ->
  forall k x,
    lookup k deps = Some (JString x) ->
    lookup k deps'
    = Some (JString (if is_workspace_name names k
                     then buildReplacementDepencencyVersion x v else x)).
Proof.
  intros Hu k x Hk.
  pose proof (update_members_lookup names v deps deps' Hu k) as H. rewrite Hk in H.
  destruct (is_workspace_name names k); [|exact H].
  destruct H as (r & Hr & Hl). cbn in Hr. now injection Hr as <-.
Qed.

(** X16.  On a dependency map that maps names to strings [_updateDependencies]
    never throws; it keeps the names and their order, rewrites the specifier
    of each name that is the name of a workspace, and leaves the specifier of
    every other package as it is.  Without a map it does nothing. *)
Theorem updateDependencies_entries (names : list value) (v : string)
  (deps : list (string * json)) :
  string_valued (Some (JObject deps)) = true ->
  exists deps',
    updateDependencies names (Some (JObject deps)) v = (Some (JObject deps'), None)
    /\ map fst deps' = map fst deps
    /\ (forall k x,
          lookup k deps = Some (JString x) ->
          lookup k deps'
          = Some (JString (if is_workspace_name names k
                           then buildReplacementDepencencyVersion x v else x)))
    /\ updateDependencies names undefined v = (undefined, None).
Proof.
  intros Hstrings.
  destruct (update_members_strings names v deps Hstrings) as (deps' & Hu & _).
  exists deps'. unfold updateDependencies. cbn [truthy_value]. rewrite Hu.
  split; [reflexivity|].
  split; [apply (update_members_well_formed _ _ _ _ _ Hu)|].
  split; [now apply update_members_entries | reflexivity].
Qed.

Lemma updateDependencies_entries_witness :
  updateDependencies [Some (JString "a"); Some (JString "b")]
    (Some (JObject [("lodash", JString "^4.17.0"); ("a", JString "~1.0.0");
                    ("zod", JString "1.0.0")])) "2.0.0"
  = (Some (JObject [("lodash", JString "^4.17.0"); ("a", JString "~2.0.0");
                    ("zod", JString "1.0.0")]), None).
Proof.
  destruct (updateDependencies_entries [Some (JString "a"); Some (JString "b")] "2.0.0"
              [("lodash", JString "^4.17.0"); ("a", JString "~1.0.0"); ("zod", JString "1.0.0")]
              eq_refl) as (deps' & Hrun & _).
  rewrite Hrun. f_equal. now injection Hrun as <-.
Defined.

(** ** [bump]: when rewriting a dependency throws *)

Lemma update_fields_keeps (names : list value) (v : string) (fields : list string) :
  forall m m' e,
    update_fields names v fields m = (m', e) ->
    forall k, ~ In k fields -> lookup k m' = lookup k m.
Proof.
  induction fields as [|field rest IH]; intros m m' e; cbn [update_fields].
  - now intros [= <- <-].
  - destruct (updateDependencies names (lookup field m) v) as [[deps'|] [err|]];
      intros H k Hk.
    + injection H as <- <-. apply lookup_replace_member_other. intros ->. apply Hk. now left.
    + rewrite (IH _ _ _ H k) by (intros Hin; apply Hk; now right).
      apply lookup_replace_member_other. intros ->. apply Hk. now left.
    + now injection H as <- <-.
    + apply (IH _ _ _ H k). intros Hin. apply Hk. now right.
Qed.

(** X17.  The turn of [bump] for one workspace is not atomic: when rewriting its
    dependencies throws, the manifest in memory holds the new version
    already, and its file is not written. *)
Theorem bump_workspace_throws (self : plugin) (version : string) (i : nat) (st st' : state)
  (e : js_error) (ws : workspaceState) (members : list (string * json)) :
  nth_error (wstates st) i = Some ws ->
  manifest_of ws = JObject members ->
  bump_workspace self version i st = (Throws e, st') ->
  disk st' = disk st
  /\ exists members',
       nth_error (wstates st') i
       = Some (mkWorkspaceState (isReleased ws) (with_pkg (pkgInfo ws) (JObject members')))
       /\ lookup "version" members' = Some (JString version).
Proof.
  intros Hws Hpkg. unfold manifest_of in Hpkg.
  unfold bump_workspace, bind, get. rewrite Hws, Hpkg.
  destruct (update_fields (workspace_names self) version DEPENDENCY_FIELDS
              (Json.set_member "version" (JString version) members))
    as [members' [err|]] eqn:Hu.
  - assert (Hversion : lookup "version" members' = Some (JString version)).
    { rewrite (update_fields_keeps _ _ _ _ _ _ Hu).
      - apply lookup_set_member_same.
      - intros Hin. now apply (not_version_field _ Hin). }
    intros H.
    assert (Hst' : disk st' = disk st
                   /\ wstates st'
                      = (firstn i (wstates st)
                         ++ mkWorkspaceState (isReleased ws)
                              (with_pkg (pkgInfo ws) (JObject members'))
                            :: skipn (S i) (wstates st))%list).
    { destruct (lookup "version" members) as [[| | |o| |]|];
        try (destruct (o =? version)%string); cbn in H; injection H as _ <-; now split. }
    destruct Hst' as [Hdisk Hwst]. split; [exact Hdisk|].
    exists members'. split; [|exact Hversion].
    rewrite Hwst. eapply update_nth_same. exact Hws.
  - intros H. exfalso.
    destruct (lookup "version" members) as [[| | |o| |]|];
      try (destruct (o =? version)%string); cbn in H; discriminate H.
Qed.

(** A dependency on a sibling that is given as a number makes [bump] throw:
    the file of [a] is written, the manifest of [b] holds the new version in
    memory, and the file of [b] is as it was. *)
Lemma bump_workspace_throws_witness :
  exists e st1 st',
    bump_workspace Example.self "2.0.0" 0
      (set_context_distTag (Some "latest") Scenario.numbered_start) = (Returns tt, st1)
    /\ bump_workspace Example.self "2.0.0" 1 st1 = (Throws e, st')
    /\ bump Example.self "2.0.0" Scenario.numbered_start
       = (Throws (TypeError "existingVersion.replace is not a function"), st')
    /\ disk st' = disk st1
    /\ option_map manifest_of (nth_error (wstates st') 1)
       = Some (JObject [("name", JString "b"); ("version", JString "2.0.0");
                        ("dependencies", JObject [("a", JNumber 1)])])
    /\ read_file "/repo/packages/b/package.json" (disk st') = Some Example.manifest_b.
Proof.
  destruct (bump_workspace Example.self "2.0.0" 0
      (set_context_distTag (Some "latest") Scenario.numbered_start)) as [r1 st1] eqn:H1.
  destruct (bump_workspace Example.self "2.0.0" 1 st1) as [r2 st'] eqn:H2.
  assert (Hst1 : st1 = snd (bump_workspace Example.self "2.0.0" 0
      (set_context_distTag (Some "latest") Scenario.numbered_start)))
    by now rewrite H1.
  assert (Hr1 : r1 = Returns tt) by (injection H1 as <- _; reflexivity).
  assert (Hr2 : r2 = Throws (TypeError "existingVersion.replace is not a function"))
    by (rewrite Hst1 in H2; injection H2 as <- _; reflexivity).
  subst r1 r2.
  exists (TypeError "existingVersion.replace is not a function"), st1, st'.
  split; [reflexivity|]. split; [exact H2|].
  destruct (bump_workspace_throws Example.self "2.0.0" 1 st1 st'
              (TypeError "existingVersion.replace is not a function")
              (mkWorkspaceState false
                 (mkJSONFile "/repo/packages/b/package.json"
                    (JObject [("name", JString "b"); ("version", JString "1.0.0");
                              ("dependencies", JObject [("a", JNumber 1)])]) (Some nl) 2 nl))
              [("name", JString "b"); ("version", JString "1.0.0");
               ("dependencies", JObject [("a", JNumber 1)])])
    as (Hdisk & members' & Hwst & Hversion);
    [rewrite Hst1; reflexivity | reflexivity | exact H2 |].
  assert (Hst' : st' = snd (bump_workspace Example.self "2.0.0" 1 st1)) by now rewrite H2.
  split. { rewrite Hst', Hst1. reflexivity. }
  split; [exact Hdisk|].
  split. { rewrite Hst', Hst1. reflexivity. }
  rewrite Hdisk, Hst1. reflexivity.
Defined.

(** ** The checks of the registry *)



(** ** The configured globs *)


